(** * SimpleEnv: a crafting grid world (src/env.py)

    A shallow embedding of [SimpleEnv] and of the properties its
    specification states about it.  The environment subclasses the grid
    engine [MiniGridEnv]; the engine's own methods ([step], [place_obj],
    [place_agent], the random generator) are an interface here, and the
    code of [SimpleEnv] is written against that interface.  The last
    part of the definitions covers [render] and [CustomManualControl],
    and the last part of the properties what the code shows beyond its
    specification.

    Numbers.  Python integers are [Z].  The sensor works on float64
    values that are all of the form [sqrt n / w] for integers [n], [w];
    they are carried symbolically, and the two float tests of the scan
    (the distance comparison and the angular window) are decided on the
    integer vector they are computed from, see [dist_lt] and
    [within_beam].  Over the reals the integer tests are the tests of
    the source ([within_beam_window_source], [dist_lt_sqrt]); this is
    also what the float code computes as long as the coordinates are far
    below [2^26] (squares are then exact, the square root is monotone,
    and no integer vector lies on the boundary of a window or closer to
    it than the rounding of [arctan2]); the cast of the observation to
    float32 is not modelled. *)

From Stdlib Require Import ZArith Lia Reals Lra Psatz.
From stdpp Require Import base option list strings gmap sorting.

Local Open Scope string_scope.
Local Open Scope list_scope.
Local Open Scope Z_scope.

(** ** Outcomes of a call

    A Python call returns a value, raises, or (inside the engine's
    rejection sampling) never returns. *)

Inductive exn := AssertionError | TypeError | ValueError | RuntimeError | GymError.

Inductive outcome (A : Type) :=
| Returns (a : A)
| Raises (e : exn)
| Hangs.
Arguments Returns {A} a.
Arguments Raises {A} e.
Arguments Hangs {A}.

Definition returns {A} (o : outcome A) : Prop := ∃ a, o = Returns a.

Definition hangs {A} (o : outcome A) : bool :=
  match o with
  | Hangs => true
  | _ => false
  end.

Global Instance outcome_ret : MRet outcome := @Returns.

Global Instance outcome_bind : MBind outcome := λ A B k o,
  match o with
  | Returns a => k a
  | Raises e => Raises e
  | Hangs => Hangs
  end.

(** ** World objects

    [Resource] is the subclass of the engine's [Ball] that carries a
    resource name; the program creates it with the five names below and
    no other.  [Box] is the engine's box (purple: the chest, blue: the
    crafting table).  [Wall] and [Floor] stand for the engine's other
    objects: none of [Wall], [Ball], [Box] permits overlap, [Floor]
    does. *)

Inductive ResourceKind := IronOre | SilverOre | PlatinumOre | GoldOre | Tree.

Definition resource_name (k : ResourceKind) : string :=
  match k with
  | IronOre => "Iron Ore"
  | SilverOre => "Silver Ore"
  | PlatinumOre => "Platinum Ore"
  | GoldOre => "Gold Ore"
  | Tree => "Tree"
  end.

Inductive WorldObj :=
| Wall
| Floor
| Resource (color : string) (kind : ResourceKind)
| Box (color : string).

Definition can_overlap (o : WorldObj) : bool :=
  match o with
  | Floor => true
  | _ => false
  end.

(** [isinstance(fwd_cell, Box) and fwd_cell.color == c] *)
Definition is_box_of (c : string) (cell : option WorldObj) : bool :=
  match cell with
  | Some (Box c') => bool_decide (c' = c)
  | _ => false
  end.

(** ** The grid

    Modelled from the spec: the engine's grid (section 6: grid
    allocation and wall-stamping, cell get/set by coordinate).  A grid
    is its two dimensions and the occupied cells; [get] and [set]
    assert that the coordinate is inside the grid. *)

Record Grid := mkGrid {
  gwidth : Z;
  gheight : Z;
  cells : gmap (Z * Z) WorldObj
}.

Definition in_grid (g : Grid) (c : Z * Z) : bool :=
  (0 <=? c.1) && (c.1 <? gwidth g) && (0 <=? c.2) && (c.2 <? gheight g).

Definition grid_get (g : Grid) (c : Z * Z) : outcome (option WorldObj) :=
  if in_grid g c then Returns (cells g !! c) else Raises AssertionError.

Definition grid_set (g : Grid) (c : Z * Z) (v : option WorldObj) : outcome Grid :=
  if in_grid g c then
    Returns (mkGrid (gwidth g) (gheight g)
               (match v with
                | Some o => <[c := o]> (cells g)
                | None => delete c (cells g)
                end))
  else Raises AssertionError.

(** [range(lo, hi)] *)
Definition range (lo hi : Z) : list Z := seqZ lo (hi - lo).

(** [Grid(width, height)] followed by [wall_rect(0, 0, width, height)]. *)
Definition wall_ring (w h : Z) : list (Z * Z) :=
  ((λ x, (x, 0)) <$> range 0 w) ++ ((λ x, (x, h - 1)) <$> range 0 w) ++
  ((λ y, (0, y)) <$> range 0 h) ++ ((λ y, (w - 1, y)) <$> range 0 h).

Definition walled_grid (w h : Z) : outcome Grid :=
  if (3 <=? w) && (3 <=? h) then
    Returns (mkGrid w h (foldr (λ c m, <[c := Wall]> m) ∅ (wall_ring w h)))
  else Raises AssertionError.

(** ** The engine's state and interface *)

Record MiniGridEnv (Aux : Type) := mkMiniGrid {
  width : Z;
  height : Z;
  grid : Grid;
  agent_pos : option (Z * Z);
  agent_dir : option Z;
  step_count : Z;
  aux : Aux     (* carried object, random generator, step limit, ... *)
}.
Arguments mkMiniGrid {Aux}.
Arguments width {Aux}.
Arguments height {Aux}.
Arguments grid {Aux}.
Arguments agent_pos {Aux}.
Arguments agent_dir {Aux}.
Arguments step_count {Aux}.
Arguments aux {Aux}.

(** The methods [SimpleEnv] inherits and calls.  [super_step] is
    [MiniGridEnv.step]; of its result the caller keeps the reward and
    the two flags (the engine's reward is [0] on every transition that
    does not reach a goal cell, and this world has none, so it is taken
    in [Z]).  [np_random] is [seeding.np_random], which makes the
    generator for a seed or rejects the seed. *)
Class Engine (Aux : Type) := {
  super_step : Z → MiniGridEnv Aux → MiniGridEnv Aux * outcome (Z * bool * bool);
  place_obj : WorldObj → Z * Z → MiniGridEnv Aux → MiniGridEnv Aux * outcome (Z * Z);
  place_agent : MiniGridEnv Aux → MiniGridEnv Aux * outcome (Z * Z);
  np_random : option Z → Aux → outcome Aux
}.

(** Modelled from the spec: the engine's table [DIR_TO_VEC] of the four
    cardinal directions of an orientation (section 3), in the engine's
    order: +x, +y, -x, -y. *)
Definition DIR_TO_VEC (d : Z) : Z * Z :=
  if d =? 0 then (1, 0)
  else if d =? 1 then (0, 1)
  else if d =? 2 then (-1, 0)
  else (0, -1).

Definition vadd (p v : Z * Z) : Z * Z := (p.1 + v.1, p.2 + v.2).
Definition vsub (p q : Z * Z) : Z * Z := (p.1 - q.1, p.2 - q.2).

(** [self.front_pos]: [self.agent_pos + self.dir_vec], where [dir_vec]
    asserts [0 <= agent_dir < 4]. *)
Definition front_pos {Aux} (e : MiniGridEnv Aux) : outcome (Z * Z) :=
  match agent_dir e with
  | None => Raises TypeError
  | Some d =>
      if (0 <=? d) && (d <? 4) then
        match agent_pos e with
        | None => Raises TypeError
        | Some p => Returns (vadd p (DIR_TO_VEC d))
        end
      else Raises AssertionError
  end.

(** ** The environment *)

Record SimpleEnv (Aux : Type) := mkEnv {
  base : MiniGridEnv Aux;
  agent_start_pos : option (Z * Z);
  agent_start_dir : Z;
  max_reward_episodes : Z;
  current_episode : Z;
  collected_resources_global : gset string;
  sword_crafted : bool;
  inventory : list string
}.
Arguments mkEnv {Aux}.
Arguments base {Aux}.
Arguments agent_start_pos {Aux}.
Arguments agent_start_dir {Aux}.
Arguments max_reward_episodes {Aux}.
Arguments current_episode {Aux}.
Arguments collected_resources_global {Aux}.
Arguments sword_crafted {Aux}.
Arguments inventory {Aux}.

(** [SimpleEnv.Actions] *)
Module Actions.
Definition move_forward : Z := 0.
Definition turn_left : Z := 1.
Definition turn_right : Z := 2.
Definition toggle : Z := 3.
Definition craft_sword : Z := 4.
Definition open_chest : Z := 5.
End Actions.

Definition resource_names : list string :=
  ["Iron Ore"; "Silver Ore"; "Platinum Ore"; "Gold Ore"; "Tree"; "Chest";
   "Crafting Table"; "Wall"].

(** [l.index(x)]; [None] is Python's [ValueError]. *)
Fixpoint list_index (x : string) (l : list string) : option nat :=
  match l with
  | [] => None
  | y :: l' => if decide (x = y) then Some 0%nat else S <$> list_index x l'
  end.

(** [l.remove(x)]: drops the first occurrence. *)
Fixpoint list_remove (x : string) (l : list string) : list string :=
  match l with
  | [] => []
  | y :: l' => if decide (x = y) then l' else y :: list_remove x l'
  end.

(** *** get_entity_index *)
Definition get_entity_index (obj : WorldObj) : option nat :=
  match obj with
  | Resource _ k => list_index (resource_name k) resource_names
  | Box color =>
      list_index (if decide (color = "purple") then "Chest" else "Crafting Table")
        resource_names
  | _ => list_index "Wall" resource_names
  end.

(** ** The sensor: get_lidar_observation

    A lidar entry is [0.0] or [min_dist / self.grid.width] with
    [min_dist] the Euclidean norm of an integer vector, so it is either
    [Zero] or [SqrtOver n w], the number [sqrt n / w]. *)

Inductive scalar := Zero | SqrtOver (n w : Z).

Definition nonzero (x : scalar) : bool :=
  match x with
  | Zero => false
  | SqrtOver n _ => negb (n =? 0)
  end.

(** [dist_to_obj = np.linalg.norm(vec_to_obj)] is [sqrt (norm2 v)]. *)
Definition norm2 (v : Z * Z) : Z := v.1 * v.1 + v.2 * v.2.

(** The bearing [arctan2 v.2 v.1] seen from the axis of beam [i], whose
    angle is [i * (2 pi / 8)]: the vector turned back by that angle (and
    scaled by [sqrt 2] for the diagonal beams), so that the beam's axis
    is the positive first coordinate. *)
Definition turn_back (i : nat) (v : Z * Z) : Z * Z :=
  let '(dx, dy) := v in
  match i with
  | 0%nat => (dx, dy)
  | 1%nat => (dx + dy, dy - dx)
  | 2%nat => (dy, - dx)
  | 3%nat => (dy - dx, - dx - dy)
  | 4%nat => (- dx, - dy)
  | 5%nat => (- dx - dy, dx - dy)
  | 6%nat => (- dy, dx)
  | _ => (dx - dy, dx + dy)
  end.

(** [abs(angle_diff) <= np.pi / 8], where [angle_diff] is the bearing
    minus the beam angle wrapped to [[-pi, pi)].  For a vector [(a, b)]
    seen from the beam's axis this is [0 < a] and [|b| <= a * tan (pi/8)];
    [tan (pi/8) = sqrt 2 - 1], so the test is [(|b| + a)^2 <= 2 a^2].
    The null vector has bearing [arctan2 0 0 = 0]: beam 0 only. *)
Definition within_beam (i : nat) (v : Z * Z) : bool :=
  if bool_decide (v = (0, 0)) then bool_decide (i = 0%nat)
  else
    let '(a, b) := turn_back i v in
    (0 <? a) && ((Z.abs b + a) * (Z.abs b + a) <=? 2 * a * a).

(** The two variables of the inner loop are assigned together:
    [None] is [(min_dist, closest_entity_idx) = (inf, -1)], and
    [Some (n, k)] is [(sqrt n, k)]. *)
Definition closest := option (Z * nat).

(** [dist_to_obj < min_dist], for [dist_to_obj = sqrt n]. *)
Definition dist_lt (n : Z) (acc : closest) : bool :=
  match acc with
  | None => true
  | Some (m, _) => n <? m
  end.

(** The cells in the order of the two nested loops. *)
Definition scan_cells (g : Grid) : list (Z * Z) :=
  x ← range 0 (gwidth g); y ← range 0 (gheight g); [(x, y)].

Fixpoint foldM {A B} (f : A → B → outcome A) (a : A) (l : list B) : outcome A :=
  match l with
  | [] => Returns a
  | b :: l' => a' ← f a b; foldM f a' l'
  end.

(** The body of the inner loop for the cell [c]. *)
Definition scan_cell (g : Grid) (agent : option (Z * Z)) (i : nat)
    (acc : closest) (c : Z * Z) : outcome closest :=
  obj ← grid_get g c;
  match obj with
  | None => Returns acc
  | Some o =>
      match agent with
      | None => Raises TypeError
      | Some p =>
          let vec_to_obj := vsub c p in
          if within_beam i vec_to_obj && dist_lt (norm2 vec_to_obj) acc then
            match get_entity_index o with
            | Some k => Returns (Some (norm2 vec_to_obj, k))
            | None => Raises ValueError
            end
          else Returns acc
      end
  end.

Definition zeros : list scalar := replicate 8 Zero.

(** One row of [lidar_obs]. *)
Definition lidar_row (g : Grid) (agent : option (Z * Z)) (i : nat) : outcome (list scalar) :=
  acc ← foldM (scan_cell g agent i) None (scan_cells g);
  Returns (match acc with
           | None => zeros
           | Some (n, k) => <[k := SqrtOver n (gwidth g)]> zeros
           end).

Definition get_lidar_observation (g : Grid) (agent : option (Z * Z)) :
    outcome (list (list scalar)) :=
  mapM (lidar_row g agent) (seq 0 8).

(** ** get_inventory_observation *)
Definition get_inventory_observation (inv : list string) : list Z :=
  foldl (λ inventory_obs item,
           if bool_decide (item ∈ resource_names) then
             match list_index item resource_names with
             | Some index => alter (λ n, n + 1) index inventory_obs
             | None => inventory_obs
             end
           else inventory_obs)
        (replicate 8 0) inv.

(** ** get_obs: the flattened lidar block followed by the inventory block *)
Record Obs := mkObs {
  obs_lidar : list scalar;
  obs_inventory : list Z
}.

Definition get_obs {Aux} (s : SimpleEnv Aux) : outcome Obs :=
  lidar_obs ← get_lidar_observation (grid (base s)) (agent_pos (base s));
  Returns (mkObs (concat lidar_obs) (get_inventory_observation (inventory s))).

(** ** Methods of the environment

    A method runs on the object's state and leaves a state behind
    whether it returns or raises. *)

Section Methods.
Context {Aux : Type} {E : Engine Aux}.

Definition M (A : Type) : Type := SimpleEnv Aux → SimpleEnv Aux * outcome A.

Global Instance M_ret : MRet M := λ A a s, (s, Returns a).

Global Instance M_bind : MBind M := λ A B k m s,
  match m s with
  | (s', Returns a) => k a s'
  | (s', Raises e) => (s', Raises e)
  | (s', Hangs) => (s', Hangs)
  end.

Definition raise {A} (e : exn) : M A := λ s, (s, Raises e).

(** An expression that reads the state. *)
Definition eval {A} (f : SimpleEnv Aux → outcome A) : M A := λ s, (s, f s).

(** An assignment to attributes. *)
Definition assign (f : SimpleEnv Aux → SimpleEnv Aux) : M unit := λ s, (f s, Returns ()).

Definition with_base (f : MiniGridEnv Aux → MiniGridEnv Aux) (s : SimpleEnv Aux) :
    SimpleEnv Aux :=
  mkEnv (f (base s)) (agent_start_pos s) (agent_start_dir s) (max_reward_episodes s)
    (current_episode s) (collected_resources_global s) (sword_crafted s) (inventory s).

(** A call of an inherited method. *)
Definition super {A} (f : MiniGridEnv Aux → MiniGridEnv Aux * outcome A) : M A := λ s,
  let '(e, o) := f (base s) in (with_base (λ _, e) s, o).

Definition set_grid (g : Grid) (e : MiniGridEnv Aux) : MiniGridEnv Aux :=
  mkMiniGrid (width e) (height e) g (agent_pos e) (agent_dir e) (step_count e) (aux e).

Definition set_agent (p : option (Z * Z)) (d : option Z) (e : MiniGridEnv Aux) :
    MiniGridEnv Aux :=
  mkMiniGrid (width e) (height e) (grid e) p d (step_count e) (aux e).

Definition set_step_count (n : Z) (e : MiniGridEnv Aux) : MiniGridEnv Aux :=
  mkMiniGrid (width e) (height e) (grid e) (agent_pos e) (agent_dir e) n (aux e).

Definition set_aux (a : Aux) (e : MiniGridEnv Aux) : MiniGridEnv Aux :=
  mkMiniGrid (width e) (height e) (grid e) (agent_pos e) (agent_dir e) (step_count e) a.

Definition set_agent_start_pos (p : option (Z * Z)) (s : SimpleEnv Aux) : SimpleEnv Aux :=
  mkEnv (base s) p (agent_start_dir s) (max_reward_episodes s)
    (current_episode s) (collected_resources_global s) (sword_crafted s) (inventory s).

Definition set_current_episode (n : Z) (s : SimpleEnv Aux) : SimpleEnv Aux :=
  mkEnv (base s) (agent_start_pos s) (agent_start_dir s) (max_reward_episodes s)
    n (collected_resources_global s) (sword_crafted s) (inventory s).

Definition set_collected (X : gset string) (s : SimpleEnv Aux) : SimpleEnv Aux :=
  mkEnv (base s) (agent_start_pos s) (agent_start_dir s) (max_reward_episodes s)
    (current_episode s) X (sword_crafted s) (inventory s).

Definition set_sword_crafted (b : bool) (s : SimpleEnv Aux) : SimpleEnv Aux :=
  mkEnv (base s) (agent_start_pos s) (agent_start_dir s) (max_reward_episodes s)
    (current_episode s) (collected_resources_global s) b (inventory s).

Definition set_inventory (l : list string) (s : SimpleEnv Aux) : SimpleEnv Aux :=
  mkEnv (base s) (agent_start_pos s) (agent_start_dir s) (max_reward_episodes s)
    (current_episode s) (collected_resources_global s) (sword_crafted s) l.

(** *** __init__

    [e0] is the engine's state after [super().__init__]. *)
Definition init (e0 : MiniGridEnv Aux) (start_pos : option (Z * Z)) (start_dir : Z)
    (max_reward : Z) : SimpleEnv Aux :=
  mkEnv e0 start_pos start_dir max_reward 0 ∅ false [].

(** *** step

    The result is the observation, the reward and the two flags
    [terminated] and [truncated]; [info] is empty. *)
Definition StepResult : Type := Obs * Z * bool * bool.

Definition fwd : M ((Z * Z) * option WorldObj) :=
  fwd_pos ← eval (λ s, front_pos (base s));
  fwd_cell ← eval (λ s, grid_get (grid (base s)) fwd_pos);
  mret (fwd_pos, fwd_cell).

Definition return_obs (reward : Z) (terminated truncated : bool) : M StepResult :=
  obs ← eval get_obs;
  mret (obs, reward, terminated, truncated).

(** The last three lines of [step]. *)
Definition fall_through (action reward : Z) : M StepResult :=
  '(reward_super, terminated, truncated) ← super (super_step action);
  return_obs (reward + reward_super) terminated truncated.

Definition craft : M unit :=
  assign (λ s, set_inventory (list_remove "Tree" (inventory s)) s);;
  assign (λ s, set_inventory (list_remove "Iron Ore" (inventory s)) s);;
  assign (λ s, set_inventory (inventory s ++ ["Iron Sword"]) s);;
  assign (set_sword_crafted true).

Definition step (action : Z) : M StepResult :=
  let reward := -1 in
  if action =? Actions.craft_sword then
    '(fwd_pos, fwd_cell) ← fwd;
    if is_box_of "blue" fwd_cell then
      s ← eval Returns;
      if bool_decide ("Tree" ∈ inventory s) && bool_decide ("Iron Ore" ∈ inventory s)
         && negb (sword_crafted s) then
        craft;;
        return_obs (if current_episode s <? max_reward_episodes s
                    then reward + 50 else reward) false false
      else return_obs (reward + -1) false false
    else fall_through action reward
  else if action =? Actions.open_chest then
    '(fwd_pos, fwd_cell) ← fwd;
    if is_box_of "purple" fwd_cell then
      s ← eval Returns;
      if bool_decide ("Iron Sword" ∈ inventory s) then
        assign (λ s, set_inventory (inventory s ++ ["Treasure"]) s);;
        return_obs (reward + 1000) true false
      else return_obs (reward + -1) false false
    else fall_through action reward
  else if action =? Actions.toggle then
    '(fwd_pos, fwd_cell) ← fwd;
    match fwd_cell with
    | Some (Resource _ kind) =>
        s ← eval Returns;
        if bool_decide (resource_name kind ∉ collected_resources_global s) then
          assign (λ s, set_collected
                         (collected_resources_global s ∪ {[resource_name kind]}) s);;
          assign (λ s, set_inventory (inventory s ++ [resource_name kind]) s);;
          g ← eval (λ s, grid_set (grid (base s)) fwd_pos None);
          assign (with_base (set_grid g));;
          return_obs (reward + 1) false false
        else return_obs (reward + -1) false false
    | _ => fall_through action reward
    end
  else fall_through action reward.

(** *** _gen_grid *)

(** The list comprehension of the empty interior cells. *)
Definition empty_positions (g : Grid) (w h : Z) : outcome (list (Z * Z)) :=
  looked ← mapM (λ c, o ← grid_get g c; Returns (c, o))
              (x ← range 1 (w - 1); y ← range 1 (h - 1); [(x, y)]);
  Returns ((filter (λ co, co.2 = None) looked).*1).

(** Lines 94 to 112: the agent's start. *)
Definition place_start (w h : Z) : M unit :=
  start ← eval (λ s, Returns (agent_start_pos s));
  match start with
  | Some p =>
      start_cell ← eval (λ s, grid_get (grid (base s)) p);
      (match start_cell with
       | Some o =>
           if negb (can_overlap o) then
             empty ← eval (λ s, empty_positions (grid (base s)) w h);
             match empty with
             | q :: _ => assign (set_agent_start_pos (Some q))
             | [] => raise RuntimeError
             end
           else mret ()
       | None => mret ()
       end);;
      assign (λ s, with_base (set_agent (agent_start_pos s) (Some (agent_start_dir s))) s)
  | None => super place_agent;; mret ()
  end.

Definition _gen_grid (w h : Z) : M unit :=
  g ← eval (λ _, walled_grid w h);
  assign (with_base (set_grid g));;
  super (place_obj (Resource "red" IronOre) (1, 1));;
  super (place_obj (Resource "grey" SilverOre) (2, 1));;
  super (place_obj (Resource "purple" PlatinumOre) (3, 1));;
  super (place_obj (Resource "yellow" GoldOre) (4, 1));;
  super (place_obj (Resource "green" Tree) (5, 1));;
  super (place_obj (Box "purple") (6, 1));;
  super (place_obj (Box "blue") (7, 1));;
  place_start w h.

(** *** reset *)
Definition reset (seed : option Z) : M Obs :=
  rng ← eval (λ s, np_random seed (aux (base s)));
  assign (with_base (set_aux rng));;
  assign (set_inventory []);;
  assign (set_sword_crafted false);;
  assign (λ s, set_current_episode (current_episode s + 1) s);;
  s ← eval Returns;
  _gen_grid (width (base s)) (height (base s));;
  super place_agent;;
  assign (with_base (set_step_count 0));;
  eval get_obs.

End Methods.
Arguments M : clear implicits.

(** ** An engine

    Modelled from the spec: the collaborating grid engine (sections 4.1,
    4.4 and 6), which is not part of the source: random-empty-cell
    placement rejecting occupied cells, movement blocked by anything
    that does not permit overlap, orientation changing by a quarter
    turn, and a step-count-based truncation signal.  The random
    generator is the list of the raw draws it will yield; a generator
    that has run dry stands for a sampling that does not end.  The
    theorems below hold for every engine; this one provides concrete
    runs. *)

Module Engine0.

Record Aux := mkAux {
  max_steps : Z;
  draws : list Z
}.

Definition set_draws (l : list Z) (e : MiniGridEnv Aux) : MiniGridEnv Aux :=
  set_aux (mkAux (max_steps (aux e)) l) e.

(** [_rand_int(low, high)] on the raw draw [r]. *)
Definition rand_int (low high r : Z) : outcome Z :=
  if low <? high then Returns (low + r `mod` (high - low)) else Raises ValueError.

(** The rejection sampling of [place_obj(obj, top)], one round per two
    draws. *)
Fixpoint sample (fuel : nat) (top : Z * Z) (e : MiniGridEnv Aux) :
    MiniGridEnv Aux * outcome (Z * Z) :=
  match fuel, draws (aux e) with
  | S fuel', rx :: ry :: rest =>
      let e' := set_draws rest e in
      match rand_int (Z.max top.1 0) (gwidth (grid e)) rx,
            rand_int (Z.max top.2 0) (gheight (grid e)) ry with
      | Returns x, Returns y =>
          match cells (grid e) !! (x, y) with
          | Some _ => sample fuel' top e'
          | None =>
              if bool_decide (agent_pos e = Some (x, y)) then sample fuel' top e'
              else (e', Returns (x, y))
          end
      | Raises err, _ | _, Raises err => (e', Raises err)
      | _, _ => (e', Hangs)
      end
  | _, _ => (e, Hangs)
  end.

Definition place (obj : option WorldObj) (top : Z * Z) (e : MiniGridEnv Aux) :
    MiniGridEnv Aux * outcome (Z * Z) :=
  match sample (length (draws (aux e))) top e with
  | (e', Returns pos) =>
      match grid_set (grid e') pos obj with
      | Returns g => (set_grid g e', Returns pos)
      | Raises err => (e', Raises err)
      | Hangs => (e', Hangs)
      end
  | r => r
  end.

Definition sample_agent (e : MiniGridEnv Aux) : MiniGridEnv Aux * outcome (Z * Z) :=
  match place None (0, 0) (set_agent (Some (-1, -1)) (agent_dir e) e) with
  | (e', Returns pos) =>
      match draws (aux e') with
      | r :: rest =>
          (set_draws rest (set_agent (Some pos) (Some (r `mod` 4)) e'), Returns pos)
      | [] => (set_agent (Some pos) (agent_dir e') e', Hangs)
      end
  | r => r
  end.

(** The engine's step for the three movement actions; any other
    action value only counts as a step. *)
Definition move (action : Z) (e : MiniGridEnv Aux) :
    MiniGridEnv Aux * outcome (Z * bool * bool) :=
  let e := set_step_count (step_count e + 1) e in
  match front_pos e, agent_dir e with
  | Returns fwd_pos, Some d =>
      match grid_get (grid e) fwd_pos with
      | Returns fwd_cell =>
          let e' :=
            if action =? 0 then
              match fwd_cell with
              | None => set_agent (Some fwd_pos) (Some d) e
              | Some o => if can_overlap o then set_agent (Some fwd_pos) (Some d) e else e
              end
            else if action =? 1 then set_agent (agent_pos e) (Some ((d - 1) `mod` 4)) e
            else if action =? 2 then set_agent (agent_pos e) (Some ((d + 1) `mod` 4)) e
            else e in
          (e', Returns (0, false, bool_decide (max_steps (aux e) ≤ step_count e)))
      | Raises err => (e, Raises err)
      | Hangs => (e, Hangs)
      end
  | Raises err, _ => (e, Raises err)
  | _, _ => (e, Raises TypeError)
  end.

(** [gen seed] lists the draws of the generator seeded with [seed]; a
    negative seed is rejected. *)
Definition engine (gen : option Z → list Z) : Engine Aux := {|
  super_step := move;
  place_obj := λ obj, place (Some obj);
  place_agent := sample_agent;
  np_random := λ seed a,
    match seed with
    | Some n => if n <? 0 then Raises GymError else Returns (mkAux (max_steps a) (gen seed))
    | None => Returns (mkAux (max_steps a) (gen seed))
    end
|}.

End Engine0.

(** * Notions used in the statements *)

(** The number of occurrences of a name in the ledger. *)
Definition count (x : string) (l : list string) : nat := length (filter (x =.) l).

(** The inner loop as a plain fold. *)
Definition entity_index (o : WorldObj) : nat := default 0%nat (get_entity_index o).

Definition scan_pure (g : Grid) (p : Z * Z) (i : nat) (acc : closest) (c : Z * Z) : closest :=
  match cells g !! c with
  | None => acc
  | Some o =>
      if within_beam i (vsub c p) && dist_lt (norm2 (vsub c p)) acc
      then Some (norm2 (vsub c p), entity_index o) else acc
  end.

(** The row written for the result of the inner loop. *)
Definition row_of (g : Grid) (acc : closest) : list scalar :=
  match acc with
  | None => zeros
  | Some (n, k) => <[k := SqrtOver n (gwidth g)]> zeros
  end.



(** The angular window on a vector seen from the axis of its beam. *)
Definition beam0 (a b : Z) : Prop :=
  0 < a ∧ (Z.abs b + a) * (Z.abs b + a) ≤ 2 * a * a.


(** An object on the cell [c] that lies within beam [i] for an agent
    at [p]. *)
Definition qualifies (g : Grid) (p : Z * Z) (i : nat) (c : Z * Z) : bool :=
  bool_decide (is_Some (cells g !! c)) && within_beam i (vsub c p).

(** [c] is the first of the cells of [l] with a qualifying object at
    the least distance: the qualifying objects met before it are
    strictly farther, those met after it are not closer. *)
Definition first_nearest (g : Grid) (p : Z * Z) (i : nat) (l : list (Z * Z))
    (c : Z * Z) : Prop :=
  ∃ l1 l2, l = l1 ++ c :: l2 ∧ qualifies g p i c = true ∧
    (∀ c', c' ∈ l1 → qualifies g p i c' = true →
           norm2 (vsub c p) < norm2 (vsub c' p)) ∧
    (∀ c', c' ∈ l2 → qualifies g p i c' = true →
           norm2 (vsub c p) ≤ norm2 (vsub c' p)).

(** [c] is met before [c'] by the two nested loops of the scan
    ([x] outer, [y] inner). *)
Definition scans_before (c c' : Z * Z) : Prop :=
  c.1 < c'.1 ∨ (c.1 = c'.1 ∧ c.2 < c'.2).

(** [c] is met before [c'] by a row-major enumeration of the cells, the
    order in which the specification words the tie-break: row by row
    ([y] outer, [x] inner). *)
Definition row_major_before (c c' : Z * Z) : Prop :=
  c.2 < c'.2 ∨ (c.2 = c'.2 ∧ c.1 < c'.1).



(** *** The angular window over the reals

    The window that [within_beam] decides, with the angles the source
    computes. *)

(** The window in the frame of the beam. *)
Definition frame_window (A B : R) : Prop :=
  (0 < A ∧ Rabs B <= (sqrt 2 - 1) * A)%R.

(** [angles[i]] of [np.linspace(0, 2 * np.pi, 8, endpoint=False)]. *)
Definition beam_angle (i : nat) : R := (INR i * (2 * PI / 8))%R.

(** The angular window of beam [i] in polar form: the bearing of the
    vector differs from the beam's angle by at most [pi / 8]. *)
Definition in_window (i : nat) (v : Z * Z) : Prop :=
  ∃ r θ : R,
    (0 < r ∧ - (PI / 8) <= θ <= PI / 8 ∧
     IZR v.1 = r * cos (beam_angle i + θ) ∧ IZR v.2 = r * sin (beam_angle i + θ))%R.

(** [np.arctan2(y, x)]: the angle in [(-pi, pi]] of the vector [(x, y)],
    and [0] at the origin. *)
Definition arctan2 (y x : R) : R :=
  if Rlt_dec 0 x then atan (y / x)
  else if Rlt_dec x 0 then
    if Rle_dec 0 y then (atan (y / x) + PI)%R else (atan (y / x) - PI)%R
  else if Rlt_dec 0 y then (PI / 2)%R
  else if Rlt_dec y 0 then (- (PI / 2))%R
  else 0%R.

(** [a % m] on floats, for a positive [m]. *)
Definition pymod (a m : R) : R := (a - m * IZR (Int_part (a / m)))%R.

(** [angle_diff = (angle_to_obj - angle + np.pi) % (2 * np.pi) - np.pi] *)
Definition angle_diff (i : nat) (v : Z * Z) : R :=
  (pymod (arctan2 (IZR v.2) (IZR v.1) - beam_angle i + PI) (2 * PI) - PI)%R.

(** [abs(angle_diff) <= np.pi / 8] *)
Definition window_source (i : nat) (v : Z * Z) : Prop :=
  (Rabs (angle_diff i v) <= PI / 8)%R.

Section Notions.
Context {Aux : Type} {E : Engine Aux}.

(** What the agent faces: [self.grid.get( *self.front_pos)]. *)
Definition facing (s : SimpleEnv Aux) : outcome (option WorldObj) :=
  fwd_pos ← front_pos (base s); grid_get (grid (base s)) fwd_pos.

(** The state left by the four assignments of a successful craft. *)
Definition crafted (s : SimpleEnv Aux) : SimpleEnv Aux :=
  set_sword_crafted true
    (set_inventory
       (list_remove "Iron Ore" (list_remove "Tree" (inventory s)) ++ ["Iron Sword"]) s).

(** The state left by a first collection of [kind] at [pos]. *)
Definition collected_at (pos : Z * Z) (kind : ResourceKind) (s : SimpleEnv Aux) :
    SimpleEnv Aux :=
  with_base
    (set_grid (mkGrid (gwidth (grid (base s))) (gheight (grid (base s)))
                 (delete pos (cells (grid (base s))))))
    (set_inventory (inventory s ++ [resource_name kind])
       (set_collected (collected_resources_global s ∪ {[resource_name kind]}) s)).

(** The precondition of a successful craft. *)
Definition craftable (s : SimpleEnv Aux) : Prop :=
  facing s = Returns (Some (Box "blue")) ∧
  "Tree" ∈ inventory s ∧ "Iron Ore" ∈ inventory s ∧ sword_crafted s = false.


(** An attempt that the reward policy penalises: a craft at the
    crafting table without the materials or after the craft of the
    episode, or an opening of the chest without the sword. *)
Definition failed_attempt (action : Z) (s : SimpleEnv Aux) : Prop :=
  (action = Actions.craft_sword ∧ facing s = Returns (Some (Box "blue")) ∧
   ¬ ("Tree" ∈ inventory s ∧ "Iron Ore" ∈ inventory s ∧ sword_crafted s = false)) ∨
  (action = Actions.open_chest ∧ facing s = Returns (Some (Box "purple")) ∧
   "Iron Sword" ∉ inventory s).

(** The attributes the engine does not own. *)
Definition own (s : SimpleEnv Aux) :
    Z * Z * gset string * bool * list string :=
  (max_reward_episodes s, current_episode s, collected_resources_global s,
   sword_crafted s, inventory s).

(** A method that leaves these attributes alone. *)
Definition frames {A} (m : M Aux A) : Prop := ∀ s, own (m s).1 = own s.

(** The interior cells in the order of the comprehension of
    [_gen_grid]. *)
Definition interior (w h : Z) : list (Z * Z) :=
  x ← range 1 (w - 1); y ← range 1 (h - 1); [(x, y)].

(** A sequence of calls made by one process on the object; a call that
    raises leaves the object usable, one that hangs ends the run. *)
Inductive call := Reset (seed : option Z) | Step (action : Z).

Definition perform (c : call) (s : SimpleEnv Aux) : SimpleEnv Aux * bool :=
  match c with
  | Reset seed =>
      let '(s', o) := reset seed s in (s', negb (hangs o))
  | Step action =>
      let '(s', o) := step action s in (s', negb (hangs o))
  end.

Fixpoint run (cs : list call) (s : SimpleEnv Aux) : SimpleEnv Aux :=
  match cs with
  | [] => s
  | c :: cs' =>
      let '(s', alive) := perform c s in
      if alive then run cs' s' else s'
  end.

(** The invariant behind the inventory counts: a name of the kind
    enumeration is in the ledger at most once, and only if it is in
    the global record. *)
Definition gated (s : SimpleEnv Aux) : Prop :=
  (∀ x, x ∈ resource_names →
     (count x (inventory s) ≤ 1)%nat ∧
     (x ∈ inventory s → x ∈ collected_resources_global s)) ∧
  (sword_crafted s = false → "Iron Sword" ∉ inventory s).

End Notions.

(** ** A concrete run

    The object of [SimpleEnv()] (size 12, start cell (1, 1), direction 0,
    20 reward episodes) on the engine above, with a generator whose
    draws put the seven objects in the row [y = 1] at [x = 1 .. 7] and
    the agent below the tree, looking at it. *)

Module Demo.
Import Engine0.

Definition gen (seed : option Z) : list Z :=
  [0; 0; 0; 0; 0; 0; 0; 0; 0; 0; 0; 0; 0; 0; 5; 2; 3].

Definition E : Engine Aux := engine gen.

(** The engine's state after [super().__init__]. *)
Definition blank : MiniGridEnv Aux :=
  mkMiniGrid 12 12 (mkGrid 12 12 ∅) None None 0 (mkAux 576 []).

Definition fresh : SimpleEnv Aux := init blank (Some (1, 1)) 0 20.

Definition forward (n : nat) : list (call) := replicate n (Step Actions.move_forward).

(** First episode: reset; the agent faces the tree. *)
Definition to_tree : list call := [Reset None].

(** Collect the tree, walk to the iron ore and face it. *)
Definition to_ore : list call :=
  to_tree ++ [Step Actions.toggle; Step Actions.turn_left] ++ forward 4 ++
  [Step Actions.turn_right].

(** Collect the ore, walk to the crafting table and face it. *)
Definition to_table : list call :=
  to_ore ++ [Step Actions.toggle; Step Actions.turn_right] ++ forward 6 ++
  [Step Actions.turn_left].

(** Craft, step to the chest and face it. *)
Definition to_chest : list call :=
  to_table ++ [Step Actions.craft_sword; Step Actions.turn_left] ++ forward 1 ++
  [Step Actions.turn_right].

Definition at_tree : SimpleEnv Aux := run (E:=E) to_tree fresh.
Definition at_ore : SimpleEnv Aux := run (E:=E) to_ore fresh.
Definition at_table : SimpleEnv Aux := run (E:=E) to_table fresh.
Definition at_chest : SimpleEnv Aux := run (E:=E) to_chest fresh.

(** A new object whose preferred start cell (3, 3) will be empty. *)
Definition fresh33 : SimpleEnv Aux := init blank (Some (3, 3)) 0 20.

(** Its first reset. *)
Definition reset33 : SimpleEnv Aux * outcome Obs := reset (E:=E) None fresh33.

(** A walled 12 x 12 grid with a tree on (4, 5) and a chest on (5, 4):
    seen from (1, 1) both are in beam 1 at distance 5. *)
Definition tie_grid : Grid :=
  mkGrid 12 12
    (<[(4, 5) := Resource "green" Tree]>
       (<[(5, 4) := Box "purple"]>
          (foldr (λ c m, <[c := Wall]> m) ∅ (wall_ring 12 12)))).

(** The agent at the table after the craft. *)
Definition after_craft : SimpleEnv Aux :=
  run (E:=E) (to_table ++ [Step Actions.craft_sword]) fresh.

(** Second episode: the agent faces the tree again. *)
Definition at_tree_again : SimpleEnv Aux := run (E:=E) (to_chest ++ [Reset None]) fresh.

End Demo.

(** * Notions used in the further properties *)

(** The names a ledger holds: the five kinds [_gen_grid] creates, and
    the two items [step] makes. *)
Definition ledger_names : list string :=
  ["Iron Ore"; "Silver Ore"; "Platinum Ore"; "Gold Ore"; "Tree"; "Iron Sword";
   "Treasure"].

(** The sword and the treasure in the ledger of a state the program
    reaches. *)
Definition tidy {Aux} (s : SimpleEnv Aux) : Prop :=
  (sword_crafted s = true → "Iron Sword" ∈ inventory s) ∧
  (count "Iron Sword" (inventory s) ≤ 1)%nat ∧
  ("Treasure" ∈ inventory s → "Iron Sword" ∈ inventory s) ∧
  (∀ x, x ∈ inventory s → x ∈ ledger_names).

(** The tree of the process is used up: recorded, and no longer held. *)
Definition spent {Aux} (s : SimpleEnv Aux) : Prop :=
  ("Tree" ∈ collected_resources_global s) ∧ ("Tree" ∉ inventory s).

Definition is_reset (c : call) : bool :=
  match c with
  | Reset _ => true
  | Step _ => false
  end.

(** The number of [reset] calls in a sequence of calls. *)
Definition resets (cs : list call) : nat :=
  length (filter (λ c, is_reset c = true) cs).

(** * Rendering and manual control

    [render] and [CustomManualControl] drive the engine's window.  The
    engine's [render] and [close] are an interface, as its other
    methods are; the events of [pygame.event.get()] are an input: the
    results of the successive calls.  What is printed on the console is
    not modelled. *)

(** [super_render] is [MiniGridEnv.render], which hands back a frame
    or nothing, and [close] is the [close] the environment inherits. *)
Class Display (Aux : Type) := {
  Frame : Type;
  super_render : MiniGridEnv Aux → MiniGridEnv Aux * outcome Frame;
  close : MiniGridEnv Aux → MiniGridEnv Aux * outcome unit
}.

(** A pygame event: [QUIT], [KEYDOWN] with the name of its key
    ([pygame.key.name(int(event.key))]), or any other event. *)
Inductive event := Quit | KeyDown (key : string) | OtherEvent.

Section ManualControl.
Context {Aux : Type} {E : Engine Aux} {D : Display Aux}.

(** *** SimpleEnv.render *)
Definition render : M Aux Frame :=
  result ← super super_render;
  mret result.

(** *** CustomManualControl *)
Record CustomManualControl := mkControl {
  env : SimpleEnv Aux;
  seed : option Z;
  closed : bool
}.

(** [CustomManualControl(env, seed)] *)
Definition control_init (env : SimpleEnv Aux) (seed : option Z) : CustomManualControl :=
  mkControl env seed false.

Definition C (A : Type) : Type := CustomManualControl → CustomManualControl * outcome A.

Global Instance C_ret : MRet C := λ A a c, (c, Returns a).

Global Instance C_bind : MBind C := λ A B k m c,
  match m c with
  | (c', Returns a) => k a c'
  | (c', Raises e) => (c', Raises e)
  | (c', Hangs) => (c', Hangs)
  end.

(** A method call on [self.env]. *)
Definition on_env {A} (m : M Aux A) : C A := λ c,
  let '(s, o) := m (env c) in (mkControl s (seed c) (closed c), o).

(** An expression that reads [self.seed]. *)
Definition with_seed {A} (k : option Z → C A) : C A := λ c, k (seed c) c.

(** A method of the control that leaves [seed] and [closed] alone. *)
Definition keeps_flags {A} (m : C A) : Prop :=
  ∀ c, seed (m c).1 = seed c ∧ closed (m c).1 = closed c.

(** [self.reset(seed)] *)
Definition control_reset (seed : option Z) : C unit :=
  on_env (reset seed);;
  on_env render;;
  mret ().

(** [self.step(action)] *)
Definition control_step (action : Z) : C unit :=
  '(_, reward, terminated, truncated) ← on_env (step action);
  if terminated : bool then with_seed control_reset
  else if truncated : bool then with_seed control_reset
  else on_env render;; mret ().

Definition key_to_action : gmap string Z :=
  list_to_map
    [("left", Actions.turn_left); ("right", Actions.turn_right);
     ("up", Actions.move_forward); ("space", Actions.toggle);
     ("c", Actions.craft_sword); ("o", Actions.open_chest)].

(** [self.key_handler(event)], on the name of the key. *)
Definition key_handler (key : string) : C unit :=
  if bool_decide (key = "escape") then on_env (super close);; mret ()
  else if bool_decide (key = "backspace") then control_reset None
  else
    match key_to_action !! key with
    | Some action => control_step action
    | None => mret ()
    end.

(** The [for] loop over one batch of events; [break] leaves it. *)
Fixpoint handle_events (batch : list event) : C unit :=
  match batch with
  | [] => mret ()
  | Quit :: _ => on_env (super close);; mret ()
  | KeyDown key :: rest => key_handler key;; handle_events rest
  | OtherEvent :: rest => handle_events rest
  end.

(** The result of a call the control does not make on [self.env]. *)
Definition lift {A} (o : outcome A) : C A := λ c, (c, o).

(** The [while] loop of [start] on the results of the successive calls
    of [pygame.event.get()], each a batch of events or an exception of
    pygame; when they are used up the loop is still running. *)
Fixpoint event_loop (polls : list (outcome (list event))) : C unit :=
  match polls with
  | [] => λ c, if closed c then (c, Returns ()) else (c, Hangs)
  | poll :: rest => λ c,
      if closed c then (c, Returns ())
      else (batch ← lift poll; handle_events batch;; event_loop rest) c
  end.

(** [self.start()] *)
Definition start (polls : list (outcome (list event))) : C unit :=
  with_seed control_reset;;
  event_loop polls.

End ManualControl.
Arguments CustomManualControl : clear implicits.
Arguments C : clear implicits.

(** ** Further concrete cases *)

Module Cases.
Import Engine0.

(** Modelled from the spec: the engine's render hook (section 6), here
    a display that shows nothing. *)
Definition display : Display Aux := {|
  Frame := unit;
  super_render := λ e, (e, Returns ());
  close := λ e, (e, Returns ())
|}.

(** The new object of [Demo] with the generator of its first reset. *)
Definition seeded : SimpleEnv Aux := with_base (set_draws (Demo.gen None)) Demo.fresh.

(** The agent in front of the tree, with the cell of the iron ore as
    its configured start. *)
Definition blocked : SimpleEnv Aux := set_agent_start_pos (Some (1, 1)) Demo.at_tree.

(** The value a call returned. *)
Definition returned {A} (d : A) (o : outcome A) : A :=
  match o with
  | Returns a => a
  | _ => d
  end.

(** The manual control of the object of [Demo] in front of the chest,
    with the sword. *)
Definition control_at_chest : CustomManualControl Aux :=
  control_init Demo.at_chest (Some 42).

End Cases.
(** * Properties *)

(** ** Lists of names *)


Lemma count_nil x : count x [] = 0%nat.
Proof. reflexivity. Qed.

Lemma count_cons x y l :
  count x (y :: l) = ((if decide (x = y) then 1 else 0) + count x l)%nat.
Proof. unfold count. rewrite filter_cons. destruct (decide (x = y)); reflexivity. Qed.

Lemma count_app x l k : count x (l ++ k) = (count x l + count x k)%nat.
Proof. unfold count. by rewrite filter_app, length_app. Qed.

Lemma count_pos x l : x ∈ l ↔ (0 < count x l)%nat.
Proof.
  induction l as [|y l IH]; [rewrite count_nil; split; [by intros ?%elem_of_nil | lia]|].
  rewrite count_cons, elem_of_cons, IH. destruct (decide (x = y)); [|intuition lia].
  split; [lia | by left].
Qed.

Lemma count_remove_eq x l : count x (list_remove x l) = (count x l - 1)%nat.
Proof.
  induction l as [|y l IH]; [reflexivity|]. simpl.
  destruct (decide (x = y)) as [->|Hne].
  - rewrite count_cons. rewrite decide_True by done. lia.
  - rewrite !count_cons. rewrite !decide_False by done. lia.
Qed.

Lemma count_remove_ne x y l : x ≠ y → count x (list_remove y l) = count x l.
Proof.
  intros Hne. induction l as [|z l IH]; [reflexivity|]. simpl.
  destruct (decide (y = z)) as [->|Hyz].
  - rewrite count_cons. by rewrite decide_False.
  - rewrite !count_cons. by rewrite IH.
Qed.


Lemma list_index_lookup x l j : list_index x l = Some j → l !! j = Some x.
Proof.
  revert j. induction l as [|y l IH]; intros j; [done|]. simpl.
  destruct (decide (x = y)) as [->|Hne]; [by intros [= <-]|].
  destruct (list_index x l) as [i|]; [|done]. intros [= <-]. by apply IH.
Qed.

Lemma list_index_elem x l : x ∈ l → is_Some (list_index x l).
Proof.
  induction l as [|y l IH]; [by intros ?%elem_of_nil|]. simpl.
  destruct (decide (x = y)); [by eexists|].
  intros [?|Hin]%elem_of_cons; [done|]. destruct (IH Hin) as [i ->]. by eexists.
Qed.

Lemma resource_names_NoDup : NoDup resource_names.
Proof. apply (bool_decide_unpack _). by vm_compute. Qed.

Lemma resource_name_known k : resource_name k ∈ resource_names.
Proof. destruct k; apply (bool_decide_unpack _); by vm_compute. Qed.

Lemma get_entity_index_total o : ∃ k, get_entity_index o = Some k ∧ (k < 8)%nat.
Proof.
  destruct o as [| |c k|c]; simpl;
    [eexists; split; [reflexivity|lia] ..| |].
  - destruct k; eexists; (split; [reflexivity|lia]).
  - destruct (decide (c = "purple")); eexists; (split; [reflexivity|lia]).
Qed.

(** ** The sensor never fails once the agent has a position *)

Lemma elem_of_scan_cells g c : c ∈ scan_cells g ↔ in_grid g c = true.
Proof.
  unfold scan_cells, in_grid, range. destruct c as [x y]. simpl.
  rewrite list_elem_of_bind. setoid_rewrite list_elem_of_bind.
  setoid_rewrite elem_of_seqZ. setoid_rewrite list_elem_of_singleton.
  rewrite !andb_true_iff, !Z.leb_le, !Z.ltb_lt. split.
  - intros (x' & (y' & [= -> ->] & ?) & ?). lia.
  - intros ?. exists x. split; [exists y; split; [done|lia] | lia].
Qed.



Lemma StronglySorted_seqZ m n : StronglySorted Z.lt (seqZ m n).
Proof.
  destruct (Z.le_gt_cases n 0) as [Hn|Hn]; [rewrite seqZ_nil by done; constructor|].
  rewrite <-(Z2Nat.id n) by lia. generalize (Z.to_nat n). clear n Hn.
  intros k. induction k as [|k IH]; [constructor|].
  rewrite seqZ_S. apply StronglySorted_app. split; [|split; [done|repeat constructor]].
  intros x y Hx ->%list_elem_of_singleton. apply elem_of_seqZ in Hx. lia.
Qed.

Lemma scan_cells_sorted g : StronglySorted scans_before (scan_cells g).
Proof.
  unfold scan_cells, range.
  generalize (StronglySorted_seqZ 0 (gheight g - 0)).
  generalize (StronglySorted_seqZ 0 (gwidth g - 0)).
  generalize (seqZ 0 (gheight g - 0)) as ys. generalize (seqZ 0 (gwidth g - 0)) as xs.
  intros xs ys Hxs Hys. induction Hxs as [|x xs Hxs IH Hx]; [constructor|].
  rewrite bind_cons. apply StronglySorted_app. split; [|split; [|done]].
  - intros c1 c2 (y1 & ->%list_elem_of_singleton & _)%list_elem_of_bind
      (x2 & (y2 & ->%list_elem_of_singleton & _)%list_elem_of_bind & Hx2)%list_elem_of_bind.
    left. simpl. by apply (proj1 (Forall_forall _ _) Hx).
  - clear IH Hx Hxs. induction Hys as [|y ys Hys IH Hy]; [constructor|].
    rewrite bind_cons. apply StronglySorted_cons. split; [|done].
    apply Forall_forall. intros c (y2 & ->%list_elem_of_singleton & Hy2)%list_elem_of_bind.
    right. simpl. split; [done|]. by apply (proj1 (Forall_forall _ _) Hy).
Qed.

Lemma scan_cell_pure g p i acc c :
  in_grid g c = true → scan_cell g (Some p) i acc c = Returns (scan_pure g p i acc c).
Proof.
  intros Hin. unfold scan_cell, scan_pure, grid_get, entity_index. rewrite Hin. simpl.
  destruct (cells g !! c) as [o|]; [|done].
  destruct (within_beam _ _ && dist_lt _ _); [|done].
  by destruct (get_entity_index_total o) as (k & -> & _).
Qed.

Lemma foldM_scan_pure g p i l acc :
  (∀ c, c ∈ l → in_grid g c = true) →
  foldM (scan_cell g (Some p) i) acc l = Returns (foldl (scan_pure g p i) acc l).
Proof.
  revert acc. induction l as [|c l IH]; intros acc Hl; [done|]. simpl.
  rewrite scan_cell_pure by (apply Hl; by left). simpl.
  apply IH. intros c' ?. apply Hl. by right.
Qed.


Lemma lidar_row_pure g p i :
  lidar_row g (Some p) i = Returns (row_of g (foldl (scan_pure g p i) None (scan_cells g))).
Proof.
  unfold lidar_row. rewrite foldM_scan_pure; [done|].
  intros c. by rewrite elem_of_scan_cells.
Qed.

Lemma mapM_returns {A B} (f : A → outcome B) (h : A → B) l :
  (∀ x, x ∈ l → f x = Returns (h x)) → mapM f l = Returns (h <$> l).
Proof.
  intros Hf. induction l as [|x l IH]; [done|]. cbn [mapM].
  rewrite Hf by (by left). cbn [mbind outcome_bind].
  rewrite IH; [done|]. intros y ?. apply Hf. by right.
Qed.

Lemma get_lidar_observation_pure g p :
  get_lidar_observation g (Some p) =
  Returns ((λ i, row_of g (foldl (scan_pure g p i) None (scan_cells g))) <$> seq 0 8).
Proof.
  unfold get_lidar_observation. apply mapM_returns. intros i _. apply lidar_row_pure.
Qed.

Lemma get_obs_returns {Aux} (s : SimpleEnv Aux) p :
  agent_pos (base s) = Some p → ∃ obs, get_obs s = Returns obs.
Proof.
  intros Hp. unfold get_obs. rewrite Hp, get_lidar_observation_pure. by eexists.
Qed.

(** ** The monad of methods *)

Section Frames.
Context {Aux : Type} `{!Engine Aux}.

Lemma frames_ret {A} (a : A) : frames (mret a : M Aux A).
Proof. by intros s. Qed.

Lemma frames_raise {A} e : frames (raise e : M Aux A).
Proof. by intros s. Qed.

Lemma frames_eval {A} (f : SimpleEnv Aux → outcome A) : frames (eval f).
Proof. by intros s. Qed.

Lemma frames_assign (f : SimpleEnv Aux → SimpleEnv Aux) :
  (∀ s, own (f s) = own s) → frames (assign f).
Proof. intros Hf s. apply Hf. Qed.

Lemma frames_with_base (f : MiniGridEnv Aux → MiniGridEnv Aux) :
  frames (assign (with_base f)).
Proof. by intros s. Qed.

Lemma frames_super {A} (f : MiniGridEnv Aux → MiniGridEnv Aux * outcome A) :
  frames (super f).
Proof. intros s. unfold super. by destruct (f (base s)). Qed.

Lemma frames_bind {A B} (m : M Aux A) (k : A → M Aux B) :
  frames m → (∀ a, frames (k a)) → frames (m ≫= k).
Proof.
  intros Hm Hk s. unfold mbind, M_bind. specialize (Hm s).
  destruct (m s) as [s' [a| |]]; simpl in *; [|done..].
  by rewrite Hk.
Qed.

Lemma frames_return_obs r t tr : frames (return_obs (Aux:=Aux) r t tr).
Proof. apply frames_bind; [apply frames_eval|]. intros obs. apply frames_ret. Qed.

Lemma frames_fall_through a r : frames (fall_through a r).
Proof.
  apply frames_bind; [apply frames_super|]. intros [[? ?] ?]. apply frames_return_obs.
Qed.

Lemma frames_place_start w h : frames (place_start w h).
Proof.
  unfold place_start. apply frames_bind; [apply frames_eval | intros [p|]].
  - apply frames_bind; [apply frames_eval | intros cell].
    apply frames_bind; [|intros ?; by apply frames_assign].
    destruct cell as [o|]; [|apply frames_ret].
    destruct (negb (can_overlap o)); [|apply frames_ret].
    apply frames_bind; [apply frames_eval | intros [|q l]];
      [apply frames_raise | by apply frames_assign].
  - apply frames_bind; [apply frames_super | intros ?; apply frames_ret].
Qed.

Lemma frames_gen_grid w h : frames (_gen_grid w h).
Proof.
  unfold _gen_grid.
  do 9 (apply frames_bind;
          [first [apply frames_eval | apply frames_with_base | apply frames_super]
          | intros ?]).
  apply frames_place_start.
Qed.

End Frames.

(** ** The branches of step *)

Section Step.
Context {Aux : Type} `{!Engine Aux}.
Implicit Types s : SimpleEnv Aux.

Lemma facing_inv s cell :
  facing s = Returns cell →
  ∃ pos p, front_pos (base s) = Returns pos ∧
           grid_get (grid (base s)) pos = Returns cell ∧
           agent_pos (base s) = Some p.
Proof.
  unfold facing. destruct (front_pos (base s)) as [pos| |] eqn:Hpos; [|done..].
  simpl. intros Hcell. unfold front_pos in Hpos.
  destruct (agent_dir (base s)) as [d|]; [|done].
  destruct ((0 <=? d) && (d <? 4)); [|done].
  destruct (agent_pos (base s)) as [p|]; [|done]. by exists pos, p.
Qed.

Lemma facing_not_hangs s : facing s ≠ Hangs.
Proof.
  unfold facing, front_pos, grid_get.
  destruct (agent_dir (base s)) as [d|]; [|done].
  destruct ((0 <=? d) && (d <? 4)); [|done].
  destruct (agent_pos (base s)) as [p|]; [|done]. simpl.
  by destruct (in_grid _ _).
Qed.

Lemma fwd_returns s pos cell :
  front_pos (base s) = Returns pos → grid_get (grid (base s)) pos = Returns cell →
  fwd s = (s, Returns (pos, cell)).
Proof. intros Hpos Hcell. unfold fwd, mbind, M_bind, eval. by rewrite Hpos, Hcell. Qed.

Lemma fwd_raises s e : facing s = Raises e → fwd s = (s, Raises e).
Proof.
  unfold facing, fwd, mbind, M_bind, eval.
  destruct (front_pos (base s)) as [pos| |]; simpl; [|congruence..].
  by intros ->.
Qed.

Lemma return_obs_returns s p r t tr :
  agent_pos (base s) = Some p →
  ∃ obs, return_obs r t tr s = (s, Returns (obs, r, t, tr)).
Proof.
  intros Hp. destruct (get_obs_returns s p Hp) as [obs Hobs].
  exists obs. unfold return_obs, mbind, M_bind, eval. by rewrite Hobs.
Qed.

Lemma step_craft_at_table s :
  facing s = Returns (Some (Box "blue")) →
  step Actions.craft_sword s =
  if bool_decide ("Tree" ∈ inventory s) && bool_decide ("Iron Ore" ∈ inventory s)
     && negb (sword_crafted s)
  then return_obs (if current_episode s <? max_reward_episodes s then -1 + 50 else -1)
         false false (crafted s)
  else return_obs (-2) false false s.
Proof.
  intros (pos & p & Hpos & Hcell & _)%facing_inv.
  unfold step. simpl. unfold mbind at 1, M_bind at 1.
  rewrite (fwd_returns _ _ _ Hpos Hcell). simpl.
  unfold mbind at 1, M_bind at 1, eval at 1.
  by destruct (_ && _ && _).
Qed.

Lemma step_craft_elsewhere s cell :
  facing s = Returns cell → is_box_of "blue" cell = false →
  step Actions.craft_sword s = fall_through Actions.craft_sword (-1) s.
Proof.
  intros (pos & p & Hpos & Hcell & _)%facing_inv Hbox.
  unfold step. simpl. unfold mbind at 1, M_bind at 1.
  rewrite (fwd_returns _ _ _ Hpos Hcell). by rewrite Hbox.
Qed.

Lemma step_craft_raises s e :
  facing s = Raises e → step Actions.craft_sword s = (s, Raises e).
Proof.
  intros Hf. unfold step. simpl. unfold mbind at 1, M_bind at 1.
  by rewrite (fwd_raises _ _ Hf).
Qed.

Lemma step_open_at_chest s :
  facing s = Returns (Some (Box "purple")) →
  step Actions.open_chest s =
  if bool_decide ("Iron Sword" ∈ inventory s)
  then return_obs (-1 + 1000) true false (set_inventory (inventory s ++ ["Treasure"]) s)
  else return_obs (-2) false false s.
Proof.
  intros (pos & p & Hpos & Hcell & _)%facing_inv.
  unfold step. simpl. unfold mbind at 1, M_bind at 1.
  rewrite (fwd_returns _ _ _ Hpos Hcell). simpl.
  unfold mbind at 1, M_bind at 1, eval at 1.
  by destruct (bool_decide _).
Qed.

Lemma step_open_elsewhere s cell :
  facing s = Returns cell → is_box_of "purple" cell = false →
  step Actions.open_chest s = fall_through Actions.open_chest (-1) s.
Proof.
  intros (pos & p & Hpos & Hcell & _)%facing_inv Hbox.
  unfold step. simpl. unfold mbind at 1, M_bind at 1.
  rewrite (fwd_returns _ _ _ Hpos Hcell). by rewrite Hbox.
Qed.

Lemma step_open_raises s e :
  facing s = Raises e → step Actions.open_chest s = (s, Raises e).
Proof.
  intros Hf. unfold step. simpl. unfold mbind at 1, M_bind at 1.
  by rewrite (fwd_raises _ _ Hf).
Qed.

Lemma step_toggle_at_resource s pos color kind :
  front_pos (base s) = Returns pos →
  grid_get (grid (base s)) pos = Returns (Some (Resource color kind)) →
  step Actions.toggle s =
  if bool_decide (resource_name kind ∉ collected_resources_global s)
  then return_obs (-1 + 1) false false (collected_at pos kind s)
  else return_obs (-2) false false s.
Proof.
  intros Hpos Hcell.
  unfold step. simpl. unfold mbind at 1, M_bind at 1.
  rewrite (fwd_returns _ _ _ Hpos Hcell). simpl.
  unfold mbind at 1, M_bind at 1, eval at 1.
  destruct (bool_decide _); [|done].
  unfold mbind, M_bind, assign, eval. simpl.
  unfold grid_get in Hcell. unfold grid_set.
  destruct (in_grid (grid (base s)) pos); [|done]. reflexivity.
Qed.

Lemma step_toggle_elsewhere s cell :
  facing s = Returns cell → (∀ color kind, cell ≠ Some (Resource color kind)) →
  step Actions.toggle s = fall_through Actions.toggle (-1) s.
Proof.
  intros (pos & p & Hpos & Hcell & _)%facing_inv Hres.
  unfold step. simpl. unfold mbind at 1, M_bind at 1.
  rewrite (fwd_returns _ _ _ Hpos Hcell).
  destruct cell as [[| |color kind|color]|]; try done. by destruct (Hres color kind).
Qed.

Lemma step_toggle_raises s e :
  facing s = Raises e → step Actions.toggle s = (s, Raises e).
Proof.
  intros Hf. unfold step. simpl. unfold mbind at 1, M_bind at 1.
  by rewrite (fwd_raises _ _ Hf).
Qed.

Lemma step_other action s :
  action ≠ Actions.craft_sword → action ≠ Actions.open_chest →
  action ≠ Actions.toggle →
  step action s = fall_through action (-1) s.
Proof.
  intros H4 H5 H3. unfold step.
  unfold Actions.craft_sword, Actions.open_chest, Actions.toggle in *.
  apply Z.eqb_neq in H4, H5, H3. by rewrite H4, H5, H3.
Qed.

End Step.

(** ** Crafting, opening, collecting *)

Section StepClaims.
Context {Aux : Type} {E : Engine Aux}.
Implicit Types s : SimpleEnv Aux.

Lemma return_obs_state s r t tr : (return_obs r t tr s).1 = s.
Proof. unfold return_obs, mbind, M_bind, eval. by destruct (get_obs s). Qed.

Lemma is_box_of_true c cell : is_box_of c cell = true ↔ cell = Some (Box c).
Proof.
  destruct cell as [[| |? ?|c']|]; simpl; try (split; [done|congruence]).
  rewrite bool_decide_eq_true. split; [by intros ->|congruence].
Qed.




(** C2. When the agent faces the chest, an OpenChest step returns,
    and it returns terminated = true if and only if "Iron Sword" is in
    the ledger at that time; in that case "Treasure" is appended to
    the ledger and the reward of the step is 999 = -1 + 1000. *)
Theorem open_chest_spec s :
  facing s = Returns (Some (Box "purple")) →
  ∃ obs reward terminated truncated,
    (step Actions.open_chest s).2 = Returns (obs, reward, terminated, truncated) ∧
    (terminated = true ↔ "Iron Sword" ∈ inventory s) ∧
    (terminated = true →
       inventory (step Actions.open_chest s).1 = (inventory s ++ ["Treasure"])%list ∧
       reward = 999).
Proof.
  intros Hf. rewrite step_open_at_chest by done.
  destruct (facing_inv s _ Hf) as (pos & p & _ & _ & Hp).
  destruct (decide ("Iron Sword" ∈ inventory s)) as [Hin|Hin].
  - rewrite bool_decide_true by done.
    destruct (return_obs_returns (set_inventory (inventory s ++ ["Treasure"]) s) p
                (-1 + 1000) true false Hp) as [obs ->].
    exists obs, 999, true, false. by repeat split.
  - rewrite bool_decide_false by done.
    destruct (return_obs_returns s p (-2) false false Hp) as [obs ->].
    exists obs, (-2), false, false. by repeat split.
Qed.

Lemma failed_attempt_returns action s :
  failed_attempt action s →
  ∃ obs, step action s = (s, Returns (obs, -2, false, false)).
Proof.
  intros [(-> & Hf & Hpre) | (-> & Hf & Hno)];
    destruct (facing_inv s _ Hf) as (pos & p & _ & _ & Hp);
    destruct (return_obs_returns s p (-2) false false Hp) as [obs Hobs];
    exists obs.
  - rewrite step_craft_at_table by done.
    destruct (bool_decide _ && bool_decide _ && negb _) eqn:Hc; [|done].
    destruct Hpre. apply andb_true_iff in Hc as [[Ht Ho]%andb_true_iff Hs].
    apply bool_decide_eq_true in Ht, Ho. by apply negb_true_iff in Hs.
  - rewrite step_open_at_chest by done. by rewrite bool_decide_false.
Qed.

(** C9. A craft at the crafting table whose preconditions fail, and an
    opening of the chest without "Iron Sword" in the ledger, return
    normally with reward -2 and terminated = false, and leave the whole
    state (ledger, grid, flag, global record) as it was. *)
Theorem failed_attempt_spec action s :
  failed_attempt action s →
  ∃ obs,
    (step action s).2 = Returns (obs, -1 + -1, false, false) ∧
    (step action s).1 = s ∧
    inventory (step action s).1 = inventory s ∧
    grid (base (step action s).1) = grid (base s) ∧
    sword_crafted (step action s).1 = sword_crafted s ∧
    collected_resources_global (step action s).1 = collected_resources_global s.
Proof.
  intros Hfail. destruct (failed_attempt_returns action s Hfail) as [obs ->].
  by exists obs.
Qed.

End StepClaims.

(** ** The concrete run *)

Section DemoFacts.
Import Demo.

Lemma at_table_facts :
  facing at_table = Returns (Some (Box "blue")) ∧
  inventory at_table = ["Tree"; "Iron Ore"] ∧ sword_crafted at_table = false.
Proof. by vm_compute. Qed.

Lemma at_chest_facts :
  facing at_chest = Returns (Some (Box "purple")) ∧
  inventory at_chest = ["Iron Sword"] ∧ sword_crafted at_chest = true.
Proof. by vm_compute. Qed.

Lemma after_craft_facts :
  facing after_craft = Returns (Some (Box "blue")) ∧
  inventory after_craft = ["Iron Sword"] ∧ sword_crafted after_craft = true.
Proof. by vm_compute. Qed.

End DemoFacts.

Lemma open_chest_witness :
  facing Demo.at_chest = Returns (Some (Box "purple")) ∧
  ∃ obs reward terminated truncated,
    (step (E:=Demo.E) Actions.open_chest Demo.at_chest).2 =
      Returns (obs, reward, terminated, truncated) ∧
    (terminated = true ↔ "Iron Sword" ∈ inventory Demo.at_chest) ∧
    (terminated = true →
       inventory (step (E:=Demo.E) Actions.open_chest Demo.at_chest).1 =
         (inventory Demo.at_chest ++ ["Treasure"])%list ∧
       reward = 999).
Proof.
  assert (facing Demo.at_chest = Returns (Some (Box "purple"))) as Hf by (by vm_compute).
  split; [exact Hf|]. exact (open_chest_spec (E:=Demo.E) Demo.at_chest Hf).
Defined.

Lemma failed_attempt_witness :
  failed_attempt Actions.craft_sword Demo.after_craft ∧
  ∃ obs, (step (E:=Demo.E) Actions.craft_sword Demo.after_craft).2 =
         Returns (obs, -1 + -1, false, false).
Proof.
  assert (failed_attempt Actions.craft_sword Demo.after_craft) as Hfail.
  { left. split; [reflexivity|]. split; [by vm_compute|].
    intros (_ & _ & Hs). vm_compute in Hs. discriminate Hs. }
  split; [exact Hfail|].
  destruct (failed_attempt_spec (E:=Demo.E) Actions.craft_sword Demo.after_craft Hfail)
    as (obs & Hret & _).
  exists obs. exact Hret.
Defined.

(** ** What a call does to the attributes the engine does not own *)

Section Effects.
Context {Aux : Type} {E : Engine Aux}.
Implicit Types s : SimpleEnv Aux.

(** A step leaves the ledger, the flag, the record and the episode
    index alone, or crafts, or opens the chest, or collects a kind for
    the first time. *)
Lemma step_effect action s :
  let s' := (step action s).1 in
  own s' = own s ∨
  (craftable s ∧ own s' = own (crafted s)) ∨
  ("Iron Sword" ∈ inventory s ∧
   own s' = own (set_inventory (inventory s ++ ["Treasure"]) s)) ∨
  (∃ pos kind, (resource_name kind ∉ collected_resources_global s) ∧
               own s' = own (collected_at pos kind s)).
Proof.
  simpl.
  destruct (decide (action = Actions.craft_sword)) as [->|H4];
    [|destruct (decide (action = Actions.open_chest)) as [->|H5];
      [|destruct (decide (action = Actions.toggle)) as [->|H3]]].
  - destruct (facing s) as [cell|e|] eqn:Hf; [| |by destruct (facing_not_hangs s)].
    + destruct (is_box_of "blue" cell) eqn:Hbox.
      * apply is_box_of_true in Hbox as ->. rewrite step_craft_at_table by done.
        destruct (bool_decide _ && bool_decide _ && negb _) eqn:Hc;
          rewrite return_obs_state; [|by left].
        right; left. split; [|done].
        apply andb_true_iff in Hc as [[Ht Ho]%andb_true_iff Hs].
        apply bool_decide_eq_true in Ht, Ho. apply negb_true_iff in Hs. done.
      * rewrite (step_craft_elsewhere s cell) by done. left. apply frames_fall_through.
    + rewrite (step_craft_raises s e) by done. by left.
  - destruct (facing s) as [cell|e|] eqn:Hf; [| |by destruct (facing_not_hangs s)].
    + destruct (is_box_of "purple" cell) eqn:Hbox.
      * apply is_box_of_true in Hbox as ->. rewrite step_open_at_chest by done.
        destruct (bool_decide _) eqn:Hc; rewrite return_obs_state; [|by left].
        right; right; left. by apply bool_decide_eq_true in Hc.
      * rewrite (step_open_elsewhere s cell) by done. left. apply frames_fall_through.
    + rewrite (step_open_raises s e) by done. by left.
  - destruct (facing s) as [cell|e|] eqn:Hf; [| |by destruct (facing_not_hangs s)].
    + destruct (facing_inv s _ Hf) as (pos & p & Hpos & Hcell & _).
      assert ((∃ color kind, cell = Some (Resource color kind)) ∨
              (∀ color kind, cell ≠ Some (Resource color kind)))
        as [(color & kind & ->)|Hno].
      { destruct cell as [[| |color kind|color]|]; eauto. }
      * rewrite (step_toggle_at_resource s pos color kind) by done.
        destruct (bool_decide _) eqn:Hc; rewrite return_obs_state; [|by left].
        right; right; right. exists pos, kind. by apply bool_decide_eq_true in Hc.
      * rewrite (step_toggle_elsewhere s cell) by done.
        left. apply frames_fall_through.
    + rewrite (step_toggle_raises s e) by done. by left.
  - rewrite step_other by done. left. apply frames_fall_through.
Qed.

Lemma reset_own seed s :
  own (reset seed s).1 =
  match np_random seed (aux (base s)) with
  | Returns _ =>
      (max_reward_episodes s, current_episode s + 1, collected_resources_global s,
       false, [])
  | _ => own s
  end.
Proof.
  unfold reset. unfold mbind at 1, M_bind at 1, eval at 1.
  destruct (np_random seed (aux (base s))) as [rng| |]; [|done..].
  unfold mbind at 1 2 3 4, M_bind at 1 2 3 4, assign at 1 2 3 4. simpl.
  match goal with
  | |- own (?m ?s0).1 = _ =>
      assert (frames m) as Hfr; [|rewrite (Hfr s0); reflexivity]
  end.
  apply frames_bind; [apply frames_eval | intros s1].
  apply frames_bind; [apply frames_gen_grid | intros _].
  apply frames_bind; [apply frames_super | intros _].
  apply frames_bind; [apply frames_with_base | intros _].
  apply frames_eval.
Qed.

End Effects.

(** ** Invariants of a run *)

Section Invariants.
Context {Aux : Type} {E : Engine Aux}.
Implicit Types s : SimpleEnv Aux.

Lemma count_remove_le x y l : (count x (list_remove y l) ≤ count x l)%nat.
Proof.
  destruct (decide (x = y)) as [->|Hne];
    [rewrite count_remove_eq; lia | by rewrite count_remove_ne].
Qed.

Lemma count_single_ne x y : x ≠ y → count x [y] = 0%nat.
Proof. intros Hne. rewrite count_cons. by rewrite decide_False. Qed.

Lemma sword_not_resource : "Iron Sword" ∉ resource_names.
Proof. apply (bool_decide_unpack _). by vm_compute. Qed.

Lemma treasure_not_resource : "Treasure" ∉ resource_names.
Proof. apply (bool_decide_unpack _). by vm_compute. Qed.

(** *** The global record *)

Lemma step_record_mono action s :
  collected_resources_global s ⊆ collected_resources_global (step action s).1.
Proof.
  destruct (step_effect action s) as [Hown|[[_ Hown]|[[_ Hown]|(pos & kind & _ & Hown)]]];
    unfold own in Hown; injection Hown as _ _ -> _ _; simpl; set_solver.
Qed.

Lemma reset_record_same seed s :
  collected_resources_global (reset seed s).1 = collected_resources_global s.
Proof.
  pose proof (reset_own seed s) as Hown. unfold own in Hown.
  destruct (np_random seed (aux (base s))); by injection Hown.
Qed.

Lemma perform_record_mono c s :
  collected_resources_global s ⊆ collected_resources_global (perform c s).1.
Proof.
  destruct c as [seed|action]; simpl.
  - pose proof (reset_record_same seed s) as Heq.
    destruct (reset seed s) as [s' o]. simpl in *. by rewrite Heq.
  - pose proof (step_record_mono action s) as Hsub.
    by destruct (step action s) as [s' o].
Qed.

Lemma run_record_mono cs s :
  collected_resources_global s ⊆ collected_resources_global (run cs s).
Proof.
  revert s. induction cs as [|c cs IH]; intros s; [done|]. simpl.
  pose proof (perform_record_mono c s) as Hc.
  destruct (perform c s) as [s' alive]. simpl in Hc.
  destruct alive; [|done]. etrans; [exact Hc | apply IH].
Qed.

(** *** The ledger *)

Lemma gated_init (e0 : MiniGridEnv Aux) start_pos start_dir max_reward :
  gated (init e0 start_pos start_dir max_reward).
Proof.
  split; simpl; [|intros _; apply not_elem_of_nil].
  intros x _. split; [rewrite count_nil; lia | by intros ?%elem_of_nil].
Qed.

Lemma gated_reset seed s : gated s → gated (reset seed s).1.
Proof.
  intros Hg. pose proof (reset_own seed s) as Hown. unfold own in Hown.
  destruct (np_random seed (aux (base s)));
    injection Hown as _ _ Hrec Hflag Hinv; unfold gated; rewrite Hrec, Hflag, Hinv;
    [|done..].
  split; [|intros _; apply not_elem_of_nil].
  intros x _. split; [rewrite count_nil; lia | by intros ?%elem_of_nil].
Qed.

Lemma gated_step action s : gated s → gated (step action s).1.
Proof.
  intros [Hres Hsword].
  destruct (step_effect action s)
    as [Hown|[[Hc Hown]|[[Hin Hown]|(pos & kind & Hnew & Hown)]]];
    unfold own in Hown; injection Hown as _ _ Hrec Hflag Hinv;
    unfold gated; rewrite Hrec, Hflag, Hinv; clear Hrec Hflag Hinv.
  - done.
  - split; [|done]. intros x Hx. destruct (Hres x Hx) as [Hle Hin].
    assert (x ≠ "Iron Sword") as Hne.
    { intros ->. by apply sword_not_resource. }
    assert (count x (list_remove "Iron Ore" (list_remove "Tree" (inventory s)) ++
                     ["Iron Sword"]) ≤ count x (inventory s))%nat as Hcount.
    { rewrite count_app, count_single_ne by done.
      pose proof (count_remove_le x "Iron Ore" (list_remove "Tree" (inventory s))).
      pose proof (count_remove_le x "Tree" (inventory s)). lia. }
    split; [lia|]. intros Hin'%count_pos. apply Hin, count_pos. lia.
  - split.
    + intros x Hx. destruct (Hres x Hx) as [Hle Hin'].
      assert (x ≠ "Treasure") as Hne.
      { intros ->. by apply treasure_not_resource. }
      rewrite count_app, count_single_ne by done.
      split; [lia|]. intros [?|?%list_elem_of_singleton]%elem_of_app; [auto|done].
    + intros Hs. by destruct (Hsword Hs).
  - simpl. split.
    + intros x Hx. destruct (Hres x Hx) as [Hle Hin]. rewrite count_app.
      destruct (decide (x = resource_name kind)) as [->|Hne].
      * assert (count (resource_name kind) (inventory s) = 0%nat) as Hz.
        { destruct (count (resource_name kind) (inventory s)) eqn:Hcnt; [done|].
          destruct Hnew. apply Hin, count_pos. lia. }
        rewrite Hz, count_cons, decide_True by done. rewrite count_nil.
        split; [lia|]. intros _. by apply elem_of_union_r, elem_of_singleton.
      * rewrite count_single_ne by done. split; [lia|].
        intros [?|?%list_elem_of_singleton]%elem_of_app; [|done].
        apply elem_of_union_l. auto.
    + intros Hs [?|Heq%list_elem_of_singleton]%elem_of_app; [by apply Hsword|].
      apply sword_not_resource. rewrite Heq. apply resource_name_known.
Qed.

Lemma gated_perform c s : gated s → gated (perform c s).1.
Proof.
  intros Hg. destruct c as [seed|action]; simpl.
  - pose proof (gated_reset seed s Hg). by destruct (reset seed s).
  - pose proof (gated_step action s Hg). by destruct (step action s).
Qed.

Lemma run_gated cs s : gated s → gated (run cs s).
Proof.
  revert s. induction cs as [|c cs IH]; intros s Hg; [done|]. simpl.
  pose proof (gated_perform c s Hg) as Hc.
  destruct (perform c s) as [s' alive]. simpl in Hc.
  destruct alive; [by apply IH | done].
Qed.



End Invariants.

(** ** The inventory observation *)

Section InventoryObs.

Lemma inventory_obs_fold inv : ∀ (obs : list Z) i name,
  resource_names !! i = Some name →
  foldl (λ inventory_obs item,
           if bool_decide (item ∈ resource_names) then
             match list_index item resource_names with
             | Some index => alter (λ n, n + 1) index inventory_obs
             | None => inventory_obs
             end
           else inventory_obs) obs inv !! i
  = (λ n, n + Z.of_nat (count name inv)) <$> obs !! i.
Proof.
  induction inv as [|item inv IH]; intros obs i name Hi.
  - simpl. rewrite count_nil. destruct (obs !! i); simpl; f_equal; lia.
  - cbn [foldl]. rewrite (IH _ i name Hi). rewrite count_cons.
    destruct (decide (item ∈ resource_names)) as [Hin|Hnot].
    + rewrite bool_decide_true by done.
      destruct (list_index_elem _ _ Hin) as [j Hj]. rewrite Hj.
      pose proof (list_index_lookup _ _ _ Hj) as Hlook.
      destruct (decide (i = j)) as [->|Hij].
      * assert (name = item) as -> by congruence.
        rewrite list_lookup_alter_eq, decide_True by done.
        destruct (obs !! j); simpl; f_equal; lia.
      * rewrite list_lookup_alter_ne by done.
        rewrite decide_False; [destruct (obs !! i); simpl; f_equal; lia|].
        intros ->. apply Hij.
        by apply (NoDup_lookup resource_names i j item resource_names_NoDup).
    + rewrite bool_decide_false by done.
      rewrite decide_False; [destruct (obs !! i); simpl; f_equal; lia|].
      intros ->. apply Hnot. by eapply list_elem_of_lookup_2.
Qed.

(** Slot [i] of the vector counts the occurrences of the [i]-th name. *)
Lemma inventory_obs_lookup inv i name :
  resource_names !! i = Some name →
  get_inventory_observation inv !! i = Some (Z.of_nat (count name inv)).
Proof.
  intros Hi. unfold get_inventory_observation.
  rewrite (inventory_obs_fold inv _ i name Hi).
  apply lookup_lt_Some in Hi. change (length resource_names) with 8%nat in Hi.
  rewrite lookup_replicate_2 by done. simpl. f_equal.
Qed.

Lemma inventory_obs_length inv : length (get_inventory_observation inv) = 8%nat.
Proof.
  unfold get_inventory_observation.
  assert (length (replicate 8 0) = 8%nat) as Hlen by done.
  revert Hlen. generalize (replicate 8 0).
  induction inv as [|item inv IH]; intros obs Hlen; [done|]. cbn [foldl].
  apply IH. repeat case_match; by rewrite ?length_alter.
Qed.

End InventoryObs.

(** ** Collecting a resource *)

Section Collect.
Context {Aux : Type} {E : Engine Aux}.
Implicit Types s : SimpleEnv Aux.

(** The Toggle step at a resource, as the code has it.  When the agent
    faces a resource whose
    kind is already in the global record, a Toggle step returns with
    reward -1 + -1 and leaves the whole state as it was: the ledger
    gets nothing and the object stays on the grid.  When the kind is
    not in the record, the step records it, appends it to the ledger,
    empties the cell and returns with reward -1 + 1.  Either way the
    kind is in the record afterwards, and from a state whose record
    has the kind every later Toggle at a resource of that kind, in
    this or a later episode, returns with reward -1 + -1. *)
Theorem toggle_resource_spec s color kind :
  facing s = Returns (Some (Resource color kind)) →
  let name := resource_name kind in
  let s' := (step Actions.toggle s).1 in
  (name ∈ collected_resources_global s →
     ∃ obs, step Actions.toggle s = (s, Returns (obs, -1 + -1, false, false))) ∧
  (name ∉ collected_resources_global s →
     ∃ obs pos,
       front_pos (base s) = Returns pos ∧
       (step Actions.toggle s).2 = Returns (obs, -1 + 1, false, false) ∧
       collected_resources_global s' = collected_resources_global s ∪ {[name]} ∧
       inventory s' = (inventory s ++ [name])%list ∧
       cells (grid (base s')) !! pos = None) ∧
  (name ∈ collected_resources_global s') ∧
  (∀ cs color',
     let s2 := run cs s' in
     facing s2 = Returns (Some (Resource color' kind)) →
     ∃ obs, step Actions.toggle s2 = (s2, Returns (obs, -1 + -1, false, false))).
Proof.
  intros Hf name s'.
  destruct (facing_inv s _ Hf) as (pos & p & Hpos & Hcell & Hp).
  assert (∀ s0 color0,
            facing s0 = Returns (Some (Resource color0 kind)) →
            name ∈ collected_resources_global s0 →
            ∃ obs, step Actions.toggle s0 = (s0, Returns (obs, -1 + -1, false, false)))
    as Hknown.
  { intros s0 color0 Hf0 Hin.
    destruct (facing_inv s0 _ Hf0) as (pos0 & p0 & Hpos0 & Hcell0 & Hp0).
    rewrite (step_toggle_at_resource s0 pos0 color0 kind) by done.
    rewrite bool_decide_false by (intros Hn; by apply Hn).
    apply (return_obs_returns s0 p0 (-2) false false Hp0). }
  assert (name ∈ collected_resources_global s') as Hafter.
  { subst s'. rewrite (step_toggle_at_resource s pos color kind) by done.
    destruct (decide (name ∈ collected_resources_global s)) as [Hin|Hnot].
    - rewrite bool_decide_false by (intros Hn; by apply Hn).
      by rewrite return_obs_state.
    - rewrite bool_decide_true by done. rewrite return_obs_state. simpl.
      by apply elem_of_union_r, elem_of_singleton. }
  split; [by apply (Hknown s color)|]. split; [|split; [done|]].
  - intros Hnot. subst s'.
    rewrite (step_toggle_at_resource s pos color kind) by done.
    rewrite bool_decide_true by done.
    destruct (return_obs_returns (collected_at pos kind s) p (-1 + 1) false false Hp)
      as [obs Hobs].
    rewrite Hobs. exists obs, pos. simpl.
    repeat split; try done. apply lookup_delete_eq.
  - intros cs color' s2 Hf2. apply (Hknown s2 color' Hf2).
    by apply (run_record_mono cs s').
Qed.

(** Appending a name of the kind enumeration is gated by the record:
    a step that adds an occurrence of the name to the ledger starts
    without the name in the record and ends with it. *)
Lemma append_is_gated action s x :
  x ∈ resource_names →
  (count x (inventory s) < count x (inventory (step action s).1))%nat →
  (x ∉ collected_resources_global s) ∧
  x ∈ collected_resources_global (step action s).1.
Proof.
  intros Hx.
  destruct (step_effect action s)
    as [Hown|[[Hc Hown]|[[Hin Hown]|(pos & kind & Hnew & Hown)]]];
    unfold own in Hown; injection Hown as _ _ Hrec _ Hinv; rewrite Hrec, Hinv;
    clear Hrec Hinv; simpl.
  - lia.
  - rewrite count_app, count_single_ne
      by (intros ->; by apply sword_not_resource).
    pose proof (count_remove_le x "Iron Ore" (list_remove "Tree" (inventory s))).
    pose proof (count_remove_le x "Tree" (inventory s)). lia.
  - rewrite count_app, count_single_ne
      by (intros ->; by apply treasure_not_resource). lia.
  - rewrite count_app. destruct (decide (x = resource_name kind)) as [->|Hne].
    + intros _. split; [done|]. by apply elem_of_union_r, elem_of_singleton.
    + rewrite count_single_ne by done. lia.
Qed.

End Collect.

Lemma toggle_resource_witness :
  ∃ s, facing s = Returns (Some (Resource "green" Tree)) ∧
       "Tree" ∈ collected_resources_global (step (E:=Demo.E) Actions.toggle s).1.
Proof.
  exists Demo.at_tree.
  assert (facing Demo.at_tree = Returns (Some (Resource "green" Tree))) as Hf
    by (by vm_compute).
  split; [exact Hf|].
  exact (proj1 (proj2 (proj2
    (toggle_resource_spec (E:=Demo.E) Demo.at_tree "green" Tree Hf)))).
Defined.

(** C3 fails on the code.  In the second episode of the run the agent
    faces the tree again and "Tree" is in the global record.  The Toggle
    step returns with reward -1 + -1, but it has collected nothing:
    the ledger is as before, without a new "Tree", and the tree is still
    on the cell (5, 1) in front of the agent.  The append and the
    removal stand in the branch of the first collection only; for a
    recorded kind the step only charges the penalty (for every state:
    [toggle_resource_spec]). *)
Theorem toggle_known_kind_collects_nothing :
  facing Demo.at_tree_again = Returns (Some (Resource "green" Tree)) ∧
  "Tree" ∈ collected_resources_global Demo.at_tree_again ∧
  front_pos (base Demo.at_tree_again) = Returns (5, 1) ∧
  (∃ obs, (step (E:=Demo.E) Actions.toggle Demo.at_tree_again).2 =
          Returns (obs, -2, false, false)) ∧
  inventory (step (E:=Demo.E) Actions.toggle Demo.at_tree_again).1 =
    inventory Demo.at_tree_again ∧
  ("Tree" ∉ inventory (step (E:=Demo.E) Actions.toggle Demo.at_tree_again).1) ∧
  cells (grid (base (step (E:=Demo.E) Actions.toggle Demo.at_tree_again).1)) !! (5, 1)
    = Some (Resource "green" Tree).
Proof.
  split; [vm_compute; reflexivity|]. split.
  { apply (bool_decide_unpack _). vm_compute. exact I. }
  split; [vm_compute; reflexivity|].
  split; [eexists; vm_compute; reflexivity|].
  split; [vm_compute; reflexivity|]. split.
  { apply (bool_decide_unpack _). vm_compute. exact I. }
  vm_compute. reflexivity.
Qed.

(** ** The global record and the inventory counts over a run *)

Section RunClaims.
Context {Aux : Type} {E : Engine Aux}.
Implicit Types s : SimpleEnv Aux.


(** C7. Over any sequence of reset and step calls the global record
    only grows: what is in it before the calls is in it after them.
    A single call of either kind keeps every kind, and reset leaves
    the record exactly as it was. *)
Theorem record_only_grows cs s :
  collected_resources_global s ⊆ collected_resources_global (run cs s) ∧
  (∀ c, collected_resources_global s ⊆ collected_resources_global (perform c s).1) ∧
  (∀ seed, collected_resources_global (reset seed s).1 = collected_resources_global s).
Proof.
  split; [apply run_record_mono|].
  split; [intros c; apply perform_record_mono | intros seed; apply reset_record_same].
Qed.

(** C10. In every state reached by reset and step calls from a new
    object, the inventory observation has eight entries and each is 0
    or 1, hence below the declared bound 10: a name of the kind
    enumeration is in the ledger at most once and only if it is in the
    global record, a step adds an occurrence of such a name only if
    the record lacks it and then records it, and "Iron Sword" and
    "Treasure" are not names of the enumeration. *)
Theorem inventory_counts_are_bits cs (e0 : MiniGridEnv Aux) start_pos start_dir
    max_reward :
  let s := run cs (init e0 start_pos start_dir max_reward) in
  length (get_inventory_observation (inventory s)) = 8%nat ∧
  (∀ n, n ∈ get_inventory_observation (inventory s) → (n = 0 ∨ n = 1) ∧ n < 10) ∧
  (∀ x, x ∈ resource_names →
     (count x (inventory s) ≤ 1)%nat ∧
     (x ∈ inventory s → x ∈ collected_resources_global s)) ∧
  (∀ action x, x ∈ resource_names →
     (count x (inventory s) < count x (inventory (step action s).1))%nat →
     (x ∉ collected_resources_global s) ∧
     x ∈ collected_resources_global (step action s).1) ∧
  ("Iron Sword" ∉ resource_names) ∧ ("Treasure" ∉ resource_names).
Proof.
  intros s.
  assert (gated s) as [Hres _] by apply run_gated, gated_init.
  split; [apply inventory_obs_length|].
  split; [|split; [exact Hres|split;
    [intros action x; apply append_is_gated
    |split; [apply sword_not_resource | apply treasure_not_resource]]]].
  intros n (i & Hi)%list_elem_of_lookup_1.
  pose proof (lookup_lt_Some _ _ _ Hi) as Hlt.
  rewrite inventory_obs_length in Hlt.
  destruct (lookup_lt_is_Some_2 resource_names i) as [name Hname]; [done|].
  rewrite (inventory_obs_lookup _ i name Hname) in Hi. injection Hi as <-.
  destruct (Hres name) as [Hle _]; [by eapply list_elem_of_lookup_2|]. lia.
Qed.

End RunClaims.

(** ** reset, the step counter and the agent's start *)

Section Reset.
Context {Aux : Type} {E : Engine Aux}.
Implicit Types s : SimpleEnv Aux.

Lemma bind_returns {A B} (m : M Aux A) (k : A → M Aux B) s s' b :
  (m ≫= k) s = (s', Returns b) →
  ∃ a s1, m s = (s1, Returns a) ∧ k a s1 = (s', Returns b).
Proof.
  unfold mbind, M_bind. destruct (m s) as [s1 [a| |]]; [|done..].
  intros Hk. by exists a, s1.
Qed.

(** A reset that returns ends with the engine's random placement of
    the agent, the zeroing of the step counter and the observation. *)
Lemma reset_returns_inv seed s s' obs :
  reset seed s = (s', Returns obs) →
  ∃ s0 s1 e2 pos,
    _gen_grid (width (base s0)) (height (base s0)) s0 = (s1, Returns ()) ∧
    place_agent (base s1) = (e2, Returns pos) ∧
    s' = with_base (set_step_count 0) (with_base (λ _, e2) s1) ∧
    get_obs s' = Returns obs.
Proof.
  unfold reset. intros Hr.
  do 4 (apply bind_returns in Hr as (? & ? & _ & Hr)).
  apply bind_returns in Hr as (? & s0 & _ & Hr).
  apply bind_returns in Hr as (a0 & s0' & Heval & Hr).
  unfold eval in Heval.
  assert (s0' = s0 ∧ a0 = s0) as [-> ->] by (by inversion Heval). clear Heval.
  apply bind_returns in Hr as ([] & s1 & Hgen & Hr).
  apply bind_returns in Hr as (pos & s2 & Hplace & Hr).
  apply bind_returns in Hr as ([] & s3 & Hassign & Hr).
  unfold super in Hplace. destruct (place_agent (base s1)) as [e2 o] eqn:He2.
  assert (s2 = with_base (λ _, e2) s1 ∧ o = Returns pos) as [-> ->]
    by (by inversion Hplace).
  assert (s3 = with_base (set_step_count 0) (with_base (λ _, e2) s1)) as ->
    by (by inversion Hassign).
  unfold eval in Hr.
  assert (s' = with_base (set_step_count 0) (with_base (λ _, e2) s1) ∧
          get_obs (with_base (set_step_count 0) (with_base (λ _, e2) s1)) = Returns obs)
    as [-> Hobs] by (by inversion Hr).
  by exists s0, s1, e2, pos.
Qed.

Lemma reset_zeroes_step_count seed s s' obs :
  reset seed s = (s', Returns obs) → step_count (base s') = 0.
Proof. intros (s0 & s1 & e2 & pos & _ & _ & -> & _)%reset_returns_inv. done. Qed.

(** Whatever the preferred start cell, the pose after a reset is the
    one the engine's random placement leaves. *)
Lemma reset_pose seed s s' obs :
  reset seed s = (s', Returns obs) →
  ∃ e1 pos, (place_agent e1).2 = Returns pos ∧
            agent_pos (base s') = agent_pos (place_agent e1).1 ∧
            agent_dir (base s') = agent_dir (place_agent e1).1.
Proof.
  intros (s0 & s1 & e2 & pos & _ & Hplace & -> & _)%reset_returns_inv.
  exists (base s1), pos. by rewrite Hplace.
Qed.

(** The three custom branches return without calling the engine:
    the engine's state, step counter included, is as before. *)
Lemma handled_step_keeps_counter action s :
  failed_attempt action s ∨ (action = Actions.craft_sword ∧ craftable s) ∨
  (action = Actions.open_chest ∧ facing s = Returns (Some (Box "purple"))) →
  step_count (base (step action s).1) = step_count (base s).
Proof.
  intros [Hfail|[[-> (Hf & Ht & Ho & Hs)]|[-> Hf]]].
  - by destruct (failed_attempt_returns action s Hfail) as [obs ->].
  - rewrite step_craft_at_table by done.
    rewrite !bool_decide_true, Hs by done. simpl. by rewrite return_obs_state.
  - rewrite step_open_at_chest by done.
    destruct (bool_decide _); by rewrite return_obs_state.
Qed.

(** *** The agent's start in _gen_grid *)

Lemma empty_positions_interior g w h :
  (∀ c, c ∈ interior w h → in_grid g c = true) →
  empty_positions g w h = Returns (filter (λ c, cells g !! c = None) (interior w h)).
Proof.
  unfold empty_positions. fold (interior w h). intros Hin.
  rewrite (mapM_returns _ (λ c, (c, cells g !! c))).
  - cbn [mbind outcome_bind]. f_equal. clear Hin.
    induction (interior w h) as [|c l IH]; [done|].
    rewrite fmap_cons, !filter_cons. cbn [snd].
    destruct (decide (cells g !! c = None)); [rewrite fmap_cons|]; by rewrite IH.
  - intros c Hc. unfold grid_get. by rewrite (Hin c Hc).
Qed.

(** With a preferred start cell [p]: the agent is put on [p] when the
    cell is empty or permits overlap; otherwise on the first empty
    interior cell of the scan, which also becomes the preferred cell;
    and when there is none, [RuntimeError] is raised. *)
Lemma place_start_spec w h s p cell :
  agent_start_pos s = Some p →
  grid_get (grid (base s)) p = Returns cell →
  match cell with
  | Some o =>
      if can_overlap o then
        place_start w h s =
        (with_base (set_agent (Some p) (Some (agent_start_dir s))) s, Returns ())
      else
        match empty_positions (grid (base s)) w h with
        | Returns (q :: _) =>
            place_start w h s =
            (with_base (set_agent (Some q) (Some (agent_start_dir s)))
               (set_agent_start_pos (Some q) s), Returns ())
        | Returns [] => place_start w h s = (s, Raises RuntimeError)
        | Raises e => place_start w h s = (s, Raises e)
        | Hangs => place_start w h s = (s, Hangs)
        end
  | None =>
      place_start w h s =
      (with_base (set_agent (Some p) (Some (agent_start_dir s))) s, Returns ())
  end.
Proof.
  intros Hstart Hcell. unfold place_start, mbind, M_bind, eval, assign, raise, mret, M_ret.
  rewrite Hstart, Hcell.
  destruct cell as [o|]; [|by rewrite Hstart].
  destruct (can_overlap o); simpl; [by rewrite Hstart|].
  destruct (empty_positions (grid (base s)) w h) as [[|q l]| |]; done.
Qed.

End Reset.

(** C4 fails on the code.  In the run the agent reaches the crafting
    table after 14 steps handled by the engine; the CraftSword step that
    follows returns (with the crafting reward 49) and the step counter
    is still 14. *)
Theorem craft_step_is_not_counted :
  step_count (base Demo.at_table) = 14 ∧
  (∃ obs, (step (E:=Demo.E) Actions.craft_sword Demo.at_table).2 =
          Returns (obs, 49, false, false)) ∧
  step_count (base (step (E:=Demo.E) Actions.craft_sword Demo.at_table).1) = 14.
Proof.
  split; [vm_compute; reflexivity|]. split; [|vm_compute; reflexivity].
  eexists. vm_compute. reflexivity.
Qed.

(** C8 fails on the code.  The new object prefers the start cell (3, 3);
    its first reset returns, the cell (3, 3) is empty and still the
    preferred one, and the agent stands on (5, 2) looking in direction
    3: the pose drawn by the random placement that reset calls after
    _gen_grid, not the preferred cell with the configured direction 0. *)
Theorem reset_overrides_preferred_start :
  agent_start_pos Demo.fresh33 = Some (3, 3) ∧
  (∃ obs, Demo.reset33.2 = Returns obs) ∧
  agent_start_pos Demo.reset33.1 = Some (3, 3) ∧
  cells (grid (base Demo.reset33.1)) !! (3, 3) = None ∧
  agent_pos (base Demo.reset33.1) = Some (5, 2) ∧
  agent_dir (base Demo.reset33.1) = Some 3.
Proof.
  split; [reflexivity|]. split; [eexists; vm_compute; reflexivity|].
  repeat split; vm_compute; reflexivity.
Qed.

(** ** The scan of one beam *)

Section Scan.
Variables (g : Grid) (p : Z * Z) (i : nat).

Lemma scan_pure_skip acc c :
  qualifies g p i c = false → scan_pure g p i acc c = acc.
Proof.
  unfold qualifies, scan_pure. destruct (cells g !! c) as [o|]; [|done].
  rewrite bool_decide_true by (by eexists). simpl. by intros ->.
Qed.

Lemma scan_pure_hit acc c o :
  cells g !! c = Some o → within_beam i (vsub c p) = true →
  scan_pure g p i acc c =
  if dist_lt (norm2 (vsub c p)) acc then Some (norm2 (vsub c p), entity_index o) else acc.
Proof. unfold scan_pure. by intros -> ->. Qed.

Lemma qualifies_object c :
  qualifies g p i c = true →
  ∃ o, cells g !! c = Some o ∧ within_beam i (vsub c p) = true.
Proof.
  unfold qualifies. intros [[o Ho]%bool_decide_eq_true Hbeam]%andb_true_iff.
  by exists o.
Qed.


(** Objects that are not closer than the current one leave it. *)
Lemma scan_not_closer l n k :
  (∀ c, c ∈ l → qualifies g p i c = true → n ≤ norm2 (vsub c p)) →
  foldl (scan_pure g p i) (Some (n, k)) l = Some (n, k).
Proof.
  induction l as [|c l IH]; intros Hl; [done|]. simpl.
  destruct (qualifies g p i c) eqn:Hq.
  - destruct (qualifies_object c Hq) as (o & Ho & Hbeam).
    rewrite (scan_pure_hit _ c o Ho Hbeam). simpl.
    pose proof (Hl c (list_elem_of_here _ _) Hq) as Hle.
    destruct (Z.ltb_spec (norm2 (vsub c p)) n); [lia|].
    apply IH. intros c' ?. apply Hl. by right.
  - rewrite scan_pure_skip by done. apply IH. intros c' ?. apply Hl. by right.
Qed.

(** Objects that are strictly farther than [n] leave an accumulator
    that is empty or strictly farther than [n]. *)
Lemma scan_farther l n acc :
  (∀ c, c ∈ l → qualifies g p i c = true → n < norm2 (vsub c p)) →
  dist_lt n acc = true →
  dist_lt n (foldl (scan_pure g p i) acc l) = true.
Proof.
  revert acc. induction l as [|c l IH]; intros acc Hl Hacc; [done|]. simpl.
  apply IH; [intros c' ?; apply Hl; by right|].
  destruct (qualifies g p i c) eqn:Hq; [|by rewrite scan_pure_skip].
  destruct (qualifies_object c Hq) as (o & Ho & Hbeam).
  rewrite (scan_pure_hit _ c o Ho Hbeam).
  destruct (dist_lt (norm2 (vsub c p)) acc); [|done]. simpl.
  apply Z.ltb_lt, Hl; [by left|done].
Qed.

(** The scan returns the first nearest object. *)
Lemma scan_first_nearest l c o :
  first_nearest g p i l c → cells g !! c = Some o →
  foldl (scan_pure g p i) None l = Some (norm2 (vsub c p), entity_index o).
Proof.
  intros (l1 & l2 & -> & Hq & Hbefore & Hafter) Ho.
  destruct (qualifies_object c Hq) as (o' & Ho' & Hbeam).
  rewrite foldl_app. simpl.
  rewrite (scan_pure_hit _ c o Ho Hbeam).
  rewrite (scan_farther l1 (norm2 (vsub c p)) None Hbefore eq_refl).
  by apply scan_not_closer.
Qed.

(** Among qualifying objects there is a first nearest one. *)
Lemma first_nearest_exists l :
  (∃ c, c ∈ l ∧ qualifies g p i c = true) → ∃ c, first_nearest g p i l c.
Proof.
  induction l as [|a l IH]; [by intros (c & ?%elem_of_nil & _)|].
  intros (c & Hc & Hq).
  destruct (decide (Exists (λ c', qualifies g p i c' = true) l))
    as [Hex%Exists_exists|Hno].
  - destruct (IH Hex) as (c0 & l1 & l2 & -> & Hq0 & Hbefore & Hafter).
    destruct (decide (qualifies g p i a = true ∧
                      norm2 (vsub a p) ≤ norm2 (vsub c0 p))) as [[Hqa Hle]|Hna].
    + exists a, [], (l1 ++ c0 :: l2). repeat split; [done|by intros ? ?%elem_of_nil|].
      intros c' [Hin|[->|Hin]%elem_of_cons]%elem_of_app Hq'.
      * pose proof (Hbefore c' Hin Hq'). lia.
      * done.
      * pose proof (Hafter c' Hin Hq'). lia.
    + exists c0, (a :: l1), l2. repeat split; [done| |done].
      intros c' [->|Hin]%elem_of_cons Hq'; [|by apply Hbefore].
      destruct (Z.lt_ge_cases (norm2 (vsub c0 p)) (norm2 (vsub a p))); [done|].
      destruct Hna. split; [done|lia].
  - assert (c = a) as ->.
    { apply elem_of_cons in Hc as [?|Hin]; [done|].
      destruct Hno. apply Exists_exists. by exists c. }
    exists a, [], l. repeat split; [done|by intros ? ?%elem_of_nil|].
    intros c' Hin Hq'. destruct Hno. apply Exists_exists. by exists c'.
Qed.

Lemma first_nearest_qualifies l c :
  first_nearest g p i l c → qualifies g p i c = true.
Proof. by intros (l1 & l2 & _ & Hq & _). Qed.

Lemma first_nearest_least l c c' :
  first_nearest g p i l c → c' ∈ l → qualifies g p i c' = true →
  norm2 (vsub c p) ≤ norm2 (vsub c' p).
Proof.
  intros (l1 & l2 & -> & Hq & Hbefore & Hafter)
    [Hin|[->|Hin]%elem_of_cons]%elem_of_app Hq'.
  - pose proof (Hbefore c' Hin Hq'). lia.
  - done.
  - by apply Hafter.
Qed.

End Scan.

(** ** The beams partition the directions *)

Section Beams.

Lemma sqrt2_irrational_aux (n : nat) : ∀ a b : Z,
  Z.abs a ≤ Z.of_nat n → a * a = 2 * (b * b) → a = 0.
Proof.
  induction n as [|n IH]; intros a b Hn Heq; [lia|].
  destruct (Z.Even_or_Odd a) as [[t ->]|[t ->]]; [|lia].
  assert (b * b = 2 * (t * t)) as Hb by lia.
  destruct (decide (t = 0)) as [->|Ht]; [done|].
  assert (b = 0) as ->; [|nia].
  apply (IH b t); [|done]. nia.
Qed.

Lemma sqrt2_irrational a b : a * a = 2 * (b * b) → a = 0.
Proof. intros Heq. apply (sqrt2_irrational_aux (Z.abs_nat a) a b); [lia|done]. Qed.

Lemma beam0_narrow a b : beam0 a b → 0 < a ∧ Z.abs b < a.
Proof. intros [Ha Hb]. split; [done|]. nia. Qed.

Lemma beam0_next a b : beam0 a b → beam0 (a + b) (b - a) → False.
Proof.
  intros Hab [Hs H2]. destruct (beam0_narrow a b Hab) as [Ha Hlt].
  destruct Hab as [_ H1].
  rewrite (Z.abs_neq (b - a)) in H2 by lia.
  replace (- (b - a) + (a + b)) with (2 * a) in H2 by lia.
  assert (0 ≤ b) as Hb by nia.
  rewrite (Z.abs_eq b) in H1 by done.
  assert ((a + b) * (a + b) = 2 * (a * a)) as Heq by nia.
  apply sqrt2_irrational in Heq. lia.
Qed.

Lemma beam0_scale t a b : 0 < t → beam0 a b → beam0 (t * a) (t * b).
Proof.
  intros Ht [Ha Hb]. split; [nia|].
  rewrite Z.abs_mul, (Z.abs_eq t) by lia.
  replace ((t * Z.abs b + t * a) * (t * Z.abs b + t * a))
    with ((t * t) * ((Z.abs b + a) * (Z.abs b + a))) by ring.
  replace (2 * (t * a) * (t * a)) with ((t * t) * (2 * a * a)) by ring.
  apply Z.mul_le_mono_nonneg_l; [nia|done].
Qed.

Lemma beams_adjacent t a b a' b' :
  0 < t → t * a' = a + b → t * b' = b - a → beam0 a b → beam0 a' b' → False.
Proof.
  intros Ht Ha' Hb' Hab Hab'. apply (beam0_next a b Hab).
  rewrite <-Ha', <-Hb'. by apply beam0_scale.
Qed.

Lemma within_beam_beam0 i v :
  v ≠ (0, 0) → within_beam i v = true ↔ beam0 (turn_back i v).1 (turn_back i v).2.
Proof.
  intros Hv. unfold within_beam, beam0. rewrite bool_decide_false by done.
  destruct (turn_back i v) as [a b]. simpl.
  by rewrite andb_true_iff, Z.ltb_lt, Z.leb_le.
Qed.

Lemma beams_disjoint v i j :
  (i < 8)%nat → (j < 8)%nat →
  within_beam i v = true → within_beam j v = true → i = j.
Proof.
  intros Hi Hj. destruct (decide (v = (0, 0))) as [->|Hv].
  { unfold within_beam. rewrite !bool_decide_true by done.
    intros ->%bool_decide_eq_true ->%bool_decide_eq_true. done. }
  rewrite !within_beam_beam0 by done. destruct v as [dx dy].
  assert (i = 0 ∨ i = 1 ∨ i = 2 ∨ i = 3 ∨ i = 4 ∨ i = 5 ∨ i = 6 ∨ i = 7)%nat as Hi' by lia.
  assert (j = 0 ∨ j = 1 ∨ j = 2 ∨ j = 3 ∨ j = 4 ∨ j = 5 ∨ j = 6 ∨ j = 7)%nat as Hj' by lia.
  clear Hi Hj Hv.
  repeat (destruct Hi' as [->|Hi']); try subst i;
  repeat (destruct Hj' as [->|Hj']); try subst j; try done; simpl;
  intros Hb1 Hb2; exfalso;
  first
    [ apply beam0_narrow in Hb1, Hb2; lia
    | refine (beams_adjacent 1 _ _ _ _ _ _ _ Hb1 Hb2); lia
    | refine (beams_adjacent 2 _ _ _ _ _ _ _ Hb1 Hb2); lia
    | refine (beams_adjacent 1 _ _ _ _ _ _ _ Hb2 Hb1); lia
    | refine (beams_adjacent 2 _ _ _ _ _ _ _ Hb2 Hb1); lia ].
Qed.




End Beams.

(** ** The integer tests are the tests of the source *)

Lemma sqrt2_sqr : (sqrt 2 * sqrt 2 = 2)%R.
Proof. apply sqrt_sqrt. lra. Qed.

Lemma sqrt2_bounds : (1 < sqrt 2 < 2)%R.
Proof.
  pose proof sqrt2_sqr. pose proof (sqrt_pos 2). split; nra.
Qed.

Lemma tan_PI8 : (tan (PI / 8) = sqrt 2 - 1)%R.
Proof.
  pose proof PI_RGT_0 as Hpi. pose proof sqrt2_sqr as H2. pose proof sqrt2_bounds as Hb.
  assert (0 < tan (PI / 8))%R as Hpos by (apply tan_gt_0; lra).
  assert (tan (PI / 8) < 1)%R as Hlt.
  { rewrite <-tan_PI4. apply tan_increasing; lra. }
  assert (cos (PI / 8) ≠ 0)%R as Hc.
  { apply Rgt_not_eq, cos_gt_0; lra. }
  assert (cos (2 * (PI / 8)) ≠ 0)%R as Hc2.
  { apply Rgt_not_eq, cos_gt_0; lra. }
  set (t := tan (PI / 8)) in *.
  assert (1 - t * t ≠ 0)%R as Hne by nra.
  pose proof (tan_2a (PI / 8) Hc Hc2 Hne) as Ht.
  replace (2 * (PI / 8))%R with (PI / 4)%R in Ht by lra.
  rewrite tan_PI4 in Ht. fold t in Ht.
  assert (2 * t / (1 - t * t) * (1 - t * t) = 2 * t)%R as Hf by (field; exact Hne).
  rewrite <-Ht in Hf.
  assert ((t + 1) * (t + 1) = sqrt 2 * sqrt 2)%R as Hsq by nra.
  nra.
Qed.

Lemma frame_window_polar_1 r θ :
  (0 < r → - (PI / 8) <= θ <= PI / 8 → frame_window (r * cos θ) (r * sin θ))%R.
Proof.
  intros Hr Hθ. pose proof PI_RGT_0 as Hpi. pose proof sqrt2_bounds as Hb.
  assert (0 < cos θ)%R as Hcos by (apply cos_gt_0; lra).
  assert (Rabs (sin θ) <= (sqrt 2 - 1) * cos θ)%R as Hsin.
  { assert (∀ x, 0 <= x <= PI / 8 → sin x <= (sqrt 2 - 1) * cos x)%R as Hhalf.
    { intros x Hx. assert (0 < cos x)%R as Hcx by (apply cos_gt_0; lra).
      assert (tan x <= tan (PI / 8))%R as Ht.
      { destruct (Req_dec x (PI / 8)) as [->|Hne]; [lra|].
        apply Rlt_le, tan_increasing; lra. }
      rewrite tan_PI8 in Ht. unfold tan in Ht.
      apply (Rmult_le_compat_r (cos x)) in Ht; [|lra].
      replace (sin x / cos x * cos x)%R with (sin x) in Ht by (field; lra). lra. }
    destruct (Rle_dec 0 θ) as [Hpos|Hneg].
    - rewrite Rabs_right; [apply Hhalf; lra|].
      apply Rle_ge, sin_ge_0; lra.
    - pose proof (Hhalf (- θ)%R ltac:(lra)) as Hm. rewrite sin_neg, cos_neg in Hm.
      assert (0 <= sin (- θ))%R as Hs by (apply sin_ge_0; lra).
      rewrite sin_neg in Hs. rewrite Rabs_left1; lra. }
  split; [nra|]. rewrite Rabs_mult, (Rabs_right r) by lra. nra.
Qed.

Lemma frame_window_polar_2 A B :
  frame_window A B →
  ∃ r θ, (0 < r ∧ - (PI / 8) <= θ <= PI / 8 ∧ A = r * cos θ ∧ B = r * sin θ)%R.
Proof.
  intros [HA HB]. pose proof PI_RGT_0 as Hpi. pose proof sqrt2_bounds as Hb.
  set (θ := atan (B / A)).
  pose proof (atan_bound (B / A)) as Hbound. fold θ in Hbound.
  assert (0 < cos θ)%R as Hcos by (apply cos_gt_0; lra).
  assert (tan θ = B / A)%R as Htan by apply tan_atan.
  assert (- (sqrt 2 - 1) <= B / A <= sqrt 2 - 1)%R as Hratio.
  { assert (B / A * A = B)%R as HBA by (field; lra).
    set (q := (B / A)%R) in *.
    assert (- ((sqrt 2 - 1) * A) <= B <= (sqrt 2 - 1) * A)%R as [Hlo Hhi].
    { unfold Rabs in HB. destruct (Rcase_abs B); lra. }
    split; apply (Rmult_le_reg_r A); lra. }
  assert (atan (sqrt 2 - 1) = PI / 8)%R as Hat.
  { rewrite <-tan_PI8. apply atan_tan. lra. }
  assert (- (PI / 8) <= θ <= PI / 8)%R as Hθ.
  { split.
    - rewrite <-Hat, <-atan_opp. unfold θ.
      destruct (Req_dec (- (sqrt 2 - 1)) (B / A)) as [->|Hne]; [lra|].
      apply Rlt_le, atan_increasing. lra.
    - rewrite <-Hat. unfold θ.
      destruct (Req_dec (B / A) (sqrt 2 - 1)) as [->|Hne]; [lra|].
      apply Rlt_le, atan_increasing. lra. }
  exists (A / cos θ)%R, θ. split; [by apply Rdiv_lt_0_compat|]. split; [done|]. split.
  - field. lra.
  - replace (A / cos θ * sin θ)%R with (A * tan θ)%R by (unfold tan; field; lra).
    rewrite Htan. field. lra.
Qed.

Lemma rotate_polar φ x y r θ :
  (x = r * cos (φ + θ) ∧ y = r * sin (φ + θ) ↔
   cos φ * x + sin φ * y = r * cos θ ∧ - sin φ * x + cos φ * y = r * sin θ)%R.
Proof.
  pose proof (sin2_cos2 φ) as H1. unfold Rsqr in H1.
  rewrite cos_plus, sin_plus. split; intros [Hx Hy].
  - subst x y. split.
    + transitivity (r * cos θ * (sin φ * sin φ + cos φ * cos φ))%R; [ring|].
      rewrite H1. ring.
    + transitivity (r * sin θ * (sin φ * sin φ + cos φ * cos φ))%R; [ring|].
      rewrite H1. ring.
  - split.
    + transitivity (cos φ * (r * cos θ) - sin φ * (r * sin θ))%R; [|ring].
      rewrite <-Hx, <-Hy.
      transitivity (x * (sin φ * sin φ + cos φ * cos φ))%R; [rewrite H1|]; ring.
    + transitivity (sin φ * (r * cos θ) + cos φ * (r * sin θ))%R; [|ring].
      rewrite <-Hx, <-Hy.
      transitivity (y * (sin φ * sin φ + cos φ * cos φ))%R; [rewrite H1|]; ring.
Qed.

Ltac table_case :=
  split; [lra|]; split; [lra|]; split; [lra|];
  intros dx dy; cbn [fst snd];
  rewrite ?minus_IZR, ?plus_IZR, ?opp_IZR; split; lra.

Lemma beam_angle_table i :
  (i < 8)%nat →
  ∃ c s k : R,
    (cos (beam_angle i) = c / k ∧ sin (beam_angle i) = s / k ∧ 0 < k ∧
     ∀ dx dy : Z,
       IZR (turn_back i (dx, dy)).1 = c * IZR dx + s * IZR dy ∧
       IZR (turn_back i (dx, dy)).2 = - s * IZR dx + c * IZR dy)%R.
Proof.
  intros Hi. pose proof sqrt2_bounds as Hb. pose proof sqrt2_sqr as H2.
  assert (i = 0 ∨ i = 1 ∨ i = 2 ∨ i = 3 ∨ i = 4 ∨ i = 5 ∨ i = 6 ∨ i = 7)%nat as Hi' by lia.
  unfold beam_angle.
  repeat (destruct Hi' as [-> | Hi']); try subst i; simpl INR; simpl turn_back.
  - exists 1%R, 0%R, 1%R. replace (0 * (2 * PI / 8))%R with 0%R by lra.
    rewrite cos_0, sin_0. table_case.
  - exists 1%R, 1%R, (sqrt 2). replace (1 * (2 * PI / 8))%R with (PI / 4)%R by lra.
    rewrite cos_PI4, sin_PI4. table_case.
  - exists 0%R, 1%R, 1%R. replace ((1 + 1) * (2 * PI / 8))%R with (PI / 2)%R by lra.
    rewrite cos_PI2, sin_PI2. table_case.
  - exists (-1)%R, 1%R, (sqrt 2).
    replace ((1 + 1 + 1) * (2 * PI / 8))%R with (3 * (PI / 4))%R by lra.
    rewrite cos_3PI4, sin_3PI4. table_case.
  - exists (-1)%R, 0%R, 1%R.
    replace ((1 + 1 + 1 + 1) * (2 * PI / 8))%R with PI by lra.
    rewrite cos_PI, sin_PI. table_case.
  - exists (-1)%R, (-1)%R, (sqrt 2).
    replace ((1 + 1 + 1 + 1 + 1) * (2 * PI / 8))%R with (5 * (PI / 4))%R by lra.
    rewrite cos_5PI4, sin_5PI4. table_case.
  - exists 0%R, (-1)%R, 1%R.
    replace ((1 + 1 + 1 + 1 + 1 + 1) * (2 * PI / 8))%R with (3 * (PI / 2))%R by lra.
    rewrite cos_3PI2, sin_3PI2. table_case.
  - exists 1%R, (-1)%R, (sqrt 2).
    replace ((1 + 1 + 1 + 1 + 1 + 1 + 1) * (2 * PI / 8))%R
      with (3 * (PI / 2) + PI / 4)%R by lra.
    rewrite cos_plus, sin_plus, cos_3PI2, sin_3PI2, cos_PI4, sin_PI4.
    table_case.
Qed.

Lemma frame_window_scale k A B :
  (0 < k)%R → frame_window (k * A) (k * B) ↔ frame_window A B.
Proof.
  intros Hk. unfold frame_window. rewrite Rabs_mult, (Rabs_right k) by lra.
  pose proof sqrt2_bounds as Hb. split; intros [HA HB]; split.
  - apply (Rmult_lt_reg_l k); lra.
  - apply (Rmult_le_reg_l k); lra.
  - apply Rmult_lt_0_compat; lra.
  - apply (Rmult_le_compat_l k) in HB; lra.
Qed.

Lemma beam0_frame_window a b : beam0 a b ↔ frame_window (IZR a) (IZR b).
Proof.
  unfold beam0, frame_window. rewrite <-abs_IZR.
  pose proof sqrt2_bounds as Hb. pose proof sqrt2_sqr as H2.
  assert (0 <= IZR (Z.abs b))%R as HX by (apply IZR_le; lia).
  split; intros [Ha Hw].
  - apply IZR_lt in Ha. apply IZR_le in Hw.
    rewrite !mult_IZR, !plus_IZR in Hw. split; [done|].
    set (X := IZR (Z.abs b)) in *. set (A := IZR a) in *.
    destruct (Rle_dec X ((sqrt 2 - 1) * A)) as [Hle|Hgt]; [done|]. exfalso.
    assert (sqrt 2 * A < X + A)%R as Hlt by lra.
    assert ((sqrt 2 * A) * (sqrt 2 * A) < (X + A) * (X + A))%R as Hsq.
    { apply Rmult_le_0_lt_compat; nra. }
    replace ((sqrt 2 * A) * (sqrt 2 * A))%R with ((sqrt 2 * sqrt 2) * (A * A))%R in Hsq
      by ring.
    rewrite H2 in Hsq. change (IZR 2) with 2%R in Hw. lra.
  - assert (0 < a) as Ha' by (by apply lt_IZR). split; [done|].
    apply le_IZR. rewrite !mult_IZR, !plus_IZR.
    set (X := IZR (Z.abs b)) in *. set (A := IZR a) in *.
    assert ((X + A) * (X + A) <= (sqrt 2 * A) * (sqrt 2 * A))%R as Hsq.
    { apply Rmult_le_compat; lra. }
    replace ((sqrt 2 * A) * (sqrt 2 * A))%R with ((sqrt 2 * sqrt 2) * (A * A))%R in Hsq
      by ring.
    rewrite H2 in Hsq. change (IZR 2) with 2%R. lra.
Qed.

Theorem within_beam_in_window i v :
  (i < 8)%nat → v ≠ (0, 0) → within_beam i v = true ↔ in_window i v.
Proof.
  intros Hi Hv. rewrite within_beam_beam0 by done. rewrite beam0_frame_window.
  destruct v as [dx dy].
  destruct (beam_angle_table i Hi) as (c & s & k & Hc & Hs & Hk & Htab).
  destruct (Htab dx dy) as [-> ->].
  assert (c = k * cos (beam_angle i))%R as Hc' by (rewrite Hc; field; lra).
  assert (s = k * sin (beam_angle i))%R as Hs' by (rewrite Hs; field; lra).
  rewrite Hc', Hs'. clear Hc Hs Hc' Hs' Htab.
  set (φ := beam_angle i).
  replace (k * cos φ * IZR dx + k * sin φ * IZR dy)%R
    with (k * (cos φ * IZR dx + sin φ * IZR dy))%R by ring.
  replace (- (k * sin φ) * IZR dx + k * cos φ * IZR dy)%R
    with (k * (- sin φ * IZR dx + cos φ * IZR dy))%R by ring.
  rewrite frame_window_scale by done. unfold in_window. cbn [fst snd]. fold φ.
  split.
  - intros (r & θ & Hr & Hθ & HA & HB)%frame_window_polar_2.
    exists r, θ. split; [done|]. split; [done|]. by apply rotate_polar.
  - intros (r & θ & Hr & Hθ & Hxy). apply rotate_polar in Hxy as [-> ->].
    by apply frame_window_polar_1.
Qed.

Lemma cos_period_Z x (m : Z) : cos (x + 2 * IZR m * PI) = cos x.
Proof.
  destruct (Z.le_gt_cases 0 m) as [Hm|Hm].
  - rewrite <-(Z2Nat.id m Hm), <-INR_IZR_INZ. apply cos_period.
  - rewrite <-(cos_period (x + 2 * IZR m * PI) (Z.to_nat (- m))).
    rewrite INR_IZR_INZ, Z2Nat.id, opp_IZR by lia. f_equal. ring.
Qed.

Lemma sin_period_Z x (m : Z) : sin (x + 2 * IZR m * PI) = sin x.
Proof.
  destruct (Z.le_gt_cases 0 m) as [Hm|Hm].
  - rewrite <-(Z2Nat.id m Hm), <-INR_IZR_INZ. apply sin_period.
  - rewrite <-(sin_period (x + 2 * IZR m * PI) (Z.to_nat (- m))).
    rewrite INR_IZR_INZ, Z2Nat.id, opp_IZR by lia. f_equal. ring.
Qed.

(** Two angles of the same direction differ by a multiple of [2 pi]. *)
Lemma same_direction x y :
  cos x = cos y → sin x = sin y → ∃ m : Z, (x = y + 2 * IZR m * PI)%R.
Proof.
  intros Hc Hs.
  assert (sin (x - y) = 0)%R as Hs0 by (rewrite sin_minus, Hc, Hs; ring).
  assert (cos (x - y) = 1)%R as Hc1.
  { rewrite cos_minus, Hc, Hs. pose proof (sin2_cos2 y) as H. unfold Rsqr in H. lra. }
  destruct (sin_eq_0_0 _ Hs0) as [k Hk].
  destruct (Z.Even_or_Odd k) as [[m ->]|[m ->]].
  - exists m. rewrite mult_IZR in Hk. lra.
  - exfalso. rewrite Hk, plus_IZR, mult_IZR in Hc1.
    replace ((2 * IZR m + 1) * PI)%R with (PI + 2 * IZR m * PI)%R in Hc1 by ring.
    rewrite cos_period_Z, cos_PI in Hc1. lra.
Qed.

Lemma pymod_range a m : (0 < m → 0 <= pymod a m < m)%R.
Proof.
  intros Hm. unfold pymod. destruct (base_Int_part (a / m)) as [Hlo Hhi].
  assert (a / m * m = a)%R as Ham by (field; lra).
  set (q := (a / m)%R) in *. set (n := IZR (Int_part q)) in *.
  split; nra.
Qed.

Lemma polar_arctan2 x y :
  (x, y) ≠ (0%R, 0%R) →
  ∃ ρ : R, (0 < ρ ∧ x = ρ * cos (arctan2 y x) ∧ y = ρ * sin (arctan2 y x))%R.
Proof.
  intros Hxy. unfold arctan2. pose proof PI_RGT_0 as Hpi.
  pose proof (atan_bound (y / x)) as Hb.
  assert (0 < cos (atan (y / x)))%R as Hcos by (apply cos_gt_0; lra).
  assert (x ≠ 0%R → x * tan (atan (y / x)) = y)%R as Htan.
  { intros Hx. rewrite tan_atan. field. done. }
  destruct (Rlt_dec 0 x) as [Hx|Hx].
  - exists (x / cos (atan (y / x)))%R. split; [by apply Rdiv_lt_0_compat|]. split.
    + field. lra.
    + rewrite <-(Htan ltac:(lra)) at 1. unfold tan. field. lra.
  - destruct (Rlt_dec x 0) as [Hx'|Hx'].
    + exists (- x / cos (atan (y / x)))%R.
      split; [apply Rdiv_lt_0_compat; lra|].
      destruct (Rle_dec 0 y) as [Hy|Hy].
      * rewrite neg_cos, neg_sin. split; [field; lra|].
        rewrite <-(Htan ltac:(lra)) at 1. unfold tan. field. lra.
      * replace (atan (y / x) - PI)%R with (atan (y / x) + PI + 2 * IZR (-1) * PI)%R
          by (simpl; ring).
        rewrite cos_period_Z, sin_period_Z, neg_cos, neg_sin. split; [field; lra|].
        rewrite <-(Htan ltac:(lra)) at 1. unfold tan. field. lra.
    + assert (x = 0)%R as -> by lra.
      destruct (Rlt_dec 0 y) as [Hy|Hy].
      * exists y. rewrite cos_PI2, sin_PI2. split; [done|]. split; ring.
      * destruct (Rlt_dec y 0) as [Hy'|Hy'].
        -- exists (- y)%R. rewrite cos_neg, sin_neg, cos_PI2, sin_PI2.
           split; [lra|]. split; ring.
        -- destruct Hxy. f_equal. lra.
Qed.

Lemma IZR_nonzero (v : Z * Z) : v ≠ (0, 0) → (IZR v.1, IZR v.2) ≠ (0%R, 0%R).
Proof.
  intros Hv Heq. destruct v as [a b]. simpl in Heq.
  inversion Heq as [[Ha Hb]]. apply eq_IZR in Ha, Hb. by subst.
Qed.

Lemma angle_diff_eq i v :
  ∃ n : Z,
    (angle_diff i v = arctan2 (IZR v.2) (IZR v.1) - beam_angle i + 2 * IZR n * PI)%R.
Proof.
  unfold angle_diff, pymod.
  exists (- Int_part ((arctan2 (IZR v.2) (IZR v.1) - beam_angle i + PI) / (2 * PI)))%Z.
  rewrite opp_IZR. ring.
Qed.

Lemma angle_diff_range i v : (- PI <= angle_diff i v < PI)%R.
Proof.
  unfold angle_diff. pose proof PI_RGT_0.
  pose proof (pymod_range (arctan2 (IZR v.2) (IZR v.1) - beam_angle i + PI) (2 * PI)
                ltac:(lra)). lra.
Qed.

(** The window of the source, [abs(angle_diff) <= pi / 8], admits exactly
    the displacements within an eighth of a half turn of the beam. *)
Theorem window_source_in_window i v :
  v ≠ (0, 0) → window_source i v ↔ in_window i v.
Proof.
  intros Hv. pose proof PI_RGT_0 as Hpi.
  destruct (polar_arctan2 _ _ (IZR_nonzero v Hv)) as (ρ & Hρ & Hx & Hy).
  destruct (angle_diff_eq i v) as [n Hn].
  pose proof (angle_diff_range i v) as Hrange.
  set (α := arctan2 (IZR v.2) (IZR v.1)) in *.
  unfold window_source, in_window. split.
  - intros Hw. exists ρ, (angle_diff i v). split; [done|].
    split; [unfold Rabs in Hw; destruct (Rcase_abs (angle_diff i v)); lra|].
    replace (beam_angle i + angle_diff i v)%R with (α + 2 * IZR n * PI)%R
      by (rewrite Hn; ring).
    by rewrite cos_period_Z, sin_period_Z.
  - intros (r & θ & Hr & Hθ & Hx' & Hy').
    set (β := (beam_angle i + θ)%R) in *.
    assert (ρ = r) as ->.
    { pose proof (sin2_cos2 α) as H1. pose proof (sin2_cos2 β) as H2.
      unfold Rsqr in *.
      assert (ρ * ρ = r * r)%R as Hsq.
      { transitivity (IZR v.1 * IZR v.1 + IZR v.2 * IZR v.2)%R.
        - rewrite Hx, Hy. transitivity (ρ * ρ * (sin α * sin α + cos α * cos α))%R;
            [rewrite H1|]; ring.
        - rewrite Hx', Hy'. transitivity (r * r * (sin β * sin β + cos β * cos β))%R;
            [ring|rewrite H2; ring]. }
      nra. }
    assert (cos α = cos β) as Hc.
    { apply (Rmult_eq_reg_l r); [congruence|lra]. }
    assert (sin α = sin β) as Hs.
    { apply (Rmult_eq_reg_l r); [congruence|lra]. }
    destruct (same_direction _ _ Hc Hs) as [m Hm].
    assert (angle_diff i v = θ + 2 * IZR (m + n) * PI)%R as Hd.
    { rewrite Hn, Hm, plus_IZR. unfold β. ring. }
    assert (m + n = 0)%Z as Hz.
    { assert (-1 < IZR (m + n) < 1)%R as [H1 H2] by (split; nra).
      apply lt_IZR in H1, H2. lia. }
    rewrite Hz in Hd. rewrite Hd.
    replace (θ + 2 * 0 * PI)%R with θ by ring.
    apply Rabs_le. lra.
Qed.

Lemma arctan2_origin : arctan2 0 0 = 0%R.
Proof.
  unfold arctan2. repeat (destruct (Rlt_dec _ _); [lra|]). done.
Qed.

(** At the agent's own cell the bearing is [arctan2 0 0 = 0], which only
    the window of beam 0 holds. *)
Lemma window_source_origin i :
  (i < 8)%nat → window_source i (0, 0) ↔ i = 0%nat.
Proof.
  intros Hi. pose proof PI_RGT_0 as Hpi.
  destruct (angle_diff_eq i (0, 0)) as [n Hn].
  pose proof (angle_diff_range i (0, 0)) as Hrange.
  simpl in Hn. rewrite arctan2_origin in Hn.
  unfold window_source, beam_angle in *. rewrite INR_IZR_INZ in Hn.
  set (d := angle_diff i (0, 0)) in *.
  assert (d = (8 * IZR n - IZR (Z.of_nat i)) * (PI / 4))%R as Hd by (rewrite Hn; field).
  rewrite <-mult_IZR, <-minus_IZR in Hd.
  set (k := (8 * n - Z.of_nat i)%Z) in *.
  split.
  - intros Hw.
    assert (- (PI / 8) <= d <= PI / 8)%R as [H1 H2]
      by (unfold Rabs in Hw; destruct (Rcase_abs d); lra).
    assert (-1 < IZR k < 1)%R as [H3 H4] by (split; nra).
    apply lt_IZR in H3, H4. lia.
  - intros ->.
    assert (-8 < IZR k < 8)%R as [H3 H4] by (split; nra).
    apply lt_IZR in H3, H4.
    assert (k = 0) as Hk by lia. rewrite Hk in Hd. rewrite Hd.
    rewrite Rmult_0_l, Rabs_R0. lra.
Qed.

(** The integer test of the model decides the window of the source. *)
Theorem within_beam_window_source i v :
  (i < 8)%nat → within_beam i v = true ↔ window_source i v.
Proof.
  intros Hi. destruct (decide (v = (0, 0))) as [->|Hv].
  - rewrite window_source_origin by done. unfold within_beam.
    rewrite bool_decide_eq_true_2 by done. apply bool_decide_eq_true.
  - rewrite window_source_in_window by done.
    by apply within_beam_in_window.
Qed.

(** [dist_to_obj < min_dist] compares the square roots of the two squared
    norms. *)
Lemma dist_lt_sqrt n m k :
  0 ≤ n → 0 ≤ m →
  dist_lt n (Some (m, k)) = true ↔ (sqrt (IZR n) < sqrt (IZR m))%R.
Proof.
  intros Hn Hm. simpl. rewrite Z.ltb_lt.
  apply IZR_le in Hn, Hm. split.
  - intros H. apply sqrt_lt_1; [done..|]. by apply IZR_lt.
  - intros H. apply lt_IZR. by apply sqrt_lt_0.
Qed.

(** ** What the sensor reports *)

Section Lidar.
Variables (g : Grid) (p : Z * Z).




Lemma lidar_row_first_nearest i c o :
  first_nearest g p i (scan_cells g) c → cells g !! c = Some o →
  lidar_row g (Some p) i =
  Returns (<[entity_index o := SqrtOver (norm2 (vsub c p)) (gwidth g)]> zeros).
Proof.
  intros Hc Ho. rewrite lidar_row_pure.
  by rewrite (scan_first_nearest g p i _ c o Hc Ho).
Qed.

Lemma first_nearest_of_ties i c :
  in_grid g c = true →
  qualifies g p i c = true →
  (∀ c', c' ∈ scan_cells g → qualifies g p i c' = true →
         norm2 (vsub c p) ≤ norm2 (vsub c' p)) →
  (∀ c', c' ∈ scan_cells g → qualifies g p i c' = true →
         norm2 (vsub c' p) = norm2 (vsub c p) → c' = c ∨ scans_before c c') →
  first_nearest g p i (scan_cells g) c.
Proof.
  intros Hin Hq Hleast Htie.
  apply elem_of_scan_cells, list_elem_of_split in Hin as (l1 & l2 & Hl).
  exists l1, l2. split; [done|]. split; [done|].
  split; intros c' Hin' Hq'.
  - assert (c' ∈ scan_cells g) as Hc'.
    { rewrite Hl. apply elem_of_app. by left. }
    pose proof (Hleast c' Hc' Hq') as Hle.
    destruct (decide (norm2 (vsub c' p) = norm2 (vsub c p))) as [Heq|Hne]; [|lia].
    assert (scans_before c' c) as Hbefore.
    { pose proof (scan_cells_sorted g) as Hs. rewrite Hl in Hs.
      apply (StronglySorted_app_1_elem_of _ _ _ _ _ Hs Hin'). by left. }
    destruct (Htie c' Hc' Hq' Heq) as [->|Hafter];
      unfold scans_before in *; lia.
  - apply Hleast; [|done]. rewrite Hl. apply elem_of_app. right. by right.
Qed.

(** C6, as the code has it: the enumeration that breaks the ties goes
    column by column, not row by row.  When the object on [c] is within
    beam [i] at the least distance
    of the qualifying objects, and every other qualifying object at that
    same distance comes after [c] in the enumeration of the cells (the
    two nested loops, [x] outer and [y] inner: the order of the index
    pairs [(x, y)]), beam [i] encodes the kind of the object on [c]: its
    row is zero except for the slot of that kind, which holds the
    distance over the grid width. *)
Theorem first_in_scan_wins_ties i c o :
  in_grid g c = true →
  cells g !! c = Some o →
  within_beam i (vsub c p) = true →
  (∀ c', c' ∈ scan_cells g → qualifies g p i c' = true →
         norm2 (vsub c p) ≤ norm2 (vsub c' p)) →
  (∀ c', c' ∈ scan_cells g → qualifies g p i c' = true →
         norm2 (vsub c' p) = norm2 (vsub c p) → c' = c ∨ scans_before c c') →
  get_entity_index o = Some (entity_index o) ∧
  lidar_row g (Some p) i =
  Returns (<[entity_index o := SqrtOver (norm2 (vsub c p)) (gwidth g)]> zeros).
Proof.
  intros Hin Ho Hbeam Hleast Htie. split.
  { unfold entity_index. by destruct (get_entity_index_total o) as (k & -> & _). }
  apply lidar_row_first_nearest; [|done].
  apply first_nearest_of_ties; [done| |done..].
  unfold qualifies. rewrite Hbeam, bool_decide_true; [done|by eexists].
Qed.

End Lidar.

Section LidarFront.
Variables (g : Grid) (p : Z * Z).





End LidarFront.

Lemma Forall_decided {A} (P : A → Prop) `{!∀ x, Decision (P x)} (l : list A) :
  bool_decide (Forall P l) = true → ∀ x, x ∈ l → P x.
Proof. intros Hall%bool_decide_eq_true. by apply Forall_forall. Defined.

Lemma first_in_scan_wins_ties_witness :
  qualifies Demo.tie_grid (1, 1) 1 (5, 4) = true ∧
  norm2 (vsub (5, 4) (1, 1)) = norm2 (vsub (4, 5) (1, 1)) ∧
  lidar_row Demo.tie_grid (Some (1, 1)) 1 = Returns (<[4%nat := SqrtOver 25 12]> zeros).
Proof.
  split; [vm_compute; reflexivity|]. split; [vm_compute; reflexivity|].
  refine (proj2 (first_in_scan_wins_ties Demo.tie_grid (1, 1) 1 (4, 5)
                   (Resource "green" Tree) _ _ _ _ _)).
  - vm_compute. reflexivity.
  - vm_compute. reflexivity.
  - vm_compute. reflexivity.
  - apply (Forall_decided
             (λ c', qualifies Demo.tie_grid (1, 1) 1 c' = true →
                    norm2 (vsub (4, 5) (1, 1)) ≤ norm2 (vsub c' (1, 1)))).
    vm_compute. reflexivity.
  - apply (Forall_decided
             (λ c', qualifies Demo.tie_grid (1, 1) 1 c' = true →
                    norm2 (vsub c' (1, 1)) = norm2 (vsub (4, 5) (1, 1)) →
                    c' = (4, 5) ∨ scans_before (4, 5) c')).
    vm_compute. reflexivity.
Defined.

(** C6 as it is stated fails.  Seen from (1, 1), the chest on (5, 4)
    and the tree on (4, 5) are within beam 1 at the same least distance
    5, and of the two the chest comes first in a row-major enumeration
    (its row is [y = 4]); yet beam 1 does not encode the chest: the
    scan meets the column [x = 4] first and encodes the tree. *)
Lemma row_major_first_loses_tie :
  in_grid Demo.tie_grid (5, 4) = true ∧
  cells Demo.tie_grid !! (5, 4) = Some (Box "purple") ∧
  within_beam 1 (vsub (5, 4) (1, 1)) = true ∧
  (∀ c', c' ∈ scan_cells Demo.tie_grid → qualifies Demo.tie_grid (1, 1) 1 c' = true →
         norm2 (vsub (5, 4) (1, 1)) ≤ norm2 (vsub c' (1, 1))) ∧
  (∀ c', c' ∈ scan_cells Demo.tie_grid → qualifies Demo.tie_grid (1, 1) 1 c' = true →
         norm2 (vsub c' (1, 1)) = norm2 (vsub (5, 4) (1, 1)) →
         c' = (5, 4) ∨ row_major_before (5, 4) c') ∧
  (lidar_row Demo.tie_grid (Some (1, 1)) 1 ≠
     Returns (<[entity_index (Box "purple") := SqrtOver (norm2 (vsub (5, 4) (1, 1)))
                                                 (gwidth Demo.tie_grid)]> zeros)) ∧
  lidar_row Demo.tie_grid (Some (1, 1)) 1 =
    Returns (<[entity_index (Resource "green" Tree) :=
                 SqrtOver (norm2 (vsub (4, 5) (1, 1))) (gwidth Demo.tie_grid)]> zeros).
Proof.
  split; [vm_compute; reflexivity|].
  split; [vm_compute; reflexivity|]. split; [vm_compute; reflexivity|].
  split.
  { apply (Forall_decided
             (λ c', qualifies Demo.tie_grid (1, 1) 1 c' = true →
                    norm2 (vsub (5, 4) (1, 1)) ≤ norm2 (vsub c' (1, 1)))).
    vm_compute. reflexivity. }
  split.
  { apply (Forall_decided
             (λ c', qualifies Demo.tie_grid (1, 1) 1 c' = true →
                    norm2 (vsub c' (1, 1)) = norm2 (vsub (5, 4) (1, 1)) →
                    c' = (5, 4) ∨ row_major_before (5, 4) c')).
    vm_compute. reflexivity. }
  split; [|vm_compute; reflexivity].
  intros Heq. vm_compute in Heq. discriminate Heq.
Qed.




(** * Further properties of the code *)

(** ** get_entity_index *)

(** X1 (get_entity_index): the lookup never raises [ValueError].  A
    resource gets one of the first five indices, the one of its own
    name, and two resources share an index only if they are of the same
    kind; a purple box gets the index of the chest (5) and a box of any
    other colour that of the crafting table (6); every other object
    gets the index of the wall (7). *)
Theorem get_entity_index_classifies :
  (∀ color kind, ∃ k,
     get_entity_index (Resource color kind) = Some k ∧ (k < 5)%nat ∧
     resource_names !! k = Some (resource_name kind)) ∧
  (∀ color kind color' kind',
     get_entity_index (Resource color kind) = get_entity_index (Resource color' kind') →
     kind = kind') ∧
  (∀ color, get_entity_index (Box color) =
            Some (if decide (color = "purple") then 5%nat else 6%nat)) ∧
  get_entity_index Wall = Some 7%nat ∧ get_entity_index Floor = Some 7%nat.
Proof.
  split; [|split; [|split; [|split]]].
  - intros color kind. destruct kind; eexists; (split; [reflexivity|]); split;
      (lia || reflexivity).
  - intros color kind color' kind'. by destruct kind, kind'.
  - intros color. simpl. by destruct (decide (color = "purple")).
  - reflexivity.
  - reflexivity.
Qed.

(** ** get_inventory_observation *)

(** X2 (get_inventory_observation): for every ledger, the vector has
    one entry per name of [resource_names], in that order, and the entry
    is the number of occurrences of the name in the ledger. *)
Theorem inventory_observation_counts inv :
  get_inventory_observation inv =
  (λ name, Z.of_nat (count name inv)) <$> resource_names.
Proof.
  apply list_eq. intros i. rewrite list_lookup_fmap.
  destruct (resource_names !! i) as [name|] eqn:Hi.
  - by rewrite (inventory_obs_lookup inv i name Hi).
  - apply lookup_ge_None. rewrite inventory_obs_length.
    by apply lookup_ge_None in Hi.
Qed.

Lemma inventory_obs_hides inv1 inv2 x :
  x ∉ resource_names →
  get_inventory_observation (inv1 ++ x :: inv2) = get_inventory_observation (inv1 ++ inv2).
Proof.
  intros Hx. apply list_eq. intros i.
  destruct (resource_names !! i) as [name|] eqn:Hi.
  - rewrite !(inventory_obs_lookup _ i name Hi). do 2 f_equal.
    rewrite !count_app, count_cons, decide_False; [done|].
    intros ->. apply Hx. by eapply list_elem_of_lookup_2.
  - transitivity (@None Z); [|symmetry]; apply lookup_ge_None;
      rewrite inventory_obs_length; by apply lookup_ge_None in Hi.
Qed.

(** X3 (get_inventory_observation): an item whose name is not in
    [resource_names], such as the sword or the treasure, does not show
    in the observation, wherever it stands in the ledger. *)
Theorem inventory_observation_hides_item inv1 inv2 x :
  x ∉ resource_names →
  get_inventory_observation (inv1 ++ x :: inv2) = get_inventory_observation (inv1 ++ inv2).
Proof. apply inventory_obs_hides. Qed.

Lemma inventory_observation_hides_item_witness :
  ("Iron Sword" ∉ resource_names) ∧
  get_inventory_observation (["Gold Ore"] ++ "Iron Sword" :: ["Treasure"]) =
  get_inventory_observation (["Gold Ore"] ++ ["Treasure"]).
Proof.
  split; [apply sword_not_resource|].
  apply (inventory_observation_hides_item ["Gold Ore"] ["Treasure"] "Iron Sword").
  apply sword_not_resource.
Defined.

(** ** get_obs and get_lidar_observation: shape and failure *)

Lemma row_of_length g acc : length (row_of g acc) = 8%nat.
Proof. destruct acc as [[n k]|]; simpl; [by rewrite length_insert|done]. Qed.

Lemma filter_nonzero_replicate m :
  filter (λ x, nonzero x = true) (replicate m Zero) = [].
Proof. induction m as [|m IH]; [done|]. simpl. by rewrite filter_cons_False. Qed.

Lemma row_of_one_hot g acc :
  (length (filter (λ x, nonzero x = true) (row_of g acc)) ≤ 1)%nat.
Proof.
  destruct acc as [[n k]|]; unfold row_of, zeros;
    [|rewrite filter_nonzero_replicate; simpl; lia].
  destruct (decide (k < 8)%nat) as [Hk|Hk].
  - rewrite insert_take_drop by (by rewrite length_replicate).
    rewrite take_replicate, drop_replicate, filter_app, filter_cons.
    rewrite !filter_nonzero_replicate. destruct (decide _); simpl; lia.
  - rewrite list_insert_ge by (rewrite length_replicate; lia).
    rewrite filter_nonzero_replicate. simpl. lia.
Qed.

(** X4 (get_obs): once the agent has a position the observation is
    always returned, whatever the grid and the ledger hold, and it has
    the 64 entries of the lidar block followed by the 8 entries of the
    inventory block. *)
Theorem get_obs_shape {Aux} (s : SimpleEnv Aux) p :
  agent_pos (base s) = Some p →
  ∃ obs, get_obs s = Returns obs ∧
         length (obs_lidar obs) = 64%nat ∧ length (obs_inventory obs) = 8%nat.
Proof.
  intros Hp. unfold get_obs. rewrite Hp, get_lidar_observation_pure. simpl.
  eexists. split; [reflexivity|]. simpl. split; [|apply inventory_obs_length].
  rewrite !length_app, !row_of_length. reflexivity.
Qed.

(** X5 (get_lidar_observation): each of the eight rows of the scan has
    eight entries, of which at most one is not zero. *)
Theorem lidar_rows_one_hot g p :
  ∃ rows, get_lidar_observation g (Some p) = Returns rows ∧ length rows = 8%nat ∧
    Forall (λ row, length row = 8%nat ∧
                   (length (filter (λ x, nonzero x = true) row) ≤ 1)%nat) rows.
Proof.
  rewrite get_lidar_observation_pure. eexists. split; [reflexivity|].
  split; [by rewrite length_fmap|].
  apply Forall_fmap, Forall_forall. intros i _. simpl.
  split; [apply row_of_length|apply row_of_one_hot].
Qed.

Lemma scan_cell_unplaced g i acc c :
  in_grid g c = true →
  scan_cell g None i acc c =
  match cells g !! c with
  | Some _ => Raises TypeError
  | None => Returns acc
  end.
Proof. intros Hin. unfold scan_cell, grid_get. rewrite Hin. by destruct (cells g !! c). Qed.

Lemma scan_unplaced g i l acc :
  (∀ c, c ∈ l → in_grid g c = true) →
  foldM (scan_cell g None i) acc l =
  if bool_decide (Exists (λ c, is_Some (cells g !! c)) l) then Raises TypeError
  else Returns acc.
Proof.
  induction l as [|c l IH]; intros Hin.
  - cbn [foldM]. case_bool_decide as H; [by apply Exists_nil in H|done].
  - cbn [foldM]. rewrite scan_cell_unplaced by (apply Hin; by left).
    destruct (cells g !! c) as [o|] eqn:Hc.
    + rewrite bool_decide_eq_true_2; [done|]. left. by rewrite Hc.
    + change (foldM (scan_cell g None i) acc l =
              if bool_decide (Exists (λ c, is_Some (cells g !! c)) (c :: l))
              then Raises TypeError else Returns acc).
      rewrite IH by (intros; apply Hin; by right).
      apply (f_equal (λ b : bool, if b then _ else _)).
      apply bool_decide_ext. rewrite Exists_cons, Hc.
      split; [by right|]. by intros [[? [=]]|?].
Qed.

(** X6 (get_obs): before the agent has a position, observing a grid
    that holds an object raises [TypeError], and observing an empty grid
    returns the all-zero lidar block. *)
Theorem get_obs_unplaced {Aux} (s : SimpleEnv Aux) :
  agent_pos (base s) = None →
  get_obs s =
  if bool_decide (Exists (λ c, is_Some (cells (grid (base s)) !! c))
                    (scan_cells (grid (base s))))
  then Raises TypeError
  else Returns (mkObs (replicate 64 Zero) (get_inventory_observation (inventory s))).
Proof.
  intros Hp. unfold get_obs, get_lidar_observation, lidar_row. rewrite Hp.
  set (g := grid (base s)).
  assert (∀ i, foldM (scan_cell g None i) None (scan_cells g) =
               if bool_decide (Exists (λ c, is_Some (cells g !! c)) (scan_cells g))
               then Raises TypeError else Returns None) as Hrow.
  { intros i. apply scan_unplaced. intros c. by rewrite elem_of_scan_cells. }
  destruct (bool_decide _) eqn:Hany.
  - simpl. rewrite (Hrow 0%nat). reflexivity.
  - simpl. rewrite !Hrow. reflexivity.
Qed.

Lemma get_obs_shape_witness :
  agent_pos (base Demo.at_tree) = Some (5, 2) ∧
  ∃ obs, get_obs Demo.at_tree = Returns obs ∧
         length (obs_lidar obs) = 64%nat ∧ length (obs_inventory obs) = 8%nat.
Proof.
  split; [vm_compute; reflexivity|].
  apply (get_obs_shape Demo.at_tree (5, 2)). vm_compute. reflexivity.
Defined.

Lemma get_obs_unplaced_witness :
  agent_pos (base Demo.fresh) = None ∧
  get_obs Demo.fresh = Returns (mkObs (replicate 64 Zero) (replicate 8 0)).
Proof.
  split; [vm_compute; reflexivity|].
  refine (eq_trans (get_obs_unplaced Demo.fresh _) _); vm_compute; reflexivity.
Defined.

(** ** The eight beams *)

Ltac beam_pick i :=
  exists i; split; [lia|];
  cbn [turn_back]; apply andb_true_iff; split; [apply Z.ltb_lt|apply Z.leb_le]; nia.

Lemma beam_exists v : v ≠ (0, 0) → ∃ i, (i < 8)%nat ∧ within_beam i v = true.
Proof.
  destruct v as [dx dy]. intros Hv. unfold within_beam.
  rewrite bool_decide_eq_false_2 by done.
  assert (dx ≠ 0 ∨ dy ≠ 0) as Hnz.
  { destruct (decide (dx = 0)) as [->|]; [|by left].
    right. intros ->. by apply Hv. }
  destruct (Z_lt_le_dec dx 0) as [Hx|Hx], (Z_lt_le_dec dy 0) as [Hy|Hy],
           (Z_lt_le_dec (Z.abs dx) (Z.abs dy)) as [Hxy|Hxy].
  - (* dx < 0, dy < 0, |dx| < |dy| : beams 6 and 5 *)
    destruct (Z_le_gt_dec ((Z.abs dx + - dy) * (Z.abs dx + - dy)) (2 * - dy * - dy));
      [beam_pick 6%nat|beam_pick 5%nat].
  - destruct (Z_le_gt_dec ((Z.abs dy + - dx) * (Z.abs dy + - dx)) (2 * - dx * - dx));
      [beam_pick 4%nat|beam_pick 5%nat].
  - destruct (Z_le_gt_dec ((Z.abs dx + dy) * (Z.abs dx + dy)) (2 * dy * dy));
      [beam_pick 2%nat|beam_pick 3%nat].
  - destruct (Z_le_gt_dec ((Z.abs dy + - dx) * (Z.abs dy + - dx)) (2 * - dx * - dx));
      [beam_pick 4%nat|beam_pick 3%nat].
  - destruct (Z_le_gt_dec ((Z.abs dx + - dy) * (Z.abs dx + - dy)) (2 * - dy * - dy));
      [beam_pick 6%nat|beam_pick 7%nat].
  - destruct (Z_le_gt_dec ((Z.abs dy + dx) * (Z.abs dy + dx)) (2 * dx * dx));
      [beam_pick 0%nat|beam_pick 7%nat].
  - destruct (Z_le_gt_dec ((Z.abs dx + dy) * (Z.abs dx + dy)) (2 * dy * dy));
      [beam_pick 2%nat|beam_pick 1%nat].
  - destruct (Z_le_gt_dec ((Z.abs dy + dx) * (Z.abs dy + dx)) (2 * dx * dx));
      [beam_pick 0%nat|beam_pick 1%nat].
Qed.

(** X7 (get_lidar_observation): the eight angular windows
    [abs(angle_diff) <= pi / 8] partition the displacements: every cell
    other than the agent's own lies in the window of exactly one beam. *)
Theorem beams_partition v :
  v ≠ (0, 0) →
  ∃ i, (i < 8)%nat ∧ within_beam i v = true ∧
       ∀ j, (j < 8)%nat → within_beam j v = true → j = i.
Proof.
  intros Hv. destruct (beam_exists v Hv) as (i & Hi & Hbeam).
  exists i. split; [done|]. split; [done|].
  intros j Hj Hbeam'. by apply (beams_disjoint v).
Qed.

Lemma beams_partition_witness :
  (3, -7) ≠ (0, 0) ∧
  ∃ i, (i < 8)%nat ∧ within_beam i (3, -7) = true ∧
       ∀ j, (j < 8)%nat → within_beam j (3, -7) = true → j = i.
Proof.
  split; [discriminate|]. apply (beams_partition (3, -7)). discriminate.
Defined.

(** ** What the scan reports *)

Lemma qualifying_cell_reports g p i c :
  c ∈ scan_cells g → qualifies g p i c = true →
  ∃ c0 o0, first_nearest g p i (scan_cells g) c0 ∧ cells g !! c0 = Some o0 ∧
           norm2 (vsub c0 p) ≤ norm2 (vsub c p) ∧
           lidar_row g (Some p) i =
           Returns (<[entity_index o0 := SqrtOver (norm2 (vsub c0 p)) (gwidth g)]> zeros).
Proof.
  intros Hc Hq.
  destruct (first_nearest_exists g p i (scan_cells g)) as [c0 Hc0]; [by exists c|].
  pose proof (first_nearest_qualifies g p i _ _ Hc0) as Hq0.
  unfold qualifies in Hq0. apply andb_true_iff in Hq0 as [[o0 Ho0]%bool_decide_eq_true _].
  exists c0, o0. split; [done|]. split; [done|].
  split; [by apply (first_nearest_least g p i (scan_cells g))|].
  by apply lidar_row_first_nearest.
Qed.

Lemma entity_index_lt o : (entity_index o < 8)%nat.
Proof.
  unfold entity_index. destruct (get_entity_index_total o) as (k & -> & Hk). done.
Qed.

Lemma norm2_pos v : v ≠ (0, 0) → 0 < norm2 v.
Proof.
  destruct v as [a b]. intros Hv. unfold norm2. simpl.
  destruct (decide (a = 0)) as [->|]; [|nia].
  destruct (decide (b = 0)) as [->|]; [done|nia].
Qed.

Lemma norm2_nonneg v : 0 ≤ norm2 v.
Proof. destruct v as [a b]. unfold norm2. simpl. nia. Qed.

Lemma vsub_null c p : vsub c p = (0, 0) → c = p.
Proof.
  destruct c, p. unfold vsub. simpl. intros [= ? ?]. f_equal; lia.
Qed.

(** X8 (get_lidar_observation): the object nearest to the agent is
    always reported: if no object of the grid is closer to the agent
    than the one on the cell [c], one of the eight rows holds the
    distance of [c] divided by the grid width. *)
Theorem nearest_object_is_seen g p c o :
  in_grid g c = true → cells g !! c = Some o → c ≠ p →
  (∀ c', in_grid g c' = true → is_Some (cells g !! c') →
         norm2 (vsub c p) ≤ norm2 (vsub c' p)) →
  ∃ i k, (i < 8)%nat ∧ (k < 8)%nat ∧
    lidar_row g (Some p) i =
    Returns (<[k := SqrtOver (norm2 (vsub c p)) (gwidth g)]> zeros).
Proof.
  intros Hin Ho Hne Hleast.
  assert (vsub c p ≠ (0, 0)) as Hv by (by intros ?%vsub_null).
  destruct (beam_exists _ Hv) as (i & Hi & Hbeam).
  assert (qualifies g p i c = true) as Hq.
  { unfold qualifies. rewrite Hbeam, bool_decide_eq_true_2; [done|by rewrite Ho]. }
  destruct (qualifying_cell_reports g p i c) as (c0 & o0 & Hc0 & Ho0 & Hle & Hrow);
    [by apply elem_of_scan_cells|done|].
  assert (norm2 (vsub c0 p) = norm2 (vsub c p)) as Heq.
  { apply Z.le_antisymm; [done|]. apply Hleast; [|by rewrite Ho0].
    destruct Hc0 as (l1 & l2 & Hl & _).
    apply elem_of_scan_cells. rewrite Hl. apply elem_of_app. right. by left. }
  exists i, (entity_index o0). split; [done|]. split; [apply entity_index_lt|].
  by rewrite <-Heq.
Qed.

Lemma border_cell_in_beam g (p : Z * Z) i :
  (i < 8)%nat →
  0 < p.1 < gwidth g - 1 → 0 < p.2 < gheight g - 1 →
  ∃ c, in_grid g c = true ∧
       (c.1 = 0 ∨ c.1 = gwidth g - 1 ∨ c.2 = 0 ∨ c.2 = gheight g - 1) ∧
       within_beam i (vsub c p) = true.
Proof.
  destruct p as [px py]. simpl. intros Hi Hx Hy.
  set (w := gwidth g) in *. set (h := gheight g) in *.
  assert (∀ c : Z * Z, 0 ≤ c.1 < w → 0 ≤ c.2 < h → in_grid g c = true) as Hgrid.
  { intros c ? ?. unfold in_grid. fold w h.
    repeat (apply andb_true_intro; split); lia. }
  assert (∀ j a b, (a, b) ≠ (0, 0) →
            0 < (turn_back j (a, b)).1 →
            (Z.abs (turn_back j (a, b)).2 + (turn_back j (a, b)).1) *
            (Z.abs (turn_back j (a, b)).2 + (turn_back j (a, b)).1)
            ≤ 2 * (turn_back j (a, b)).1 * (turn_back j (a, b)).1 →
            within_beam j (a, b) = true) as Hbeam.
  { intros j a b Hab H1 H2. unfold within_beam.
    rewrite bool_decide_eq_false_2 by done.
    destruct (turn_back j (a, b)) as [a' b']. simpl in *.
    apply andb_true_intro. split; [by apply Z.ltb_lt|by apply Z.leb_le]. }
  assert (∀ a b : Z, a ≠ 0 ∨ b ≠ 0 → (a, b) ≠ (0, 0)) as Hnz.
  { intros a b [?|?] [= ? ?]; done. }
  destruct i as [|[|[|[|[|[|[|[|i]]]]]]]]; [..|lia].
  - exists (w - 1, py). split; [apply Hgrid; simpl; lia|]. split; [simpl; lia|].
    unfold vsub; cbn [fst snd]; apply Hbeam; [apply Hnz; lia|simpl; lia|simpl; nia].
  - set (t := Z.min (w - 1 - px) (h - 1 - py)).
    exists (px + t, py + t). split; [apply Hgrid; simpl; lia|]. split; [simpl; lia|].
    unfold vsub; cbn [fst snd]; apply Hbeam; [apply Hnz; lia|simpl; lia|simpl; nia].
  - exists (px, h - 1). split; [apply Hgrid; simpl; lia|]. split; [simpl; lia|].
    unfold vsub; cbn [fst snd]; apply Hbeam; [apply Hnz; lia|simpl; lia|simpl; nia].
  - set (t := Z.min px (h - 1 - py)).
    exists (px - t, py + t). split; [apply Hgrid; simpl; lia|]. split; [simpl; lia|].
    unfold vsub; cbn [fst snd]; apply Hbeam; [apply Hnz; lia|simpl; lia|simpl; nia].
  - exists (0, py). split; [apply Hgrid; simpl; lia|]. split; [simpl; lia|].
    unfold vsub; cbn [fst snd]; apply Hbeam; [apply Hnz; lia|simpl; lia|simpl; nia].
  - set (t := Z.min px py).
    exists (px - t, py - t). split; [apply Hgrid; simpl; lia|]. split; [simpl; lia|].
    unfold vsub; cbn [fst snd]; apply Hbeam; [apply Hnz; lia|simpl; lia|simpl; nia].
  - exists (px, 0). split; [apply Hgrid; simpl; lia|]. split; [simpl; lia|].
    unfold vsub; cbn [fst snd]; apply Hbeam; [apply Hnz; lia|simpl; lia|simpl; nia].
  - set (t := Z.min (w - 1 - px) py).
    exists (px + t, py - t). split; [apply Hgrid; simpl; lia|]. split; [simpl; lia|].
    unfold vsub; cbn [fst snd]; apply Hbeam; [apply Hnz; lia|simpl; lia|simpl; nia].
Qed.

(** X9 (get_lidar_observation): in a grid whose border cells all hold
    an object (the wall of [_gen_grid]), an agent on a free cell
    strictly inside gets a reading in every one of the eight beams: each
    row has exactly one entry that is not zero. *)
Theorem walled_room_every_beam_reports g (p : Z * Z) i :
  (i < 8)%nat →
  0 < p.1 < gwidth g - 1 → 0 < p.2 < gheight g - 1 →
  (∀ c, in_grid g c = true →
        c.1 = 0 ∨ c.1 = gwidth g - 1 ∨ c.2 = 0 ∨ c.2 = gheight g - 1 →
        is_Some (cells g !! c)) →
  cells g !! p = None →
  ∃ k n, (k < 8)%nat ∧ 0 < n ∧
    lidar_row g (Some p) i = Returns (<[k := SqrtOver n (gwidth g)]> zeros).
Proof.
  intros Hi Hx Hy Hborder Hfree.
  destruct (border_cell_in_beam g p i Hi Hx Hy) as (c & Hin & Hedge & Hbeam).
  assert (qualifies g p i c = true) as Hq.
  { unfold qualifies. rewrite Hbeam, bool_decide_eq_true_2; [done|by apply Hborder]. }
  destruct (qualifying_cell_reports g p i c) as (c0 & o0 & Hc0 & Ho0 & _ & Hrow);
    [by apply elem_of_scan_cells|done|].
  exists (entity_index o0), (norm2 (vsub c0 p)).
  split; [apply entity_index_lt|]. split; [|done].
  apply norm2_pos. intros ->%vsub_null. congruence.
Qed.

(** X10 (get_lidar_observation): an object on the agent's own cell has
    bearing [arctan2(0, 0) = 0] and distance 0: it takes beam 0, where
    nothing can be strictly closer, and the row of beam 0 then holds
    [0 / width] in the slot of that object and no entry that is not
    zero, whatever else lies in the beam. *)
Theorem object_underfoot_masks_beam0 g p o :
  in_grid g p = true → cells g !! p = Some o →
  lidar_row g (Some p) 0 = Returns (<[entity_index o := SqrtOver 0 (gwidth g)]> zeros) ∧
  filter (λ x, nonzero x = true) (<[entity_index o := SqrtOver 0 (gwidth g)]> zeros) = [].
Proof.
  intros Hin Ho.
  assert (vsub p p = (0, 0)) as Hpp by (unfold vsub; by rewrite !Z.sub_diag).
  split.
  - replace 0 with (norm2 (vsub p p)) at 1 by (by rewrite Hpp).
    apply lidar_row_first_nearest; [|done].
    apply first_nearest_of_ties; [done| | |].
    + unfold qualifies. rewrite Hpp, bool_decide_eq_true_2 by (by rewrite Ho). done.
    + intros c' _ _. rewrite Hpp. apply (norm2_nonneg (vsub c' p)).
    + intros c' _ _ Heq. left. rewrite Hpp in Heq.
      apply vsub_null. destruct (decide (vsub c' p = (0, 0))) as [|Hne]; [done|].
      apply norm2_pos in Hne. unfold norm2 in Heq at 2. simpl in Heq. lia.
  - unfold zeros. pose proof (entity_index_lt o) as Hk.
    rewrite insert_take_drop by (by rewrite length_replicate).
    rewrite take_replicate, drop_replicate, filter_app, filter_cons_False by done.
    by rewrite !filter_nonzero_replicate.
Qed.

(** ** The ledger over a run *)

Section Ledger.
Context {Aux : Type} {E : Engine Aux}.
Implicit Types s : SimpleEnv Aux.

Lemma run_invariant (P : SimpleEnv Aux → Prop) cs s :
  (∀ c s, P s → P (perform c s).1) → P s → P (run cs s).
Proof.
  intros Hstep. revert s. induction cs as [|c cs IH]; intros s HP; [done|]. simpl.
  pose proof (Hstep c s HP) as Hc.
  destruct (perform c s) as [s' alive]. simpl in Hc.
  destruct alive; [by apply IH | done].
Qed.

Lemma elem_of_list_remove x y l : x ∈ list_remove y l → x ∈ l.
Proof.
  induction l as [|z l IH]; [done|]. simpl.
  destruct (decide (y = z)) as [->|Hne]; [by right|].
  intros [->|Hin]%elem_of_cons; [by left|]. right. by apply IH.
Qed.

Lemma resource_name_in_ledger_names kind : resource_name kind ∈ ledger_names.
Proof. destruct kind; apply (bool_decide_unpack _); by vm_compute. Qed.

Lemma tidy_init (e0 : MiniGridEnv Aux) start_pos start_dir max_reward :
  tidy (init e0 start_pos start_dir max_reward).
Proof.
  unfold tidy. simpl. split; [done|]. split; [rewrite count_nil; lia|].
  split; [by intros ?%elem_of_nil | by intros x ?%elem_of_nil].
Qed.

Lemma tidy_reset seed s : tidy s → tidy (reset seed s).1.
Proof.
  intros Ht. pose proof (reset_own seed s) as Hown. unfold own in Hown.
  destruct (np_random seed (aux (base s)));
    injection Hown as _ _ Hrec Hflag Hinv; unfold tidy; rewrite Hflag, Hinv;
    [|done..].
  split; [done|]. split; [rewrite count_nil; lia|].
  split; [by intros ?%elem_of_nil | by intros x ?%elem_of_nil].
Qed.

Lemma tidy_step action s : gated s → tidy s → tidy (step action s).1.
Proof.
  intros [_ Hnosword] (Hflag & Hone & Htreasure & Hnames).
  destruct (step_effect action s)
    as [Hown|[[Hc Hown]|[[Hin Hown]|(pos & kind & Hnew & Hown)]]];
    unfold own in Hown; injection Hown as _ _ Hrec Hfl Hinv;
    unfold tidy; rewrite Hfl, Hinv; clear Hrec Hfl Hinv.
  - done.
  - destruct Hc as (_ & _ & _ & Hfalse). specialize (Hnosword Hfalse).
    assert (count "Iron Sword" (inventory s) = 0%nat) as Hzero.
    { destruct (count "Iron Sword" (inventory s)) eqn:Hcnt; [done|].
      destruct Hnosword. apply count_pos. lia. }
    simpl. split; [intros _; apply elem_of_app; right; by left|].
    split.
    { rewrite count_app, !count_remove_ne, Hzero by done. by vm_compute. }
    split; [intros _; apply elem_of_app; right; by left|].
    intros x [Hx|Hx%list_elem_of_singleton]%elem_of_app.
    + by apply Hnames, (elem_of_list_remove x "Tree"),
        (elem_of_list_remove x "Iron Ore").
    + subst x. apply (bool_decide_unpack _). by vm_compute.
  - simpl. split; [intros Hs; apply elem_of_app; left; by apply Hflag|].
    split; [rewrite count_app, count_single_ne by done; lia|].
    split; [intros _; apply elem_of_app; by left|].
    intros x [Hx|Hx%list_elem_of_singleton]%elem_of_app; [by apply Hnames|].
    subst x. apply (bool_decide_unpack _). by vm_compute.
  - simpl.
    assert (resource_name kind ≠ "Iron Sword") as Hne1 by (by destruct kind).
    assert (resource_name kind ≠ "Treasure") as Hne2 by (by destruct kind).
    split; [intros Hs; apply elem_of_app; left; by apply Hflag|].
    split; [rewrite count_app, count_single_ne by done; lia|].
    split.
    + intros [Hx|Hx%list_elem_of_singleton]%elem_of_app; [|done].
      apply elem_of_app. left. by apply Htreasure.
    + intros x [Hx|Hx%list_elem_of_singleton]%elem_of_app; [by apply Hnames|].
      subst x. apply resource_name_in_ledger_names.
Qed.

Lemma gated_tidy_perform c s :
  gated s ∧ tidy s → gated (perform c s).1 ∧ tidy (perform c s).1.
Proof.
  intros [Hg Ht]. split; [by apply gated_perform|].
  destruct c as [seed|action]; simpl.
  - pose proof (tidy_reset seed s Ht). by destruct (reset seed s).
  - pose proof (tidy_step action s Hg Ht). by destruct (step action s).
Qed.

Lemma run_gated_tidy cs (e0 : MiniGridEnv Aux) start_pos start_dir max_reward :
  gated (run cs (init e0 start_pos start_dir max_reward)) ∧
  tidy (run cs (init e0 start_pos start_dir max_reward)).
Proof.
  apply (run_invariant (λ s, gated s ∧ tidy s)); [apply gated_tidy_perform|].
  split; [apply gated_init|apply tidy_init].
Qed.

(** X11 (step, reset): in every state a process reaches, the sword flag
    is set exactly when the ledger holds the sword, the ledger holds at
    most one sword, and it holds a treasure only together with the
    sword. *)
Theorem sword_flag_matches_ledger cs (e0 : MiniGridEnv Aux) start_pos start_dir
    max_reward :
  let s := run cs (init e0 start_pos start_dir max_reward) in
  (sword_crafted s = true ↔ "Iron Sword" ∈ inventory s) ∧
  (count "Iron Sword" (inventory s) ≤ 1)%nat ∧
  ("Treasure" ∈ inventory s → "Iron Sword" ∈ inventory s).
Proof.
  intros s.
  destruct (run_gated_tidy cs e0 start_pos start_dir max_reward)
    as [[_ Hnosword] (Hflag & Hone & Htreasure & _)].
  fold s in Hnosword, Hflag, Hone, Htreasure.
  split; [|done]. split; [done|].
  intros Hin. destruct (sword_crafted s) eqn:Hs; [done|]. by destruct Hnosword.
Qed.

(** X12 (step, get_inventory_observation): in every state a process
    reaches, the ledger holds nothing but names of the five kinds, the
    sword and the treasure; the entries of the inventory observation
    for the chest, the crafting table and the wall are therefore always
    0. *)
Theorem ledger_vocabulary cs (e0 : MiniGridEnv Aux) start_pos start_dir max_reward :
  let s := run cs (init e0 start_pos start_dir max_reward) in
  (∀ x, x ∈ inventory s → x ∈ ledger_names) ∧
  drop 5 (get_inventory_observation (inventory s)) = [0; 0; 0].
Proof.
  intros s.
  destruct (run_gated_tidy cs e0 start_pos start_dir max_reward)
    as [_ (_ & _ & _ & Hnames)].
  fold s in Hnames. split; [done|].
  assert (∀ x, x ∉ ledger_names → count x (inventory s) = 0%nat) as Hzero.
  { intros x Hx. destruct (count x (inventory s)) eqn:Hcnt; [done|].
    destruct Hx. apply Hnames, count_pos. lia. }
  apply list_eq. intros i.
  rewrite lookup_drop.
  destruct i as [|[|[|i]]].
  - rewrite (inventory_obs_lookup _ _ "Chest") by done.
    rewrite Hzero; [done|]. apply (bool_decide_unpack _). by vm_compute.
  - rewrite (inventory_obs_lookup _ _ "Crafting Table") by done.
    rewrite Hzero; [done|]. apply (bool_decide_unpack _). by vm_compute.
  - rewrite (inventory_obs_lookup _ _ "Wall") by done.
    rewrite Hzero; [done|]. apply (bool_decide_unpack _). by vm_compute.
  - simpl. apply lookup_ge_None. rewrite inventory_obs_length. lia.
Qed.

Lemma spent_step action s : gated s → spent s → spent (step action s).1.
Proof.
  intros Hg [Hrec Hinv]. split; [by apply step_record_mono|].
  intros Hin%count_pos.
  assert (count "Tree" (inventory s) = 0%nat) as Hzero.
  { destruct (count "Tree" (inventory s)) eqn:Hcnt; [done|].
    destruct Hinv. apply count_pos. lia. }
  destruct (append_is_gated action s "Tree") as [Hnew _]; [|lia|done].
  apply (bool_decide_unpack _). by vm_compute.
Qed.

Lemma spent_reset seed s : spent s → spent (reset seed s).1.
Proof.
  intros [Hrec Hinv]. pose proof (reset_own seed s) as Hown. unfold own in Hown.
  destruct (np_random seed (aux (base s)));
    injection Hown as _ _ Hrec' _ Hinv'; unfold spent; rewrite Hrec', Hinv';
    [|done..].
  split; [done|apply not_elem_of_nil].
Qed.

Lemma gated_spent_perform c s :
  gated s ∧ spent s → gated (perform c s).1 ∧ spent (perform c s).1.
Proof.
  intros [Hg Hs]. split; [by apply gated_perform|].
  destruct c as [seed|action]; simpl.
  - pose proof (spent_reset seed s Hs). by destruct (reset seed s).
  - pose proof (spent_step action s Hg Hs). by destruct (step action s).
Qed.

Lemma crafted_spent s : gated s → craftable s → spent (crafted s).
Proof.
  intros [Hres _] (_ & Htree & _ & _).
  destruct (Hres "Tree") as [Hone Hrec]; [apply (bool_decide_unpack _); by vm_compute|].
  split; [by apply Hrec|]. simpl.
  intros Hin%count_pos. revert Hin.
  rewrite count_app, count_single_ne, count_remove_ne, count_remove_eq by done. lia.
Qed.

(** X13 (step, reset): a process crafts the sword at most once.  After
    a successful craft, no sequence of resets and steps brings the
    object back to a state in which a craft succeeds: the tree is used
    up, and, being recorded, it can never be collected again, in this
    episode or in a later one. *)
Theorem sword_is_crafted_once cs0 (e0 : MiniGridEnv Aux) start_pos start_dir
    max_reward cs :
  let s := run cs0 (init e0 start_pos start_dir max_reward) in
  craftable s →
  ¬ craftable (run cs (step Actions.craft_sword s).1).
Proof.
  intros s Hc.
  assert (gated s) as Hg by apply run_gated, gated_init.
  assert ((step Actions.craft_sword s).1 = crafted s) as ->.
  { pose proof Hc as (Hf & Ht & Ho & Hs).
    rewrite step_craft_at_table by done.
    rewrite !bool_decide_eq_true_2, Hs by done. simpl. apply return_obs_state. }
  assert (gated (crafted s)) as Hg'.
  { pose proof (gated_step Actions.craft_sword s Hg) as Hg'.
    pose proof Hc as (Hf & Ht & Ho & Hs).
    rewrite step_craft_at_table in Hg' by done.
    rewrite !bool_decide_eq_true_2, Hs in Hg' by done. simpl in Hg'.
    by rewrite return_obs_state in Hg'. }
  destruct (run_invariant (λ s, gated s ∧ spent s) cs (crafted s) gated_spent_perform)
    as [_ [_ Hno]]; [split; [done|by apply crafted_spent]|].
  intros (_ & Htree & _). by apply Hno.
Qed.

(** X14 (step): the end of the episode is not latched.  In front of the
    chest with the sword, [open_chest] succeeds as often as it is
    called: after [n] such steps the ledger has gained [n] treasures,
    nothing else has changed, and the next call again returns the reward
    999 with [terminated]. *)
Theorem open_chest_is_not_latched s n :
  facing s = Returns (Some (Box "purple")) → "Iron Sword" ∈ inventory s →
  let s' := run (replicate n (Step Actions.open_chest)) s in
  s' = set_inventory (inventory s ++ replicate n "Treasure") s ∧
  ∃ obs, step Actions.open_chest s' =
         (set_inventory (inventory s' ++ ["Treasure"]) s',
          Returns (obs, 999, true, false)).
Proof.
  intros Hf Hin.
  assert (∀ s, facing s = Returns (Some (Box "purple")) → "Iron Sword" ∈ inventory s →
            ∃ obs, step Actions.open_chest s =
                   (set_inventory (inventory s ++ ["Treasure"]) s,
                    Returns (obs, 999, true, false))) as Hstep.
  { clear. intros s Hf Hin. rewrite step_open_at_chest by done.
    rewrite bool_decide_eq_true_2 by done.
    destruct (facing_inv s _ Hf) as (_ & p & _ & _ & Hp).
    destruct (return_obs_returns (set_inventory (inventory s ++ ["Treasure"]) s)
                p (-1 + 1000) true false Hp) as [obs Hobs].
    exists obs. exact Hobs. }
  revert s Hf Hin. induction n as [|n IH]; intros s Hf Hin; simpl.
  - split; [|by apply Hstep]. destruct s. simpl. by rewrite app_nil_r.
  - destruct (Hstep s Hf Hin) as [obs Hobs]. rewrite Hobs. simpl.
    set (s1 := set_inventory (inventory s ++ ["Treasure"]) s).
    destruct (IH s1) as [Heq Hnext];
      [exact Hf|apply elem_of_app; by left|].
    split; [|exact Hnext].
    rewrite Heq. unfold s1. simpl. unfold set_inventory. simpl.
    by rewrite <-app_assoc.
Qed.

End Ledger.

(** ** reset *)

Section ResetMore.
Context {Aux : Type} {E : Engine Aux}.
Implicit Types s : SimpleEnv Aux.

Lemma reset_rejected seed s :
  match np_random seed (aux (base s)) with
  | Returns _ => True
  | Raises e => reset seed s = (s, Raises e)
  | Hangs => reset seed s = (s, Hangs)
  end.
Proof.
  destruct (np_random seed (aux (base s))) eqn:Hnp; [done| |];
    unfold reset; unfold mbind at 1, M_bind at 1, eval at 1; by rewrite Hnp.
Qed.

(** X15 (reset): a reset begins with its bookkeeping.  Once the seed is
    accepted, the ledger is emptied, the sword flag cleared and the
    episode counted, and the global record kept, whether the reset then
    returns, raises in the generation of the grid or does not come
    back from a placement; a reset whose seed is rejected changes
    nothing at all. *)
Theorem reset_counts_the_episode_first seed s :
  match np_random seed (aux (base s)) with
  | Returns _ =>
      inventory (reset seed s).1 = [] ∧
      sword_crafted (reset seed s).1 = false ∧
      current_episode (reset seed s).1 = current_episode s + 1 ∧
      collected_resources_global (reset seed s).1 = collected_resources_global s ∧
      max_reward_episodes (reset seed s).1 = max_reward_episodes s
  | Raises e => reset seed s = (s, Raises e)
  | Hangs => reset seed s = (s, Hangs)
  end.
Proof.
  pose proof (reset_own seed s) as Hown. pose proof (reset_rejected seed s) as Hrej.
  destruct (np_random seed (aux (base s))); [|done..].
  unfold own in Hown. by injection Hown as -> -> -> -> ->.
Qed.

Lemma mapM_returns_inv {A B} (f : A → outcome B) l ks :
  mapM f l = Returns ks → Forall2 (λ x k, f x = Returns k) l ks.
Proof.
  revert ks. induction l as [|x l IH]; intros ks; simpl.
  - intros [= <-]. constructor.
  - destruct (f x) as [k| |] eqn:Hx; [|done..]. simpl.
    destruct (mapM f l) as [ks'| |]; [|done..]. simpl. intros [= <-].
    constructor; [done|by apply IH].
Qed.

Lemma lidar_row_length g agent i row :
  lidar_row g agent i = Returns row → length row = 8%nat.
Proof.
  unfold lidar_row. destruct (foldM _ _ _) as [[[n k]|]| |]; simpl; [| |done..].
  - intros [= <-]. by rewrite length_insert.
  - by intros [= <-].
Qed.

Lemma get_obs_lengths s obs :
  get_obs s = Returns obs →
  length (obs_lidar obs) = 64%nat ∧ length (obs_inventory obs) = 8%nat.
Proof.
  unfold get_obs.
  destruct (get_lidar_observation _ _) as [rows| |] eqn:Hrows; [|done..].
  simpl. intros [= <-]. simpl. split; [|apply inventory_obs_length].
  apply mapM_returns_inv in Hrows.
  assert (∀ (l : list nat) rows,
            Forall2 (λ i row, lidar_row (grid (base s)) (agent_pos (base s)) i
                              = Returns row) l rows →
            length (concat rows) = (8 * length l)%nat) as Hlen.
  { clear. intros l rows H. induction H as [|i row l rows Hrow _ IH]; [done|].
    simpl. rewrite length_app, IH, (lidar_row_length _ _ _ _ Hrow). lia. }
  by rewrite (Hlen _ _ Hrows).
Qed.

(** X16 (reset): when a reset returns, the step counter is 0, and the
    observation it hands out is the observation of the state it leaves:
    64 lidar entries, and an inventory block of eight zeros. *)
Theorem reset_returns_blank_inventory seed s s' obs :
  reset seed s = (s', Returns obs) →
  get_obs s' = Returns obs ∧ step_count (base s') = 0 ∧
  length (obs_lidar obs) = 64%nat ∧ obs_inventory obs = replicate 8 0.
Proof.
  intros Hr.
  assert (inventory s' = []) as Hinv.
  { pose proof (reset_own seed s) as Hown. pose proof (reset_rejected seed s) as Hrej.
    rewrite Hr in Hown, Hrej. simpl in Hown.
    destruct (np_random seed (aux (base s))); [|congruence..].
    unfold own in Hown. by injection Hown as _ _ _ _ ->. }
  destruct (reset_returns_inv seed s s' obs Hr) as (s0 & s1 & e2 & pos & _ & _ & Hs' & Hobs).
  split; [done|]. split; [by rewrite Hs'|].
  split; [by apply (get_obs_lengths s')|].
  unfold get_obs in Hobs. rewrite Hinv in Hobs.
  destruct (get_lidar_observation _ _); [|done..]. simpl in Hobs.
  by injection Hobs as <-.
Qed.

Lemma current_episode_step action s :
  current_episode (step action s).1 = current_episode s.
Proof.
  destruct (step_effect action s) as [Hown|[[_ Hown]|[[_ Hown]|(pos & kind & _ & Hown)]]];
    unfold own in Hown; by injection Hown as _ -> _ _ _.
Qed.

Lemma current_episode_reset seed s :
  current_episode s ≤ current_episode (reset seed s).1 ≤ current_episode s + 1.
Proof.
  pose proof (reset_own seed s) as Hown. unfold own in Hown.
  destruct (np_random seed (aux (base s))); injection Hown as _ -> _ _ _; lia.
Qed.

(** X17 (step, reset): the episode counter moves at resets only.  No
    step changes it, and over any sequence of calls it never decreases
    and grows by at most the number of resets in the sequence. *)
Theorem episode_counter_moves_at_resets cs s :
  (∀ action, current_episode (step action s).1 = current_episode s) ∧
  current_episode s ≤ current_episode (run cs s)
    ≤ current_episode s + Z.of_nat (resets cs).
Proof.
  split; [intros action; apply current_episode_step|].
  revert s. induction cs as [|c cs IH]; intros s; [simpl; unfold resets; simpl; lia|].
  simpl.
  assert (current_episode s ≤ current_episode (perform c s).1
          ≤ current_episode s + Z.of_nat (resets [c])) as Hc.
  { destruct c as [seed|action]; simpl.
    - pose proof (current_episode_reset seed s). destruct (reset seed s). simpl in *.
      unfold resets. simpl. lia.
    - pose proof (current_episode_step action s). destruct (step action s). simpl in *.
      unfold resets. simpl. lia. }
  assert (resets (c :: cs) = (resets [c] + resets cs)%nat) as ->.
  { unfold resets. change (c :: cs) with ([c] ++ cs). by rewrite filter_app, length_app. }
  destruct (perform c s) as [s' alive]. simpl in Hc.
  destruct alive; [specialize (IH s')|]; lia.
Qed.

(** *** When a step terminates *)

Lemma return_obs_inv s s' r t tr res :
  return_obs r t tr s = (s', Returns res) → ∃ obs, res = (obs, r, t, tr).
Proof.
  unfold return_obs. intros (obs & s1 & _ & Hret)%bind_returns.
  exists obs. by inversion Hret.
Qed.

Lemma fall_through_inv action r s s' res :
  fall_through action r s = (s', Returns res) →
  ∃ obs r0 t tr, (super_step action (base s)).2 = Returns (r0, t, tr) ∧
                 res = (obs, r + r0, t, tr).
Proof.
  unfold fall_through. intros ([[r0 t] tr] & s1 & Hsuper & Hret)%bind_returns.
  apply return_obs_inv in Hret as [obs ->].
  exists obs, r0, t, tr. split; [|done].
  unfold super in Hsuper. destruct (super_step action (base s)) as [e o].
  by inversion Hsuper.
Qed.

(** X18 (step): a step reports [terminated] only when the chest is
    opened with the sword in the ledger, with reward 999 and without
    [truncated], or when the engine's own step, reached on the
    fall-through path, reports it. *)
Theorem terminated_only_at_chest_or_by_engine action s s' obs r tr :
  step action s = (s', Returns (obs, r, true, tr)) →
  (action = Actions.open_chest ∧ facing s = Returns (Some (Box "purple")) ∧
   "Iron Sword" ∈ inventory s ∧ r = 999 ∧ tr = false) ∨
  (∃ r0, (super_step action (base s)).2 = Returns (r0, true, tr) ∧ r = -1 + r0).
Proof.
  intros Hstep.
  assert (∀ r1 t1 tr1 s1, return_obs r1 t1 tr1 s1 = (s', Returns (obs, r, true, tr)) →
            r = r1 ∧ t1 = true ∧ tr = tr1) as Hobs.
  { intros r1 t1 tr1 s1 [obs' Heq]%return_obs_inv. by inversion Heq. }
  assert (fall_through action (-1) s = (s', Returns (obs, r, true, tr)) →
          ∃ r0, (super_step action (base s)).2 = Returns (r0, true, tr) ∧ r = -1 + r0)
    as Hfall.
  { intros (obs' & r0 & t & tr' & Hsuper & Heq)%fall_through_inv.
    inversion Heq; subst. by exists r0. }
  destruct (decide (action = Actions.craft_sword)) as [->|H4];
    [|destruct (decide (action = Actions.open_chest)) as [->|H5];
      [|destruct (decide (action = Actions.toggle)) as [->|H3]]].
  - destruct (facing s) as [cell|e|] eqn:Hf; [| |by destruct (facing_not_hangs s)].
    + destruct (is_box_of "blue" cell) eqn:Hbox.
      * apply is_box_of_true in Hbox as ->. rewrite step_craft_at_table in Hstep by done.
        destruct (bool_decide _ && bool_decide _ && negb _);
          apply Hobs in Hstep as (_ & [=] & _).
      * rewrite (step_craft_elsewhere s cell) in Hstep by done. right. by apply Hfall.
    + rewrite (step_craft_raises s e) in Hstep by done. done.
  - destruct (facing s) as [cell|e|] eqn:Hf; [| |by destruct (facing_not_hangs s)].
    + destruct (is_box_of "purple" cell) eqn:Hbox.
      * apply is_box_of_true in Hbox as ->. rewrite step_open_at_chest in Hstep by done.
        destruct (bool_decide _) eqn:Hc.
        -- apply Hobs in Hstep as (-> & _ & ->). left.
           by apply bool_decide_eq_true in Hc.
        -- apply Hobs in Hstep as (_ & [=] & _).
      * rewrite (step_open_elsewhere s cell) in Hstep by done. right. by apply Hfall.
    + rewrite (step_open_raises s e) in Hstep by done. done.
  - destruct (facing s) as [cell|e|] eqn:Hf; [| |by destruct (facing_not_hangs s)].
    + destruct (facing_inv s _ Hf) as (pos & p & Hpos & Hcell & _).
      assert ((∃ color kind, cell = Some (Resource color kind)) ∨
              (∀ color kind, cell ≠ Some (Resource color kind)))
        as [(color & kind & ->)|Hno].
      { destruct cell as [[| |color kind|color]|]; eauto. }
      * rewrite (step_toggle_at_resource s pos color kind) in Hstep by done.
        destruct (bool_decide _); apply Hobs in Hstep as (_ & [=] & _).
      * rewrite (step_toggle_elsewhere s cell) in Hstep by done. right. by apply Hfall.
    + rewrite (step_toggle_raises s e) in Hstep by done. done.
  - rewrite step_other in Hstep by done. right. by apply Hfall.
Qed.

End ResetMore.

(** ** _gen_grid: the agent's start *)

Lemma pairs_sorted (xs ys : list Z) :
  StronglySorted Z.lt xs → StronglySorted Z.lt ys →
  StronglySorted scans_before (x ← xs; y ← ys; [(x, y)]).
Proof.
  intros Hxs Hys. induction Hxs as [|x xs Hxs IH Hx]; [constructor|].
  rewrite bind_cons. apply StronglySorted_app. split; [|split; [|done]].
  - intros c1 c2 (y1 & ->%list_elem_of_singleton & _)%list_elem_of_bind
      (x2 & (y2 & ->%list_elem_of_singleton & _)%list_elem_of_bind & Hx2)%list_elem_of_bind.
    left. simpl. by apply (proj1 (Forall_forall _ _) Hx).
  - clear IH Hx Hxs. induction Hys as [|y ys Hys IH Hy]; [constructor|].
    rewrite bind_cons. apply StronglySorted_cons. split; [|done].
    apply Forall_forall. intros c (y2 & ->%list_elem_of_singleton & Hy2)%list_elem_of_bind.
    right. simpl. split; [done|]. by apply (proj1 (Forall_forall _ _) Hy).
Qed.

Lemma interior_sorted w h : StronglySorted scans_before (interior w h).
Proof. apply pairs_sorted; apply StronglySorted_seqZ. Qed.

Lemma elem_of_interior w h c :
  c ∈ interior w h ↔ 1 ≤ c.1 < w - 1 ∧ 1 ≤ c.2 < h - 1.
Proof.
  unfold interior, range. destruct c as [x y]. simpl.
  rewrite list_elem_of_bind. setoid_rewrite list_elem_of_bind.
  setoid_rewrite elem_of_seqZ. setoid_rewrite list_elem_of_singleton. split.
  - intros (x' & (y' & [= -> ->] & ?) & ?). lia.
  - intros ?. exists x. split; [exists y; split; [done|lia] | lia].
Qed.

Lemma filter_head_least {A} (R : A → A → Prop) (P : A → Prop) `{!∀ x, Decision (P x)}
    (l : list A) q rest :
  StronglySorted R l → filter P l = q :: rest →
  P q ∧ q ∈ l ∧ ∀ c, c ∈ l → P c → c = q ∨ R q c.
Proof.
  intros Hsorted. induction Hsorted as [|x l Hsorted IH Hx]; [done|].
  rewrite filter_cons. destruct (decide (P x)) as [HP|HP].
  - intros [= -> _]. split; [done|]. split; [by left|].
    intros c [->|Hc]%elem_of_cons _; [by left|]. right.
    by apply (proj1 (Forall_forall _ _) Hx).
  - intros Hq. destruct (IH Hq) as (HPq & Hin & Hleast).
    split; [done|]. split; [by right|].
    intros c [->|Hc]%elem_of_cons HPc; [done|]. by apply Hleast.
Qed.

Lemma empty_positions_sound g w h l q :
  empty_positions g w h = Returns l → q ∈ l →
  cells g !! q = None ∧ in_grid g q = true ∧ q ∈ interior w h.
Proof.
  unfold empty_positions. fold (interior w h).
  destruct (mapM _ (interior w h)) as [looked| |] eqn:Hlooked; [|done..].
  simpl. intros [= <-] Hq. apply mapM_returns_inv in Hlooked.
  apply list_elem_of_fmap in Hq as ([c o] & -> & Hq).
  apply list_elem_of_filter in Hq as [Hnone Hq]. simpl in *. subst o.
  apply list_elem_of_lookup in Hq as [i Hi].
  destruct (Forall2_lookup_r _ _ _ _ _ Hlooked Hi) as (c' & Hc' & Hget).
  unfold grid_get in Hget. destruct (in_grid g c') eqn:Hin; [|done].
  simpl in Hget. injection Hget as -> Hcell.
  split; [done|]. split; [done|]. by eapply list_elem_of_lookup_2.
Qed.

Section GenGrid.
Context {Aux : Type} {E : Engine Aux}.
Implicit Types s : SimpleEnv Aux.

Lemma place_start_free w h s s' p :
  place_start w h s = (s', Returns ()) → agent_start_pos s = Some p →
  ∃ q, agent_pos (base s') = Some q ∧ agent_start_pos s' = Some q ∧
       agent_dir (base s') = Some (agent_start_dir s) ∧
       agent_start_dir s' = agent_start_dir s ∧
       grid (base s') = grid (base s) ∧
       in_grid (grid (base s)) q = true ∧
       (∀ o, cells (grid (base s)) !! q = Some o → can_overlap o = true).
Proof.
  intros Hret Hstart.
  destruct (grid_get (grid (base s)) p) as [cell| |] eqn:Hcell.
  - pose proof (place_start_spec w h s p cell Hstart Hcell) as Hspec.
    assert (in_grid (grid (base s)) p = true ∧ cell = cells (grid (base s)) !! p)
      as [Hin ->].
    { unfold grid_get in Hcell. destruct (in_grid _ p); [|done]. by inversion Hcell. }
    destruct (cells (grid (base s)) !! p) as [o|] eqn:Ho.
    + destruct (can_overlap o) eqn:Hover.
      * rewrite Hspec in Hret. injection Hret as <-. exists p. simpl.
        repeat (split; [done|]). intros o'. rewrite Ho. by intros [= <-].
      * destruct (empty_positions (grid (base s)) w h) as [[|q l]| |] eqn:Hempty;
          rewrite Hspec in Hret; [done| |done..].
        injection Hret as <-. exists q. simpl.
        destruct (empty_positions_sound _ _ _ _ q Hempty) as (Hq & Hinq & _); [by left|].
        repeat (split; [done|]). intros o'. by rewrite Hq.
    + rewrite Hspec in Hret. injection Hret as <-. exists p. simpl.
      repeat (split; [done|]). intros o'. by rewrite Ho.
  - exfalso. revert Hret.
    unfold place_start, mbind, M_bind, eval, assign, raise, mret, M_ret.
    by rewrite Hstart, Hcell.
  - exfalso. revert Hret.
    unfold place_start, mbind, M_bind, eval, assign, raise, mret, M_ret.
    by rewrite Hstart, Hcell.
Qed.

Lemma super_keeps_start {A} (f : MiniGridEnv Aux → MiniGridEnv Aux * outcome A) s s' o :
  super f s = (s', o) →
  agent_start_pos s' = agent_start_pos s ∧ agent_start_dir s' = agent_start_dir s.
Proof. unfold super. destruct (f (base s)). by intros [= <- _]. Qed.

Lemma gen_grid_returns_inv w h s s' :
  _gen_grid w h s = (s', Returns ()) →
  ∃ s1, place_start w h s1 = (s', Returns ()) ∧
        agent_start_pos s1 = agent_start_pos s ∧ agent_start_dir s1 = agent_start_dir s.
Proof.
  unfold _gen_grid. intros Hr.
  apply bind_returns in Hr as (g & s0 & Heval & Hr).
  assert (s0 = s) as -> by (unfold eval in Heval; by inversion Heval). clear Heval.
  apply bind_returns in Hr as ([] & s1 & Hassign & Hr).
  assert (s1 = with_base (set_grid g) s) as ->
    by (unfold assign in Hassign; by inversion Hassign). clear Hassign.
  do 7 (apply bind_returns in Hr as (? & ? & [? ?]%super_keeps_start & Hr)).
  eexists. split; [exact Hr|]. simpl in *. split; congruence.
Qed.

(** X19 (_gen_grid): when a start position is configured and the
    generation of the grid returns, the agent stands, with the
    configured direction, on a cell of the new grid that is empty or
    holds an object that permits overlap, and that cell is the start
    position the object keeps. *)
Theorem gen_grid_start_is_free w h s s' p :
  _gen_grid w h s = (s', Returns ()) → agent_start_pos s = Some p →
  ∃ q, agent_pos (base s') = Some q ∧ agent_start_pos s' = Some q ∧
       agent_dir (base s') = Some (agent_start_dir s) ∧
       in_grid (grid (base s')) q = true ∧
       (∀ o, cells (grid (base s')) !! q = Some o → can_overlap o = true).
Proof.
  intros (s1 & Hplace & Hpos & Hdir)%gen_grid_returns_inv Hstart.
  rewrite <-Hpos in Hstart.
  destruct (place_start_free w h s1 s' p Hplace Hstart)
    as (q & Hq & Hq' & Hd & _ & Hgrid & Hin & Hfree).
  exists q. rewrite Hgrid, <-Hdir. done.
Qed.

(** X20 (_gen_grid): a start position that holds an object without
    overlap is replaced for good.  The agent is put on the empty
    interior cell that comes first in the order of the comprehension
    (least [x], then least [y]), and that cell is written to
    [agent_start_pos]; when no interior cell is empty, [RuntimeError] is
    raised and nothing has changed. *)
Theorem blocked_start_moves_to_first_empty_cell s p o :
  agent_start_pos s = Some p →
  in_grid (grid (base s)) p = true → cells (grid (base s)) !! p = Some o →
  can_overlap o = false →
  match filter (λ c, cells (grid (base s)) !! c = None)
               (interior (gwidth (grid (base s))) (gheight (grid (base s)))) with
  | [] =>
      place_start (gwidth (grid (base s))) (gheight (grid (base s))) s
      = (s, Raises RuntimeError)
  | q :: _ =>
      place_start (gwidth (grid (base s))) (gheight (grid (base s))) s
      = (with_base (set_agent (Some q) (Some (agent_start_dir s)))
           (set_agent_start_pos (Some q) s), Returns ()) ∧
      (∀ c, 1 ≤ c.1 < gwidth (grid (base s)) - 1 →
            1 ≤ c.2 < gheight (grid (base s)) - 1 →
            cells (grid (base s)) !! c = None → c = q ∨ scans_before q c)
  end.
Proof.
  intros Hstart Hin Ho Hover.
  set (g := grid (base s)) in *.
  assert (grid_get g p = Returns (Some o)) as Hcell.
  { unfold grid_get. by rewrite Hin, Ho. }
  pose proof (place_start_spec (gwidth g) (gheight g) s p _ Hstart Hcell) as Hspec.
  simpl in Hspec. rewrite Hover in Hspec.
  rewrite empty_positions_interior in Hspec.
  2:{ intros c [? ?]%elem_of_interior. unfold in_grid. unfold g in *.
      repeat (apply andb_true_intro; split); lia. }
  destruct (filter _ (interior (gwidth g) (gheight g))) as [|q rest] eqn:Hfilter;
    [done|].
  split; [done|]. intros c Hx Hy Hc.
  destruct (filter_head_least scans_before _ _ q rest
              (interior_sorted (gwidth g) (gheight g)) Hfilter) as (_ & _ & Hleast).
  apply Hleast; [by apply elem_of_interior|done].
Qed.

End GenGrid.

(** ** Manual control *)

Section Control.
Context {Aux : Type} {E : Engine Aux} {D : Display Aux}.
Implicit Types c : CustomManualControl Aux.

Lemma keeps_flags_ret {A} (a : A) : keeps_flags (mret a : C Aux A).
Proof. by intros c. Qed.

Lemma keeps_flags_on_env {A} (m : M Aux A) : keeps_flags (on_env m).
Proof. intros c. unfold on_env. by destruct (m (env c)). Qed.

Lemma keeps_flags_bind {A B} (m : C Aux A) (k : A → C Aux B) :
  keeps_flags m → (∀ a, keeps_flags (k a)) → keeps_flags (m ≫= k).
Proof.
  intros Hm Hk c. unfold mbind, C_bind. specialize (Hm c).
  destruct (m c) as [c1 [a| |]]; simpl in Hm; [|done..].
  destruct Hm as [? ?]. destruct (Hk a c1) as [? ?]. split; congruence.
Qed.

Lemma keeps_flags_with_seed {A} (k : option Z → C Aux A) :
  (∀ sd, keeps_flags (k sd)) → keeps_flags (with_seed k).
Proof. intros Hk c. apply Hk. Qed.

Lemma keeps_flags_control_reset sd : keeps_flags (control_reset sd).
Proof.
  unfold control_reset.
  apply keeps_flags_bind; [apply keeps_flags_on_env|intros _].
  apply keeps_flags_bind; [apply keeps_flags_on_env|intros _].
  apply keeps_flags_ret.
Qed.

Lemma keeps_flags_control_step action : keeps_flags (control_step action).
Proof.
  unfold control_step.
  apply keeps_flags_bind; [apply keeps_flags_on_env|intros [[[obs r] t] tr]].
  destruct t; [apply keeps_flags_with_seed, keeps_flags_control_reset|].
  destruct tr; [apply keeps_flags_with_seed, keeps_flags_control_reset|].
  apply keeps_flags_bind; [apply keeps_flags_on_env|intros _; apply keeps_flags_ret].
Qed.

Lemma keeps_flags_key_handler key : keeps_flags (key_handler key).
Proof.
  unfold key_handler.
  destruct (bool_decide (key = "escape")).
  { apply keeps_flags_bind; [apply keeps_flags_on_env|intros _; apply keeps_flags_ret]. }
  destruct (bool_decide (key = "backspace")); [apply keeps_flags_control_reset|].
  destruct (key_to_action !! key); [apply keeps_flags_control_step|apply keeps_flags_ret].
Qed.

Lemma keeps_flags_handle_events batch : keeps_flags (handle_events batch).
Proof.
  induction batch as [|[|key|] batch IH]; simpl.
  - apply keeps_flags_ret.
  - apply keeps_flags_bind; [apply keeps_flags_on_env|intros _; apply keeps_flags_ret].
  - apply keeps_flags_bind; [apply keeps_flags_key_handler|by intros _].
  - done.
Qed.

Lemma event_loop_goes_on polls c :
  closed c = false →
  (event_loop polls c).2 ≠ Returns () ∧ closed (event_loop polls c).1 = false.
Proof.
  revert c. induction polls as [|poll polls IH]; intros c Hc; simpl; rewrite Hc.
  - done.
  - unfold mbind, C_bind, lift. destruct poll as [batch|e|]; [|done..].
    destruct (keeps_flags_handle_events batch c) as [_ Hclosed].
    destruct (handle_events batch c) as [c1 [[]| |]]; simpl in Hclosed |- *;
      [apply IH; congruence|split; [done|congruence]..].
Qed.

(** X21 (CustomManualControl.start): no method of the control ever
    sets [closed], so the loop of [start] has no way out: whatever
    events arrive, a [QUIT] or the escape key included, [start] does
    not return; it goes on polling, or ends with an exception of the
    environment or of pygame. *)
Theorem start_never_returns (s : SimpleEnv Aux) sd polls :
  (start polls (control_init s sd)).2 ≠ Returns () ∧
  closed (start polls (control_init s sd)).1 = false.
Proof.
  unfold start, mbind, C_bind.
  destruct (keeps_flags_with_seed control_reset keeps_flags_control_reset
              (control_init s sd)) as [_ Hclosed].
  destruct (with_seed control_reset (control_init s sd)) as [c1 [[]| |]]; simpl in *;
    [by apply event_loop_goes_on|done..].
Qed.

(** X22 (CustomManualControl.key_handler): a key that is neither escape
    nor backspace nor one of the six keys of the table is ignored: the
    handler returns and the environment has not been touched. *)
Theorem unmapped_key_is_ignored key c :
  key ∉ ["escape"; "backspace"; "left"; "right"; "up"; "space"; "c"; "o"] →
  key_handler key c = (c, Returns ()).
Proof.
  intros Hkey. unfold key_handler.
  rewrite bool_decide_eq_false_2 by (intros ->; apply Hkey; by left).
  rewrite bool_decide_eq_false_2 by (intros ->; apply Hkey; right; by left).
  assert (key_to_action !! key = None) as ->; [|done].
  apply not_elem_of_list_to_map_1. intros Hin. apply Hkey. right. right. exact Hin.
Qed.

(** X23 (CustomManualControl.key_handler): every action of the
    environment has its key, and only one: pressing it performs a step
    of the control with that action. *)
Theorem every_action_has_one_key action :
  0 ≤ action ≤ 5 →
  ∃ key, key_handler key = control_step action ∧
         ∀ key', key_to_action !! key' = Some action → key' = key.
Proof.
  intros Hrange.
  assert (∀ key' a, key_to_action !! key' = Some a →
            (key', a) ∈ [("left", 1); ("right", 2); ("up", 0); ("space", 3);
                         ("c", 4); ("o", 5)]) as Htable.
  { intros key' a Hlook. by apply elem_of_list_to_map_2 in Hlook. }
  assert (action = 0 ∨ action = 1 ∨ action = 2 ∨ action = 3 ∨ action = 4 ∨ action = 5)
    as [-> | [-> | [-> | [-> | [-> | ->]]]]] by lia;
    [exists "up"|exists "left"|exists "right"|exists "space"|exists "c"|exists "o"];
    (split; [reflexivity|]);
    intros key' Hk%Htable%list_elem_of_In; simpl in Hk; intuition congruence.
Qed.

Lemma frames_render : frames (render (D:=D)).
Proof.
  unfold render. apply frames_bind; [apply frames_super|intros ?; apply frames_ret].
Qed.

Lemma control_reset_own sd c :
  own (env (control_reset sd c).1) = own (reset sd (env c)).1.
Proof.
  unfold control_reset, mbind, C_bind, on_env.
  destruct (reset sd (env c)) as [s1 [obs| |]]; simpl; [|done..].
  pose proof (frames_render s1) as Hr.
  destruct (render s1) as [s2 [fr| |]]; simpl in *; done.
Qed.

(** X24 (CustomManualControl.step): a step of the control that opens
    the chest restarts the environment at once, with the seed of the
    control: when that seed is accepted, the ledger is empty again, the
    sword flag cleared and the next episode counted when the call comes
    back, whether the reset and the rendering succeed or not. *)
Theorem winning_step_restarts_the_episode c rng :
  facing (env c) = Returns (Some (Box "purple")) → "Iron Sword" ∈ inventory (env c) →
  np_random (seed c) (aux (base (env c))) = Returns rng →
  let c' := (control_step Actions.open_chest c).1 in
  inventory (env c') = [] ∧ sword_crafted (env c') = false ∧
  current_episode (env c') = current_episode (env c) + 1 ∧
  collected_resources_global (env c') = collected_resources_global (env c).
Proof.
  intros Hf Hin Hrng. simpl.
  set (s1 := set_inventory (inventory (env c) ++ ["Treasure"]) (env c)).
  assert (∃ obs, step Actions.open_chest (env c) = (s1, Returns (obs, 999, true, false)))
    as [obs Hstep].
  { rewrite step_open_at_chest by done. rewrite bool_decide_eq_true_2 by done.
    destruct (facing_inv (env c) _ Hf) as (_ & p & _ & _ & Hp).
    destruct (return_obs_returns s1 p (-1 + 1000) true false Hp) as [obs Hobs].
    by exists obs. }
  assert (own (env (control_step Actions.open_chest c).1) = own (reset (seed c) s1).1)
    as Hown.
  { unfold control_step, mbind at 1, C_bind at 1, on_env at 1. rewrite Hstep.
    unfold with_seed. simpl. apply (control_reset_own (seed c) (mkControl s1 _ _)). }
  pose proof (reset_own (seed c) s1) as Hreset. simpl in Hreset.
  rewrite Hrng in Hreset. rewrite Hreset in Hown.
  unfold own in Hown. by injection Hown as _ -> -> -> ->.
Qed.

End Control.

(** ** What a step shows in its observation *)

Section StepObs.
Context {Aux : Type} {E : Engine Aux}.
Implicit Types s : SimpleEnv Aux.

(** X25 (step): when the cell in front of the agent cannot be read
    (the agent has no position or no direction yet, as before the first
    reset, or the cell lies outside the grid), the three custom actions
    raise the exception of that reading and leave the object as it
    was. *)
Theorem custom_action_raises_on_unreadable_front action s e :
  facing s = Raises e →
  action = Actions.toggle ∨ action = Actions.craft_sword ∨ action = Actions.open_chest →
  step action s = (s, Raises e).
Proof.
  intros Hf [-> | [-> | ->]];
    [by apply step_toggle_raises|by apply step_craft_raises|by apply step_open_raises].
Qed.

Lemma get_obs_inventory s obs :
  get_obs s = Returns obs → obs_inventory obs = get_inventory_observation (inventory s).
Proof.
  unfold get_obs. destruct (get_lidar_observation _ _); [|done..]. simpl.
  by intros [= <-].
Qed.

Lemma return_obs_obs s s' r t tr res :
  return_obs r t tr s = (s', Returns res) →
  ∃ obs, get_obs s = Returns obs ∧ res = (obs, r, t, tr) ∧ s' = s.
Proof.
  unfold return_obs, mbind, M_bind, eval, mret, M_ret.
  destruct (get_obs s) as [obs| |]; [|done..]. intros [= <- <-]. by exists obs.
Qed.

(** X26 (step, get_inventory_observation): in every state a process
    reaches, a successful craft returns an observation whose inventory
    block is the one before the craft with the entries of the iron ore
    (0) and of the tree (4) set to 0: the sword itself has no entry. *)
Theorem craft_shows_as_loss_of_materials cs (e0 : MiniGridEnv Aux) start_pos start_dir
    max_reward :
  let s := run cs (init e0 start_pos start_dir max_reward) in
  craftable s →
  ∃ obs r, step Actions.craft_sword s = (crafted s, Returns (obs, r, false, false)) ∧
    obs_inventory obs =
    <[0%nat := 0]> (<[4%nat := 0]> (get_inventory_observation (inventory s))).
Proof.
  intros s Hc. pose proof Hc as (Hf & Ht & Ho & Hs).
  assert (gated s) as [Hres _] by apply run_gated, gated_init.
  destruct (facing_inv s _ Hf) as (pos & p & _ & _ & Hp).
  rewrite step_craft_at_table by done.
  rewrite !bool_decide_eq_true_2, Hs by done. simpl negb. cbn [andb].
  destruct (return_obs_returns (crafted s) p
              (if current_episode s <? max_reward_episodes s then -1 + 50 else -1)
              false false Hp) as [obs Hobs].
  exists obs. eexists. split; [exact Hobs|].
  apply return_obs_obs in Hobs as (obs' & Hget & [= <-] & _).
  rewrite (get_obs_inventory _ _ Hget).
  assert (∀ x, x ∈ resource_names →
            count x (inventory (crafted s)) =
            if decide (x = "Tree" ∨ x = "Iron Ore") then 0%nat
            else count x (inventory s)) as Hcount.
  { intros x Hx. simpl. rewrite count_app, count_single_ne
      by (intros ->; by apply sword_not_resource).
    destruct (Hres x Hx) as [Hle _].
    destruct (decide (x = "Tree" ∨ x = "Iron Ore")) as [[-> | ->]|Hne].
    - rewrite count_remove_ne, count_remove_eq by done. lia.
    - rewrite count_remove_eq, count_remove_ne by done. lia.
    - rewrite !count_remove_ne by (intros ->; apply Hne; auto). lia. }
  apply list_eq. intros i.
  destruct (resource_names !! i) as [name|] eqn:Hi.
  - rewrite (inventory_obs_lookup _ i name Hi).
    rewrite Hcount by (by eapply list_elem_of_lookup_2).
    pose proof (inventory_obs_length (inventory s)) as Hlen.
    rewrite !list_lookup_insert, !length_insert, Hlen.
    destruct i as [|[|[|[|[|[|[|[|i]]]]]]]]; simpl in Hi; [..|done];
      injection Hi as <-;
      (rewrite (decide_True (P:=_ ∨ _)) by auto) ||
      (rewrite (decide_False (P:=_ ∨ _)) by (by intros [?|?]));
      repeat (rewrite (decide_False (P:=_ ∧ _)) by (intros [? ?]; lia));
      try (rewrite (decide_True (P:=_ ∧ _)) by (split; lia));
      try done; symmetry; by apply inventory_obs_lookup.
  - transitivity (@None Z); [|symmetry]; apply lookup_ge_None;
      rewrite ?length_insert, inventory_obs_length; by apply lookup_ge_None in Hi.
Qed.

(** X27 (step, get_obs): the win does not show.  The observation
    returned by the step that opens the chest is the observation of the
    state before it: the treasure has no entry in the inventory block,
    and only [terminated] and the reward tell the step from a failed
    one. *)
Theorem treasure_is_invisible s :
  facing s = Returns (Some (Box "purple")) → "Iron Sword" ∈ inventory s →
  ∃ obs, get_obs s = Returns obs ∧
         step Actions.open_chest s =
         (set_inventory (inventory s ++ ["Treasure"]) s, Returns (obs, 999, true, false)).
Proof.
  intros Hf Hin. rewrite step_open_at_chest by done.
  rewrite bool_decide_eq_true_2 by done.
  destruct (facing_inv s _ Hf) as (_ & p & _ & _ & Hp).
  destruct (get_obs_returns s p Hp) as [obs Hobs]. exists obs. split; [done|].
  unfold return_obs, mbind, M_bind, eval, mret, M_ret.
  assert (get_obs (set_inventory (inventory s ++ ["Treasure"]) s) = Returns obs) as ->;
    [|done].
  rewrite <-Hobs. unfold get_obs. simpl.
  by rewrite (inventory_obs_hides (inventory s) [] "Treasure" treasure_not_resource),
    app_nil_r.
Qed.

(** X28 (step): the results of a step, case by case.  A step that
    returns has crafted (49 with the bonus, -1 without), failed at the
    table or at the chest (-2), opened the chest (999, terminated),
    collected a kind for the first time (0) or met a recorded kind
    again (-2), or it has gone to the engine, whose reward is charged
    with the penalty -1 and whose flags are passed on; only the engine
    can truncate. *)
Theorem step_result_table action s s' obs r t tr :
  step action s = (s', Returns (obs, r, t, tr)) →
  (action = Actions.craft_sword ∧ craftable s ∧
   r = (if current_episode s <? max_reward_episodes s then 49 else -1) ∧
   t = false ∧ tr = false) ∨
  (failed_attempt action s ∧ r = -2 ∧ t = false ∧ tr = false) ∨
  (action = Actions.open_chest ∧ facing s = Returns (Some (Box "purple")) ∧
   "Iron Sword" ∈ inventory s ∧ r = 999 ∧ t = true ∧ tr = false) ∨
  (∃ color kind, action = Actions.toggle ∧
     facing s = Returns (Some (Resource color kind)) ∧
     r = (if bool_decide (resource_name kind ∈ collected_resources_global s)
          then -2 else 0) ∧
     t = false ∧ tr = false) ∨
  (∃ r0, (super_step action (base s)).2 = Returns (r0, t, tr) ∧ r = -1 + r0).
Proof.
  intros Hstep.
  assert (∀ r1 t1 tr1 s1, return_obs r1 t1 tr1 s1 = (s', Returns (obs, r, t, tr)) →
            r = r1 ∧ t = t1 ∧ tr = tr1) as Hobs.
  { intros r1 t1 tr1 s1 [obs' Heq]%return_obs_inv. by inversion Heq. }
  assert (fall_through action (-1) s = (s', Returns (obs, r, t, tr)) →
          ∃ r0, (super_step action (base s)).2 = Returns (r0, t, tr) ∧ r = -1 + r0)
    as Hfall.
  { intros (obs' & r0 & t' & tr' & Hsuper & Heq)%fall_through_inv.
    inversion Heq; subst. by exists r0. }
  destruct (decide (action = Actions.craft_sword)) as [->|H4];
    [|destruct (decide (action = Actions.open_chest)) as [->|H5];
      [|destruct (decide (action = Actions.toggle)) as [->|H3]]].
  - destruct (facing s) as [cell|e|] eqn:Hf; [| |by destruct (facing_not_hangs s)].
    + destruct (is_box_of "blue" cell) eqn:Hbox.
      * apply is_box_of_true in Hbox as ->. rewrite step_craft_at_table in Hstep by done.
        destruct (bool_decide _ && bool_decide _ && negb _) eqn:Hc;
          apply Hobs in Hstep as (-> & -> & ->).
        -- left. apply andb_true_iff in Hc as [[Ht Ho]%andb_true_iff Hs].
           apply bool_decide_eq_true in Ht, Ho. apply negb_true_iff in Hs.
           split; [done|]. split; [done|].
           by destruct (current_episode s <? max_reward_episodes s).
        -- right; left. split; [|done]. left. split; [done|]. split; [done|].
           intros (Ht & Ho & Hs).
           rewrite !bool_decide_eq_true_2, Hs in Hc by done. done.
      * rewrite (step_craft_elsewhere s cell) in Hstep by done.
        do 4 right. by apply Hfall.
    + rewrite (step_craft_raises s e) in Hstep by done. done.
  - destruct (facing s) as [cell|e|] eqn:Hf; [| |by destruct (facing_not_hangs s)].
    + destruct (is_box_of "purple" cell) eqn:Hbox.
      * apply is_box_of_true in Hbox as ->. rewrite step_open_at_chest in Hstep by done.
        destruct (bool_decide _) eqn:Hc; apply Hobs in Hstep as (-> & -> & ->).
        -- right; right; left. by apply bool_decide_eq_true in Hc.
        -- right; left. split; [|done]. right. split; [done|]. split; [done|].
           by apply bool_decide_eq_false in Hc.
      * rewrite (step_open_elsewhere s cell) in Hstep by done.
        do 4 right. by apply Hfall.
    + rewrite (step_open_raises s e) in Hstep by done. done.
  - destruct (facing s) as [cell|e|] eqn:Hf; [| |by destruct (facing_not_hangs s)].
    + destruct (facing_inv s _ Hf) as (pos & p & Hpos & Hcell & _).
      assert ((∃ color kind, cell = Some (Resource color kind)) ∨
              (∀ color kind, cell ≠ Some (Resource color kind)))
        as [(color & kind & ->)|Hno].
      { destruct cell as [[| |color kind|color]|]; eauto. }
      * rewrite (step_toggle_at_resource s pos color kind) in Hstep by done.
        do 3 right; left. exists color, kind. split; [done|]. split; [done|].
        destruct (decide (resource_name kind ∈ collected_resources_global s)) as [Hin|Hin].
        -- rewrite bool_decide_eq_false_2 in Hstep by (by intros Hn; apply Hn).
           apply Hobs in Hstep as (-> & -> & ->). by rewrite bool_decide_eq_true_2.
        -- rewrite bool_decide_eq_true_2 in Hstep by done.
           apply Hobs in Hstep as (-> & -> & ->). by rewrite bool_decide_eq_false_2.
      * rewrite (step_toggle_elsewhere s cell) in Hstep by done.
        do 4 right. by apply Hfall.
    + rewrite (step_toggle_raises s e) in Hstep by done. done.
  - rewrite step_other in Hstep by done. do 4 right. by apply Hfall.
Qed.

End StepObs.

(** ** The further properties on the concrete run *)

Lemma grid_forall_decided g (P : Z * Z → Prop) `{!∀ c, Decision (P c)} :
  bool_decide (Forall P (scan_cells g)) = true → ∀ c, in_grid g c = true → P c.
Proof.
  intros Hall%bool_decide_eq_true c Hc.
  by apply (proj1 (Forall_forall _ _) Hall), elem_of_scan_cells.
Qed.

Lemma nearest_object_is_seen_witness :
  in_grid (grid (base Demo.at_tree)) (5, 1) = true ∧
  cells (grid (base Demo.at_tree)) !! (5, 1) = Some (Resource "green" Tree) ∧
  ∃ i k, (i < 8)%nat ∧ (k < 8)%nat ∧
    lidar_row (grid (base Demo.at_tree)) (Some (5, 2)) i =
    Returns (<[k := SqrtOver (norm2 (vsub (5, 1) (5, 2)))
                     (gwidth (grid (base Demo.at_tree)))]> zeros).
Proof.
  split; [vm_compute; reflexivity|]. split; [vm_compute; reflexivity|].
  apply (nearest_object_is_seen (grid (base Demo.at_tree)) (5, 2) (5, 1)
           (Resource "green" Tree)).
  - vm_compute. reflexivity.
  - vm_compute. reflexivity.
  - discriminate.
  - apply (grid_forall_decided (grid (base Demo.at_tree))
             (λ c', is_Some (cells (grid (base Demo.at_tree)) !! c') →
                    norm2 (vsub (5, 1) (5, 2)) ≤ norm2 (vsub c' (5, 2)))).
    vm_compute. reflexivity.
Defined.

Lemma walled_room_every_beam_reports_witness :
  cells (grid (base Demo.at_tree)) !! (5, 2) = None ∧
  ∃ k n, (k < 8)%nat ∧ 0 < n ∧
    lidar_row (grid (base Demo.at_tree)) (Some (5, 2)) 1 =
    Returns (<[k := SqrtOver n (gwidth (grid (base Demo.at_tree)))]> zeros).
Proof.
  split; [vm_compute; reflexivity|].
  apply (walled_room_every_beam_reports (grid (base Demo.at_tree)) (5, 2) 1).
  - lia.
  - vm_compute. split; reflexivity.
  - vm_compute. split; reflexivity.
  - apply (grid_forall_decided (grid (base Demo.at_tree))
             (λ c, c.1 = 0 ∨ c.1 = gwidth (grid (base Demo.at_tree)) - 1 ∨
                   c.2 = 0 ∨ c.2 = gheight (grid (base Demo.at_tree)) - 1 →
                   is_Some (cells (grid (base Demo.at_tree)) !! c))).
    vm_compute. reflexivity.
  - vm_compute. reflexivity.
Defined.

Lemma object_underfoot_masks_beam0_witness :
  cells Demo.tie_grid !! (4, 5) = Some (Resource "green" Tree) ∧
  lidar_row Demo.tie_grid (Some (4, 5)) 0 =
  Returns (<[entity_index (Resource "green" Tree) := SqrtOver 0 (gwidth Demo.tie_grid)]>
             zeros).
Proof.
  split; [vm_compute; reflexivity|].
  refine (proj1 (object_underfoot_masks_beam0 Demo.tie_grid (4, 5)
                   (Resource "green" Tree) _ _)); vm_compute; reflexivity.
Defined.

Lemma sword_is_crafted_once_witness :
  craftable (run (E:=Demo.E) Demo.to_table (init Demo.blank (Some (1, 1)) 0 20)) ∧
  ¬ craftable
      (run (E:=Demo.E) [Reset None; Step Actions.toggle]
         (step (E:=Demo.E) Actions.craft_sword
            (run (E:=Demo.E) Demo.to_table (init Demo.blank (Some (1, 1)) 0 20))).1).
Proof.
  assert (craftable (run (E:=Demo.E) Demo.to_table (init Demo.blank (Some (1, 1)) 0 20)))
    as Hc.
  { unfold craftable.
    split; [vm_compute; reflexivity|]. split; [|split; [|vm_compute; reflexivity]];
      apply (bool_decide_unpack _); vm_compute; exact I. }
  split; [exact Hc|].
  exact (sword_is_crafted_once (E:=Demo.E) Demo.to_table Demo.blank (Some (1, 1)) 0 20
           [Reset None; Step Actions.toggle] Hc).
Defined.

Lemma open_chest_is_not_latched_witness :
  facing Demo.at_chest = Returns (Some (Box "purple")) ∧
  run (E:=Demo.E) (replicate 2 (Step Actions.open_chest)) Demo.at_chest =
  set_inventory (inventory Demo.at_chest ++ replicate 2 "Treasure") Demo.at_chest.
Proof.
  assert (facing Demo.at_chest = Returns (Some (Box "purple"))) as Hf
    by (vm_compute; reflexivity).
  split; [exact Hf|].
  refine (proj1 (open_chest_is_not_latched (E:=Demo.E) Demo.at_chest 2 Hf _)).
  apply (bool_decide_unpack _). vm_compute. exact I.
Defined.

Lemma reset_returns_blank_inventory_witness :
  reset (E:=Demo.E) None Demo.fresh33 =
    (Demo.reset33.1, Returns (Cases.returned (mkObs [] []) Demo.reset33.2)) ∧
  obs_inventory (Cases.returned (mkObs [] []) Demo.reset33.2) = replicate 8 0.
Proof.
  assert (reset (E:=Demo.E) None Demo.fresh33 =
          (Demo.reset33.1, Returns (Cases.returned (mkObs [] []) Demo.reset33.2))) as Hr
    by (vm_compute; reflexivity).
  split; [exact Hr|].
  exact (proj2 (proj2 (proj2
           (reset_returns_blank_inventory (E:=Demo.E) None Demo.fresh33 _ _ Hr)))).
Defined.

Lemma terminated_only_at_chest_or_by_engine_witness :
  step (E:=Demo.E) Actions.open_chest Demo.at_chest =
    ((step (E:=Demo.E) Actions.open_chest Demo.at_chest).1,
     Returns ((Cases.returned (mkObs [] [], 0, false, false)
                 (step (E:=Demo.E) Actions.open_chest Demo.at_chest).2).1.1.1,
              999, true, false)) ∧
  ((Actions.open_chest = Actions.open_chest ∧
    facing Demo.at_chest = Returns (Some (Box "purple")) ∧
    "Iron Sword" ∈ inventory Demo.at_chest ∧ 999 = 999 ∧ false = false) ∨
   (∃ r0, (super_step (Engine:=Demo.E) Actions.open_chest (base Demo.at_chest)).2 =
          Returns (r0, true, false) ∧ 999 = -1 + r0)).
Proof.
  assert (step (E:=Demo.E) Actions.open_chest Demo.at_chest =
          ((step (E:=Demo.E) Actions.open_chest Demo.at_chest).1,
           Returns ((Cases.returned (mkObs [] [], 0, false, false)
                       (step (E:=Demo.E) Actions.open_chest Demo.at_chest).2).1.1.1,
                    999, true, false))) as Hs
    by (vm_compute; reflexivity).
  split; [exact Hs|].
  exact (terminated_only_at_chest_or_by_engine (E:=Demo.E) _ _ _ _ _ _ Hs).
Defined.

Lemma gen_grid_start_is_free_witness :
  agent_start_pos Cases.seeded = Some (1, 1) ∧
  ∃ q, agent_pos (base (_gen_grid (E:=Demo.E) 12 12 Cases.seeded).1) = Some q ∧
       agent_start_pos (_gen_grid (E:=Demo.E) 12 12 Cases.seeded).1 = Some q ∧
       agent_dir (base (_gen_grid (E:=Demo.E) 12 12 Cases.seeded).1)
       = Some (agent_start_dir Cases.seeded) ∧
       in_grid (grid (base (_gen_grid (E:=Demo.E) 12 12 Cases.seeded).1)) q = true ∧
       (∀ o, cells (grid (base (_gen_grid (E:=Demo.E) 12 12 Cases.seeded).1)) !! q
             = Some o → can_overlap o = true).
Proof.
  split; [vm_compute; reflexivity|].
  apply (gen_grid_start_is_free (E:=Demo.E) 12 12 Cases.seeded
           (_gen_grid (E:=Demo.E) 12 12 Cases.seeded).1 (1, 1)).
  - vm_compute. reflexivity.
  - vm_compute. reflexivity.
Defined.

Lemma blocked_start_moves_to_first_empty_cell_witness :
  cells (grid (base Cases.blocked)) !! (1, 1) = Some (Resource "red" IronOre) ∧
  match filter (λ c, cells (grid (base Cases.blocked)) !! c = None)
               (interior (gwidth (grid (base Cases.blocked)))
                  (gheight (grid (base Cases.blocked)))) with
  | [] =>
      place_start (E:=Demo.E) (gwidth (grid (base Cases.blocked)))
        (gheight (grid (base Cases.blocked))) Cases.blocked
      = (Cases.blocked, Raises RuntimeError)
  | q :: _ =>
      place_start (E:=Demo.E) (gwidth (grid (base Cases.blocked)))
        (gheight (grid (base Cases.blocked))) Cases.blocked
      = (with_base (set_agent (Some q) (Some (agent_start_dir Cases.blocked)))
           (set_agent_start_pos (Some q) Cases.blocked), Returns ()) ∧
      (∀ c, 1 ≤ c.1 < gwidth (grid (base Cases.blocked)) - 1 →
            1 ≤ c.2 < gheight (grid (base Cases.blocked)) - 1 →
            cells (grid (base Cases.blocked)) !! c = None → c = q ∨ scans_before q c)
  end.
Proof.
  split; [vm_compute; reflexivity|].
  apply (blocked_start_moves_to_first_empty_cell (E:=Demo.E) Cases.blocked (1, 1)
           (Resource "red" IronOre)); vm_compute; reflexivity.
Defined.

Lemma unmapped_key_is_ignored_witness :
  ("x" ∉ ["escape"; "backspace"; "left"; "right"; "up"; "space"; "c"; "o"]) ∧
  key_handler (E:=Demo.E) (D:=Cases.display) "x" Cases.control_at_chest
  = (Cases.control_at_chest, Returns ()).
Proof.
  assert ("x" ∉ ["escape"; "backspace"; "left"; "right"; "up"; "space"; "c"; "o"])
    as Hkey by (apply (bool_decide_unpack _); vm_compute; exact I).
  split; [exact Hkey|].
  exact (unmapped_key_is_ignored (E:=Demo.E) (D:=Cases.display) "x" Cases.control_at_chest Hkey).
Defined.

Lemma every_action_has_one_key_witness :
  ∃ key, key_handler (E:=Demo.E) (D:=Cases.display) key
         = control_step (E:=Demo.E) (D:=Cases.display) Actions.craft_sword ∧
         ∀ key', key_to_action !! key' = Some Actions.craft_sword → key' = key.
Proof.
  apply (every_action_has_one_key (E:=Demo.E) (D:=Cases.display) Actions.craft_sword).
  unfold Actions.craft_sword. lia.
Defined.

Lemma winning_step_restarts_the_episode_witness :
  facing (env Cases.control_at_chest) = Returns (Some (Box "purple")) ∧
  inventory (env (control_step (E:=Demo.E) (D:=Cases.display) Actions.open_chest
                    Cases.control_at_chest).1) = [] ∧
  current_episode (env (control_step (E:=Demo.E) (D:=Cases.display) Actions.open_chest
                          Cases.control_at_chest).1) = current_episode (env Cases.control_at_chest) + 1.
Proof.
  assert (facing (env Cases.control_at_chest) = Returns (Some (Box "purple"))) as Hf
    by (vm_compute; reflexivity).
  split; [exact Hf|].
  destruct (winning_step_restarts_the_episode (E:=Demo.E) (D:=Cases.display)
              Cases.control_at_chest (Engine0.mkAux 576 (Demo.gen (Some 42))) Hf)
    as (Hinv & _ & Hep & _).
  - apply (bool_decide_unpack _). vm_compute. exact I.
  - vm_compute. reflexivity.
  - split; [exact Hinv|exact Hep].
Defined.

Lemma custom_action_raises_on_unreadable_front_witness :
  facing Demo.fresh = Raises TypeError ∧
  step (E:=Demo.E) Actions.toggle Demo.fresh = (Demo.fresh, Raises TypeError).
Proof.
  assert (facing Demo.fresh = Raises TypeError) as Hf by (vm_compute; reflexivity).
  split; [exact Hf|].
  apply (custom_action_raises_on_unreadable_front (E:=Demo.E) Actions.toggle Demo.fresh
           TypeError Hf).
  left. reflexivity.
Defined.

Lemma craft_shows_as_loss_of_materials_witness :
  craftable (run (E:=Demo.E) Demo.to_table (init Demo.blank (Some (1, 1)) 0 20)) ∧
  ∃ obs r,
    step (E:=Demo.E) Actions.craft_sword
      (run (E:=Demo.E) Demo.to_table (init Demo.blank (Some (1, 1)) 0 20))
    = (crafted (run (E:=Demo.E) Demo.to_table (init Demo.blank (Some (1, 1)) 0 20)),
       Returns (obs, r, false, false)) ∧
    obs_inventory obs =
    <[0%nat := 0]>
      (<[4%nat := 0]>
         (get_inventory_observation
            (inventory (run (E:=Demo.E) Demo.to_table
                          (init Demo.blank (Some (1, 1)) 0 20))))).
Proof.
  assert (craftable (run (E:=Demo.E) Demo.to_table (init Demo.blank (Some (1, 1)) 0 20)))
    as Hc.
  { unfold craftable.
    split; [vm_compute; reflexivity|]. split; [|split; [|vm_compute; reflexivity]];
      apply (bool_decide_unpack _); vm_compute; exact I. }
  split; [exact Hc|].
  exact (craft_shows_as_loss_of_materials (E:=Demo.E) Demo.to_table Demo.blank
           (Some (1, 1)) 0 20 Hc).
Defined.

Lemma treasure_is_invisible_witness :
  facing Demo.at_chest = Returns (Some (Box "purple")) ∧
  ∃ obs, get_obs Demo.at_chest = Returns obs ∧
         step (E:=Demo.E) Actions.open_chest Demo.at_chest =
         (set_inventory (inventory Demo.at_chest ++ ["Treasure"]) Demo.at_chest,
          Returns (obs, 999, true, false)).
Proof.
  assert (facing Demo.at_chest = Returns (Some (Box "purple"))) as Hf
    by (vm_compute; reflexivity).
  split; [exact Hf|].
  apply (treasure_is_invisible (E:=Demo.E) Demo.at_chest Hf).
  apply (bool_decide_unpack _). vm_compute. exact I.
Defined.

Lemma step_result_table_witness :
  step (E:=Demo.E) Actions.toggle Demo.at_tree =
    ((step (E:=Demo.E) Actions.toggle Demo.at_tree).1,
     Returns ((Cases.returned (mkObs [] [], 0, false, false)
                 (step (E:=Demo.E) Actions.toggle Demo.at_tree).2).1.1.1,
              0, false, false)) ∧
  ((Actions.toggle = Actions.craft_sword ∧ craftable Demo.at_tree ∧
    0 = (if current_episode Demo.at_tree <? max_reward_episodes Demo.at_tree
         then 49 else -1) ∧
    false = false ∧ false = false) ∨
   (failed_attempt Actions.toggle Demo.at_tree ∧ 0 = -2 ∧
    false = false ∧ false = false) ∨
   (Actions.toggle = Actions.open_chest ∧
    facing Demo.at_tree = Returns (Some (Box "purple")) ∧
    "Iron Sword" ∈ inventory Demo.at_tree ∧ 0 = 999 ∧ false = true ∧ false = false) ∨
   (∃ color kind, Actions.toggle = Actions.toggle ∧
      facing Demo.at_tree = Returns (Some (Resource color kind)) ∧
      0 = (if bool_decide (resource_name kind ∈ collected_resources_global Demo.at_tree)
           then -2 else 0) ∧
      false = false ∧ false = false) ∨
   (∃ r0, (super_step (Engine:=Demo.E) Actions.toggle (base Demo.at_tree)).2
          = Returns (r0, false, false) ∧ 0 = -1 + r0)).
Proof.
  assert (step (E:=Demo.E) Actions.toggle Demo.at_tree =
          ((step (E:=Demo.E) Actions.toggle Demo.at_tree).1,
           Returns ((Cases.returned (mkObs [] [], 0, false, false)
                       (step (E:=Demo.E) Actions.toggle Demo.at_tree).2).1.1.1,
                    0, false, false))) as Hs
    by (vm_compute; reflexivity).
  split; [exact Hs|].
  exact (step_result_table (E:=Demo.E) _ _ _ _ _ _ _ Hs).
Defined.
